(** * User defined functions: the registry of [sql/sql_udf.cc]

    A shallow embedding of the UDF registry (the name -> descriptor hash
    [udf_hash], the descriptors it points to, symbol resolution, the
    CREATE / DROP FUNCTION paths, the startup scan and the shutdown),
    followed by the properties of the design specification that concern
    it and by further properties of the code.

    Conventions of the embedding.
    - Descriptors ([udf_func]) live in a store [mem] indexed by address;
      [udf_hash] maps a key to an address, so that a caller who holds a
      [udf_func*] and the registry refer to one and the same object.
      Memory of descriptors is never freed by the source (MEM_ROOT), so
      the store only grows.
    - The collaborators of the file (the dynamic loader, the [mysql.func]
      table, the binary log, the transaction engine, the allocator) are an
      oracle [Env] that fixes what each call answers; every call that
      matters is appended to [trace].
    - [DBUG_ASSERT] is the release build's no-op; a violated assertion is
      recorded in [trace] as [EvAssert].
    - The reader/writer lock [THR_LOCK_udf] is the number of holds that
      have not been released; blocking is not modelled.
    - Keys of [udf_hash] are compared by the system collation in the
      source; here a key stands for its collation class. *)

From stdpp Require Import gmap strings list fin_maps.
From Stdlib Require Import ZArith NArith Lia Ascii.

Open Scope N_scope.

(** ** Data model *)

(** Addresses of [udf_func] objects; [0] is [nullptr]. *)
Abbreviation ptr := N (only parsing).
(** Handles of the dynamic loader; [0] is [NULL]. *)
Abbreviation handle := N (only parsing).
(** Native entry points; [0] is a symbol that did not resolve. *)
Abbreviation fnptr := N (only parsing).

(** Modelled from the spec: the declaration of [Item_udftype]
    ([sql_udf.h]) is not among the sources. The spec has two kinds, Scalar
    and Aggregate; [add_udf] rejects 0 and everything above
    [UDFTYPE_AGGREGATE], and the header numbers the two kinds 1 and 2.
    Rows of [mysql.func] store the kind as an integer, so the type of a
    descriptor is kept as the integer the code casts. *)
Definition UDFTYPE_FUNCTION : N := 1.
Definition UDFTYPE_AGGREGATE : N := 2.

(** Modelled from the spec: the declaration of [udf_func] ([sql_udf.h]) is
    not among the sources. The spec has [usage_count] as an integer that
    is never negative; it is the header's [ulong], on which arithmetic
    wraps at [2^64]. *)
Definition ULONG_MOD : N := 2 ^ 64.
Definition ulong_inc (c : N) : N := (c + 1) mod ULONG_MOD.
Definition ulong_dec (c : N) : N := (c + ULONG_MOD - 1) mod ULONG_MOD.

Record udf_func := mk_udf_func {
  name : string;
  returns : N;            (* Item_result *)
  type : N;               (* Item_udftype *)
  dl : string;            (* library path, relative to the plugin dir *)
  dlhandle : handle;
  func : fnptr;
  func_init : fnptr;
  func_deinit : fnptr;
  func_clear : fnptr;
  func_add : fnptr;
  usage_count : N
}.

(** What [memset(tmp, 0, sizeof( *tmp))] leaves. *)
Definition udf_zero : udf_func :=
  mk_udf_func EmptyString 0 0 EmptyString 0 0 0 0 0 0 0.

Definition set_dlhandle (h : handle) (u : udf_func) : udf_func :=
  mk_udf_func (name u) (returns u) (type u) (dl u) h (func u) (func_init u)
              (func_deinit u) (func_clear u) (func_add u) (usage_count u).
Definition set_func (f : fnptr) (u : udf_func) : udf_func :=
  mk_udf_func (name u) (returns u) (type u) (dl u) (dlhandle u) f (func_init u)
              (func_deinit u) (func_clear u) (func_add u) (usage_count u).
Definition set_func_init (f : fnptr) (u : udf_func) : udf_func :=
  mk_udf_func (name u) (returns u) (type u) (dl u) (dlhandle u) (func u) f
              (func_deinit u) (func_clear u) (func_add u) (usage_count u).
Definition set_func_deinit (f : fnptr) (u : udf_func) : udf_func :=
  mk_udf_func (name u) (returns u) (type u) (dl u) (dlhandle u) (func u)
              (func_init u) f (func_clear u) (func_add u) (usage_count u).
Definition set_func_clear (f : fnptr) (u : udf_func) : udf_func :=
  mk_udf_func (name u) (returns u) (type u) (dl u) (dlhandle u) (func u)
              (func_init u) (func_deinit u) f (func_add u) (usage_count u).
Definition set_func_add (f : fnptr) (u : udf_func) : udf_func :=
  mk_udf_func (name u) (returns u) (type u) (dl u) (dlhandle u) (func u)
              (func_init u) (func_deinit u) (func_clear u) f (usage_count u).
Definition set_usage_count (c : N) (u : udf_func) : udf_func :=
  mk_udf_func (name u) (returns u) (type u) (dl u) (dlhandle u) (func u)
              (func_init u) (func_deinit u) (func_clear u) (func_add u) c.

(** Error codes the file reports. *)
Inductive errcode :=
| ER_CANT_FIND_DL_ENTRY | ER_CANT_OPEN_LIBRARY | ER_UDF_EXISTS
| ER_UDF_NO_PATHS | ER_TOO_LONG_IDENT | ER_ERROR_ON_WRITE
| ER_FUNCTION_NOT_DEFINED | ER_OUT_OF_RESOURCES | ER_CANT_INITIALIZE_UDF
| ER_UDF_CANT_ALLOC_FOR_STRUCTURES | ER_UDF_CANT_OPEN_FUNCTION_TABLE
| ER_UDF_INVALID_ROW_IN_FUNCTION_TABLE | ER_UDF_CANT_ALLOC_FOR_FUNCTION
| ER_UNKNOWN_ERROR_NUMBER.

Inductive loglevel := ERROR_LEVEL | WARNING_LEVEL.

#[global] Instance errcode_eq_dec : EqDecision errcode.
Proof. solve_decision. Defined.
#[global] Instance loglevel_eq_dec : EqDecision loglevel.
Proof. solve_decision. Defined.

(** Calls to the collaborators, and what the file reports. *)
Inductive event :=
| EvDlopen (path : string) (h : handle)
| EvDlclose (h : handle)
| EvDlsym (h : handle) (sym : string)
| EvMyError (code : errcode) (arg : string)
| EvLogErr (level : loglevel) (code : errcode) (arg : string)
| EvPrintError
| EvWriteRow (nm : string)
| EvDeleteRow (nm : string)
| EvBinlog
| EvRollbackStmt | EvRollbackImplicit
| EvCommitStmt | EvCommitImplicit
| EvAssert.

#[global] Instance event_eq_dec : EqDecision event.
Proof. solve_decision. Defined.

(** The answers of the collaborators. A [bool] answer is [true] when the
    call reports an error (a non-zero return in the source). *)
Record Env := mk_Env {
  opt_allow_suspicious_udfs : bool;
  opt_noacl : bool;
  dlopen : string -> handle;
  dlsym : handle -> string -> fnptr;
  check_valid_path : string -> bool;
  check_string_char_length : string -> bool;
  alloc_root_fails : bool;
  thd_alloc_fails : bool;
  open_tables_fails : bool;
  init_read_record_fails : bool;
  read_record_error : Z;
  transaction_rollback_request : bool;
  ha_write_row_fails : bool;
  write_bin_log_fails : bool;
  ha_index_read_fails : bool;
  ha_delete_row_fails : bool;
  trans_rollback_stmt : bool;
  trans_rollback_implicit : bool;
  trans_commit_stmt : bool;
  trans_commit_implicit : bool
}.

(** The file's static state, the objects it points to, and the trace
    (newest event first). *)
Record udf_state := mk_state {
  initialized : bool;
  mem : gmap N udf_func;
  mem_next : N;
  udf_hash : gmap string N;
  using_udf_functions : bool;
  THR_LOCK_udf : nat;
  trace : list event
}.

Definition set_mem (m : gmap N udf_func) (st : udf_state) : udf_state :=
  mk_state (initialized st) m (mem_next st) (udf_hash st)
           (using_udf_functions st) (THR_LOCK_udf st) (trace st).
Definition set_mem_next (n : N) (st : udf_state) : udf_state :=
  mk_state (initialized st) (mem st) n (udf_hash st)
           (using_udf_functions st) (THR_LOCK_udf st) (trace st).
Definition set_udf_hash (h : gmap string N) (st : udf_state) : udf_state :=
  mk_state (initialized st) (mem st) (mem_next st) h
           (using_udf_functions st) (THR_LOCK_udf st) (trace st).
Definition set_using (b : bool) (st : udf_state) : udf_state :=
  mk_state (initialized st) (mem st) (mem_next st) (udf_hash st)
           b (THR_LOCK_udf st) (trace st).
Definition set_initialized (b : bool) (st : udf_state) : udf_state :=
  mk_state b (mem st) (mem_next st) (udf_hash st)
           (using_udf_functions st) (THR_LOCK_udf st) (trace st).
Definition set_lock (n : nat) (st : udf_state) : udf_state :=
  mk_state (initialized st) (mem st) (mem_next st) (udf_hash st)
           (using_udf_functions st) n (trace st).
Definition log (e : event) (st : udf_state) : udf_state :=
  mk_state (initialized st) (mem st) (mem_next st) (udf_hash st)
           (using_udf_functions st) (THR_LOCK_udf st) (e :: trace st).

(** [mysql_rwlock_wrlock] / [mysql_rwlock_rdlock] / [mysql_rwlock_unlock]. *)
Definition rwlock_lock (st : udf_state) : udf_state :=
  set_lock (S (THR_LOCK_udf st)) st.
Definition rwlock_unlock (st : udf_state) : udf_state :=
  set_lock (Nat.pred (THR_LOCK_udf st)) st.

(** [udf->field] and [*udf = u]. An address outside the store reads as
    zeroed memory; no address handed out is ever freed. *)
Definition deref (st : udf_state) (p : N) : udf_func :=
  default udf_zero (mem st !! p).
Definition store (p : N) (u : udf_func) (st : udf_state) : udf_state :=
  set_mem (<[p := u]> (mem st)) st.

(** [alloc_root(&mem, sizeof(udf_func))]: a bump allocator; [0] when the
    allocation fails. *)
Definition alloc_root (env : Env) (st : udf_state) : N * udf_state :=
  if alloc_root_fails env then (0, st)
  else (mem_next st, set_mem_next (mem_next st + 1) st).

(** [unordered_map::emplace]: inserts only when the key is absent. *)
Definition emplace (k : string) (p : N) (h : gmap string N) : gmap string N :=
  match h !! k with
  | Some _ => h
  | None => <[k := p]> h
  end.

(** [!udf_hash->empty()]. *)
Definition hash_nonempty (h : gmap string N) : bool :=
  negb (bool_decide (h = ∅)).

(** ** The key a descriptor in use is renamed to: [snprintf(new_name,
    sizeof(new_name), "*<%p>", udf)], with the loader's rendering of [%p]
    as [0x] and lower-case hexadecimal digits. *)
Definition hex_digit (d : N) : ascii :=
  match d with
  | 0 => "0" | 1 => "1" | 2 => "2" | 3 => "3" | 4 => "4" | 5 => "5"
  | 6 => "6" | 7 => "7" | 8 => "8" | 9 => "9" | 10 => "a" | 11 => "b"
  | 12 => "c" | 13 => "d" | 14 => "e" | _ => "f"
  end%char.

Fixpoint hex_digits (fuel : nat) (n : N) (acc : string) : string :=
  match fuel with
  | O => acc
  | S k =>
      let acc' := String (hex_digit (n mod 16)) acc in
      if n / 16 =? 0 then acc' else hex_digits k (n / 16) acc'
  end.

Definition hex_of_N (n : N) : string := hex_digits (S (N.size_nat n)) n EmptyString.

Definition shadow_key (udf : N) : string :=
  String.substring 0 31 ("*<0x" +:+ hex_of_N udf +:+ ">").

(** ** Symbol resolution *)

(** [init_syms(tmp, nm)]: resolves the entry points of [tmp] in its
    library. The result is the name of the symbol that makes resolution
    fail ([tmp->name.str], or the buffer [nm] with the suffix last copied
    into it), or [None] for the source's [0]. *)
Definition init_syms (env : Env) (tmp : N) (st : udf_state)
  : option string * udf_state :=
  let u := deref st tmp in
  let h := dlhandle u in
  let f := dlsym env h (name u) in
  let st := store tmp (set_func f u) (log (EvDlsym h (name u)) st) in
  if f =? 0 then (Some (name u), st)
  else
    let '(missing, st) :=
      if type u =? UDFTYPE_AGGREGATE then
        let nm := name u +:+ "_clear" in
        let fc := dlsym env h nm in
        let st := store tmp (set_func_clear fc (deref st tmp))
                        (log (EvDlsym h nm) st) in
        if fc =? 0 then (Some nm, st)
        else
          let nm := name u +:+ "_add" in
          let fa := dlsym env h nm in
          let st := store tmp (set_func_add fa (deref st tmp))
                          (log (EvDlsym h nm) st) in
          if fa =? 0 then (Some nm, st) else (None, st)
      else (None, st) in
    match missing with
    | Some nm => (Some nm, st)
    | None =>
        let nm := name u +:+ "_deinit" in
        let st := store tmp (set_func_deinit (dlsym env h nm) (deref st tmp))
                        (log (EvDlsym h nm) st) in
        let nm := name u +:+ "_init" in
        let st := store tmp (set_func_init (dlsym env h nm) (deref st tmp))
                        (log (EvDlsym h nm) st) in
        let t := deref st tmp in
        if (func_init t =? 0) && (func_deinit t =? 0)
           && negb (type t =? UDFTYPE_AGGREGATE) then
          if negb (opt_allow_suspicious_udfs env) then (Some nm, st)
          else (None, log (EvLogErr WARNING_LEVEL ER_CANT_FIND_DL_ENTRY nm) st)
        else (None, st)
    end.

(** ** The registry *)

(** The test of the loop of [find_udf_dl] on one registered descriptor:
    [!strcmp(dl, udf->dl) && udf->dlhandle != NULL]. *)
Definition dl_matches (st : udf_state) (path : string) (kv : string * N) : bool :=
  bool_decide (path = dl (deref st kv.2)) && negb (dlhandle (deref st kv.2) =? 0).

(** [find_udf_dl(dl)]: the handle of the first registered descriptor of
    that library which has one; [0] when there is none. The order of the
    iteration over the hash is the order of [map_to_list]. *)
Definition find_udf_dl (st : udf_state) (path : string) : N :=
  match List.find (dl_matches st path) (map_to_list (udf_hash st)) with
  | Some kv => dlhandle (deref st kv.2)
  | None => 0
  end.

(** [udf_hash_delete(udf)]. When the name of [udf] is not a key of the
    hash, the source returns after [DBUG_ASSERT(false)] without releasing
    the lock. *)
Definition udf_hash_delete (udf : N) (st : udf_state) : udf_state :=
  let st := rwlock_lock st in
  match udf_hash st !! name (deref st udf) with
  | None => log EvAssert st
  | Some _ =>
      let c := ulong_dec (usage_count (deref st udf)) in
      let st := store udf (set_usage_count c (deref st udf)) st in
      let st :=
        if c =? 0 then
          let st := set_udf_hash (delete (name (deref st udf)) (udf_hash st)) st in
          set_using (hash_nonempty (udf_hash st)) st
        else
          let st := set_udf_hash (delete (name (deref st udf)) (udf_hash st)) st in
          set_udf_hash (emplace (shadow_key udf) udf (udf_hash st)) st in
      rwlock_unlock st
  end.

(** [free_udf(udf)]. *)
Definition free_udf (udf : N) (st : udf_state) : udf_state :=
  if negb (initialized st) then st
  else
    let st := rwlock_lock st in
    let c := ulong_dec (usage_count (deref st udf)) in
    let st := store udf (set_usage_count c (deref st udf)) st in
    if c =? 0 then
      match udf_hash st !! name (deref st udf) with
      | None => log EvAssert st
      | Some _ =>
          let st := set_udf_hash (delete (name (deref st udf)) (udf_hash st)) st in
          let st := set_using (hash_nonempty (udf_hash st)) st in
          let st :=
            if find_udf_dl st (dl (deref st udf)) =? 0
            then log (EvDlclose (dlhandle (deref st udf))) st
            else st in
          rwlock_unlock st
      end
    else rwlock_unlock st.

(** The bytes of a C string: up to the first NUL. *)
Fixpoint c_str (s : string) : string :=
  match s with
  | EmptyString => EmptyString
  | String c s' => if Ascii.eqb c "000"%char then EmptyString else String c (c_str s')
  end.

(** [length ? std::string(name, length) : std::string(name)]. *)
Definition find_key (nm : string) (length : nat) : string :=
  match length with
  | O => c_str nm
  | _ => String.substring 0 length nm
  end.

(** [find_udf(name, length, mark_used)]; the result is the address of the
    descriptor, [0] for [NULL]. *)
Definition find_udf (nm : string) (length : nat) (mark_used : bool)
                    (st : udf_state) : N * udf_state :=
  if negb (initialized st) then (0, st)
  else
    let st := rwlock_lock st in
    let '(udf, st) :=
      match udf_hash st !! find_key nm length with
      | Some udf =>
          if dlhandle (deref st udf) =? 0 then (0, st)
          else if mark_used then
            (udf, store udf (set_usage_count
                               (ulong_inc (usage_count (deref st udf)))
                               (deref st udf)) st)
          else (udf, st)
      | None => (0, st)
      end in
    (udf, rwlock_unlock st).

(** [add_udf(name, ret, dl, type)]; [name] and [dl] are never null where
    the file calls it. *)
Definition add_udf (env : Env) (nm : string) (ret : N) (path : string)
                   (typ : N) (st : udf_state) : N * udf_state :=
  if (typ =? 0) || (UDFTYPE_AGGREGATE <? typ) then (0, st)
  else
    let '(tmp, st) := alloc_root env st in
    if tmp =? 0 then (0, st)
    else
      let st := store tmp (mk_udf_func nm ret typ path 0 0 0 0 0 0 1) st in
      let st := rwlock_lock st in
      let st := set_udf_hash (emplace (name (deref st tmp)) tmp (udf_hash st)) st in
      let st := set_using true st in
      let st := rwlock_unlock st in
      (tmp, st).

(** ** CREATE FUNCTION, DROP FUNCTION and the startup scan *)

(** [trans_rollback_stmt(thd) || trans_rollback_implicit(thd)]. *)
Definition trans_rollback (env : Env) (st : udf_state) : bool * udf_state :=
  let st := log EvRollbackStmt st in
  if trans_rollback_stmt env then (true, st)
  else (trans_rollback_implicit env, log EvRollbackImplicit st).

(** [trans_commit_stmt(thd) || trans_commit_implicit(thd)]. *)
Definition trans_commit (env : Env) (st : udf_state) : bool * udf_state :=
  let st := log EvCommitStmt st in
  if trans_commit_stmt env then (true, st)
  else (trans_commit_implicit env, log EvCommitImplicit st).

(** [udf_end_transaction(thd, rollback, udf, insert_udf)]. *)
Definition udf_end_transaction (env : Env) (rollback : bool) (udf : N)
                               (insert_udf : bool) (st : udf_state)
  : bool * udf_state :=
  let rollback_transaction := transaction_rollback_request env || rollback in
  let '(u_f, st) :=
    if negb rollback_transaction && insert_udf then
      let u := deref st udf in
      let '(u_f, st) := add_udf env (name u) (returns u) (dl u) (type u) st in
      if negb (u_f =? 0) then
        let st := store u_f (set_dlhandle (dlhandle u) (deref st u_f)) st in
        let st := store u_f (set_func (func u) (deref st u_f)) st in
        let st := store u_f (set_func_init (func_init u) (deref st u_f)) st in
        let st := store u_f (set_func_deinit (func_deinit u) (deref st u_f)) st in
        let st := store u_f (set_func_clear (func_clear u) (deref st u_f)) st in
        let st := store u_f (set_func_add (func_add u) (deref st u_f)) st in
        (u_f, st)
      else (u_f, st)
    else (0, udf_hash_delete udf st) in
  let rollback_transaction :=
    rollback_transaction || (insert_udf && (u_f =? 0)) in
  let '(result, st) :=
    if rollback_transaction then trans_rollback env st
    else trans_commit env st in
  (result || rollback || (insert_udf && (u_f =? 0)), st).

(** The row of [mysql.func] is written, and then the statement is logged
    unless writing the row failed:
    [error= ha_write_row(...) != 0; if (!error) error= write_bin_log(...) != 0]. *)
Definition write_func_row (env : Env) (nm : string) (st : udf_state)
  : bool * udf_state :=
  let st := log (EvWriteRow nm) st in
  let error := ha_write_row_fails env in
  if negb error then (write_bin_log_fails env, log EvBinlog st)
  else (error, st).

(** The second half of [mysql_create_function], from [udf->dlhandle= dl]
    on: the library has the handle [dl1], and [new_dl] tells whether this
    statement opened it. *)
Definition create_with_library (env : Env) (udf : N) (dl1 : N) (new_dl : bool)
                               (st : udf_state) : bool * udf_state :=
  let st := store udf (set_dlhandle dl1 (deref st udf)) st in
  match init_syms env udf st with
  | (Some missing, st) =>
      let st := log (EvMyError ER_CANT_FIND_DL_ENTRY missing) st in
      (true, if new_dl then log (EvDlclose dl1) st else st)
  | (None, st) =>
      let '(error, st) := write_func_row env (name (deref st udf)) st in
      let '(error, st) :=
        udf_end_transaction
          env (transaction_rollback_request env || error) udf true st in
      if error then
        let st := log (EvMyError ER_ERROR_ON_WRITE "mysql.func") st in
        (error, if new_dl then log (EvDlclose dl1) st else st)
      else (error, st)
  end.

(** [mysql_create_function(thd, udf)]; [udf] is the descriptor the parser
    built. The result is the source's [error]. *)
Definition mysql_create_function (env : Env) (udf : N) (st : udf_state)
  : bool * udf_state :=
  let u := deref st udf in
  if negb (initialized st) then
    (true, log (if opt_noacl env then EvMyError ER_CANT_INITIALIZE_UDF (name u)
                else EvMyError ER_OUT_OF_RESOURCES EmptyString) st)
  else if check_valid_path env (dl u) then
    (true, log (EvMyError ER_UDF_NO_PATHS EmptyString) st)
  else if check_string_char_length env (name u) then
    (true, log (EvMyError ER_TOO_LONG_IDENT (name u)) st)
  else if open_tables_fails env then (true, st)
  else
    let st := rwlock_lock st in
    match udf_hash st !! name u with
    | Some _ => (true, rwlock_unlock (log (EvMyError ER_UDF_EXISTS (name u)) st))
    | None =>
        let dl0 := find_udf_dl st (dl u) in
        let st := rwlock_unlock st in
        if dl0 =? 0 then
          let dl1 := dlopen env (dl u) in
          let st := log (EvDlopen (dl u) dl1) st in
          if dl1 =? 0 then (true, log (EvMyError ER_CANT_OPEN_LIBRARY (dl u)) st)
          else create_with_library env udf dl1 true st
        else create_with_library env udf dl0 false st
    end.

(** [mysql_drop_function(thd, udf_name)]. *)
Definition mysql_drop_function (env : Env) (udf_name : string) (st : udf_state)
  : bool * udf_state :=
  if negb (initialized st) then
    (true, log (if opt_noacl env then EvMyError ER_FUNCTION_NOT_DEFINED udf_name
                else EvMyError ER_OUT_OF_RESOURCES EmptyString) st)
  else if open_tables_fails env then (true, st)
  else
    let st := rwlock_lock st in
    match udf_hash st !! udf_name with
    | None =>
        (true, rwlock_unlock (log (EvMyError ER_FUNCTION_NOT_DEFINED udf_name) st))
    | Some udf =>
        let st := rwlock_unlock st in
        let '(error, st) :=
          if negb (ha_index_read_fails env) then
            let st := log (EvDeleteRow (name (deref st udf))) st in
            if ha_delete_row_fails env then (true, log EvPrintError st)
            else (false, st)
          else (true, st) in
        let '(error, st) :=
          if negb error then (write_bin_log_fails env, log EvBinlog st)
          else (error, st) in
        let '(error, st) := udf_end_transaction env error udf false st in
        let st :=
          if negb (dlhandle (deref st udf) =? 0)
             && (find_udf_dl st (dl (deref st udf)) =? 0)
          then log (EvDlclose (dlhandle (deref st udf))) st
          else st in
        (error, st)
    end.

(** One row of [mysql.func]; [row_type] is [None] for the old format of
    the table, which has no fourth column. *)
Record func_row := mk_row {
  row_name : string;
  row_ret : N;
  row_dl : string;
  row_type : option N
}.

(** The body of the loop of [udf_init] once the library of [tmp] has the
    handle [h]: resolve the symbols, and unregister [tmp] when one is
    missing. *)
Definition udf_init_bind (env : Env) (tmp : N) (h : N) (new_dl : bool)
                         (st : udf_state) : udf_state :=
  let st := store tmp (set_dlhandle h (deref st tmp)) st in
  match init_syms env tmp st with
  | (Some missing, st) =>
      let st := log (EvLogErr ERROR_LEVEL ER_CANT_FIND_DL_ENTRY missing) st in
      let st := udf_hash_delete tmp st in
      if new_dl then log (EvDlclose h) st else st
  | (None, st) => st
  end.

(** The body of the loop of [udf_init] for one row. *)
Definition udf_init_row (env : Env) (st : udf_state) (r : func_row) : udf_state :=
  let udftype := default UDFTYPE_FUNCTION (row_type r) in
  if check_valid_path env (row_dl r) || check_string_char_length env (row_name r)
  then log (EvLogErr ERROR_LEVEL ER_UDF_INVALID_ROW_IN_FUNCTION_TABLE (row_name r)) st
  else
    let '(tmp, st) := add_udf env (row_name r) (row_ret r) (row_dl r) udftype st in
    if tmp =? 0
    then log (EvLogErr ERROR_LEVEL ER_UDF_CANT_ALLOC_FOR_FUNCTION (row_name r)) st
    else
      let dl0 := find_udf_dl st (dl (deref st tmp)) in
      if dl0 =? 0 then
        let h := dlopen env (dl (deref st tmp)) in
        let st := log (EvDlopen (dl (deref st tmp)) h) st in
        if h =? 0
        then log (EvLogErr ERROR_LEVEL ER_CANT_OPEN_LIBRARY (dl (deref st tmp))) st
        else udf_init_bind env tmp h true st
      else udf_init_bind env tmp dl0 false st.

(** [udf_init()], reading the rows [rows] of [mysql.func]. *)
Definition udf_init (env : Env) (rows : list func_row) (st : udf_state)
  : udf_state :=
  if initialized st then st
  else
    let st := set_lock 0 st in
    if thd_alloc_fails env
    then log (EvLogErr ERROR_LEVEL ER_UDF_CANT_ALLOC_FOR_STRUCTURES EmptyString) st
    else
      let st := set_initialized true (set_udf_hash ∅ st) in
      if open_tables_fails env
      then log (EvLogErr ERROR_LEVEL ER_UDF_CANT_OPEN_FUNCTION_TABLE EmptyString) st
      else if init_read_record_fails env then st
      else
        let st := fold_left (udf_init_row env) rows st in
        if (0 <? read_record_error env)%Z
        then log (EvLogErr ERROR_LEVEL ER_UNKNOWN_ERROR_NUMBER EmptyString) st
        else st.

(** The state before [udf_init]: nothing allocated and no registry; the
    allocator hands out addresses from [base] on. *)
Definition boot_state (base : N) : udf_state :=
  mk_state false ∅ base ∅ false 0 [].

(** The parser's allocation of the descriptor of a CREATE FUNCTION
    statement. *)
Definition parser_alloc (u : udf_func) (st : udf_state) : N * udf_state :=
  (mem_next st, set_mem_next (mem_next st + 1) (store (mem_next st) u st)).

(** ** Shutdown *)

(** The inner loop of [udf_deinit] at one later entry [kv] of the hash:
    [if (udf->dlhandle == tmp->dlhandle) tmp->dlhandle= 0]. Both handles
    are read from the objects as they are when the entry is reached. *)
Definition udf_deinit_mark (udf : N) (st : udf_state) (kv : string * N)
  : udf_state :=
  if dlhandle (deref st udf) =? dlhandle (deref st kv.2)
  then store kv.2 (set_dlhandle 0 (deref st kv.2)) st
  else st.

(** The outer loop of [udf_deinit] from the entry at the head of [l] on:
    a descriptor that still has a handle takes it away from the entries
    after it, and the handle is closed. *)
Fixpoint udf_deinit_close (l : list (string * N)) (st : udf_state) : udf_state :=
  match l with
  | [] => st
  | kv :: rest =>
      let udf := kv.2 in
      let st :=
        if negb (dlhandle (deref st udf) =? 0) then
          let st := fold_left (udf_deinit_mark udf) rest st in
          log (EvDlclose (dlhandle (deref st udf))) st
        else st in
      udf_deinit_close rest st
  end.

(** [udf_deinit()]. The hash is iterated in the order of [map_to_list],
    as in [find_udf_dl]; a null [udf_hash] is the empty map, on which the
    loop does nothing either. [free_root(&mem)] gives the memory of the
    descriptors back: the store keeps no record of that, every pointer
    into it dangles from here on, and while [initialized] is false no
    function of the file follows one. [mysql_rwlock_destroy] leaves the
    count of holds to the next [mysql_rwlock_init]. *)
Definition udf_deinit (st : udf_state) : udf_state :=
  let st := udf_deinit_close (map_to_list (udf_hash st)) st in
  let st := set_udf_hash ∅ st in
  if initialized st then set_initialized false st else st.


(** * Vocabulary of the properties *)

(** A descriptor that a lookup of [key] can hand out: registered under
    [key], with a library handle. *)
Definition usable (st : udf_state) (key : string) (p : N) : Prop :=
  udf_hash st !! key = Some p ∧ dlhandle (deref st p) ≠ 0.

(** The events a run appended: [trace st' = evs ++ trace st]. *)
Definition appended (st st' : udf_state) (evs : list event) : Prop :=
  trace st' = evs ++ trace st.

(** The handle [mysql_create_function] binds the new function to: the one
    a registered descriptor of the same library already has, or else the
    one [dlopen] answers. *)
Definition create_handle (env : Env) (st : udf_state) (path : string) : N :=
  if find_udf_dl st path =? 0 then dlopen env path else find_udf_dl st path.

(** What the query threads do with the registry: look a name up, with or
    without taking a reference, and give a reference back. *)
Inductive client_op :=
| Lookup (nm : string) (len : nat) (mark_used : bool)
| Release (udf : N).

Definition run_client (st : udf_state) (o : client_op) : udf_state :=
  match o with
  | Lookup nm len mark_used => (find_udf nm len mark_used st).2
  | Release udf => free_udf udf st
  end.

(** The events of symbol resolution: lookups and log lines. *)
Definition resolution_event (e : event) : Prop :=
  match e with
  | EvDlsym _ _ | EvLogErr _ _ _ => True
  | _ => False
  end.

(** Two descriptors that differ at most in their entry points. *)
Definition same_identity (u u' : udf_func) : Prop :=
  name u' = name u ∧ returns u' = returns u ∧ type u' = type u ∧
  dl u' = dl u ∧ dlhandle u' = dlhandle u ∧ usage_count u' = usage_count u.

(** Registered descriptors sit below the allocation pointer and are not
    null. *)
Definition wf_registry (st : udf_state) : Prop :=
  0 < mem_next st ∧
  ∀ k p, udf_hash st !! k = Some p -> 0 < p < mem_next st.

(** Registered descriptors of one library that have a handle have the
    same handle. *)
Definition shares_handles (st : udf_state) : Prop :=
  ∀ k1 k2 p1 p2,
    udf_hash st !! k1 = Some p1 -> udf_hash st !! k2 = Some p2 ->
    dl (deref st p1) = dl (deref st p2) ->
    dlhandle (deref st p1) ≠ 0 -> dlhandle (deref st p2) ≠ 0 ->
    dlhandle (deref st p1) = dlhandle (deref st p2).

Definition registry_inv (st : udf_state) : Prop :=
  wf_registry st ∧ shares_handles st.

(** Where the handle [h] bound to a new descriptor of the library [path]
    comes from: [dlopen], when no registered descriptor of that library
    has a handle, or else a registered descriptor of that library. *)
Definition handle_origin (env : Env) (st : udf_state) (path : string) (h : N)
  : Prop :=
  (h = dlopen env path ∧
   ∀ k p, udf_hash st !! k = Some p -> dl (deref st p) = path ->
          dlhandle (deref st p) = 0)
  ∨ (∃ k p, udf_hash st !! k = Some p ∧ dl (deref st p) = path ∧
            dlhandle (deref st p) = h).

(** Every handle held by a registered descriptor is one that [dlopen] of
    [env] gives for its library. *)
Definition handles_from (env : Env) (st : udf_state) : Prop :=
  ∀ k p, udf_hash st !! k = Some p -> dlhandle (deref st p) ≠ 0 ->
         dlopen env (dl (deref st p)) ≠ 0.

(** The operations on the registry: the startup scan, CREATE FUNCTION of
    the descriptor [u] built by the parser, DROP FUNCTION, and what the
    query threads do. Each runs against its own answers of the
    collaborators. *)
Inductive registry_op :=
| OpInit (rows : list func_row)
| OpCreate (u : udf_func)
| OpDrop (nm : string)
| OpClient (o : client_op).

Definition run_op (env : Env) (st : udf_state) (o : registry_op) : udf_state :=
  match o with
  | OpInit rows => udf_init env rows st
  | OpCreate u =>
      let '(udf, st) := parser_alloc u st in
      (mysql_create_function env udf st).2
  | OpDrop nm => (mysql_drop_function env nm st).2
  | OpClient o => run_client st o
  end.

(** The states of a server: from the state before [udf_init], any
    sequence of operations. *)
Inductive reachable : udf_state -> Prop :=
| reachable_boot (base : N) : 0 < base -> reachable (boot_state base)
| reachable_step (env : Env) (st : udf_state) (o : registry_op) :
    reachable st -> reachable (run_op env st o).

(** ** Vocabulary of the further properties *)

(** What [init_syms] asks of the library with the handle [h] for a
    function [nm] of type [typ]: the main symbol; for an aggregate
    [_clear] and [_add]; for any other function [_init] or [_deinit],
    unless suspicious functions are allowed. *)
Definition resolves (env : Env) (h : N) (nm : string) (typ : N) : bool :=
  negb (dlsym env h nm =? 0) &&
  (if typ =? UDFTYPE_AGGREGATE
   then negb (dlsym env h (nm +:+ "_clear") =? 0)
        && negb (dlsym env h (nm +:+ "_add") =? 0)
   else negb (dlsym env h (nm +:+ "_init") =? 0)
        || negb (dlsym env h (nm +:+ "_deinit") =? 0)
        || opt_allow_suspicious_udfs env).

(** The value of a hexadecimal digit as [hex_digit] writes it. *)
Definition hex_value (c : ascii) : N :=
  let v := N_of_ascii c in
  if v <? 58 then v - 48 else v - 87.

(** Reading a hexadecimal numeral, most significant digit first. *)
Fixpoint unhex (s : string) (acc : N) : N :=
  match s with
  | EmptyString => acc
  | String c s' => unhex s' (16 * acc + hex_value c)
  end.

(** No descriptor is registered under two keys. *)
Definition distinct_descriptors (st : udf_state) : Prop :=
  ∀ k1 k2 p, udf_hash st !! k1 = Some p -> udf_hash st !! k2 = Some p -> k1 = k2.

(** [using_udf_functions] is set whenever the hash has an entry. *)
Definition flag_inv (st : udf_state) : Prop :=
  udf_hash st ≠ ∅ -> using_udf_functions st = true.

(** A descriptor is registered under its name, or under the key it was
    renamed to. *)
Definition keyed (st : udf_state) : Prop :=
  ∀ k p, udf_hash st !! k = Some p -> k = name (deref st p) ∨ k = shadow_key p.

(** The two together. *)
Definition keys_inv (st : udf_state) : Prop :=
  keyed st ∧ distinct_descriptors st.

(** Every handle of a registered descriptor is what [dlopen] of [env]
    answers for its library. *)
Definition handles_eq (env : Env) (st : udf_state) : Prop :=
  ∀ k p, udf_hash st !! k = Some p -> dlhandle (deref st p) ≠ 0 ->
         dlhandle (deref st p) = dlopen env (dl (deref st p)).

(** What the startup scan may do outside the registry: write to the
    log, look symbols up, open a library whose path [check_valid_path]
    accepts, and close a library. *)
Definition scan_event (env : Env) (e : event) : Prop :=
  match e with
  | EvLogErr _ _ _ | EvDlsym _ _ | EvDlclose _ => True
  | EvDlopen path h => check_valid_path env path = false ∧ h = dlopen env path
  | _ => False
  end.

(** The events that end a transaction, and the failed assertion of
    [udf_hash_delete]. *)
Definition transaction_event (e : event) : Prop :=
  match e with
  | EvAssert | EvRollbackStmt | EvRollbackImplicit
  | EvCommitStmt | EvCommitImplicit => True
  | _ => False
  end.

(** Which libraries an operation may open. *)
Definition checked_opens (env : Env) (evs : list event) : Prop :=
  ∀ path h, EvDlopen path h ∈ evs ->
            check_valid_path env path = false ∧ h = dlopen env path.

(** When an operation may write to the binary log and commit. *)
Definition commit_discipline (env : Env) (evs : list event) : Prop :=
  (EvBinlog ∈ evs ->
   (∃ nm, EvWriteRow nm ∈ evs ∧ ha_write_row_fails env = false)
   ∨ (∃ nm, EvDeleteRow nm ∈ evs ∧ ha_index_read_fails env = false ∧
            ha_delete_row_fails env = false)) ∧
  (EvCommitStmt ∈ evs ->
   EvBinlog ∈ evs ∧ write_bin_log_fails env = false ∧
   transaction_rollback_request env = false ∧ EvRollbackStmt ∉ evs).

(** The registry before [udf_init] and after [udf_deinit]. *)
Definition registry_off (st : udf_state) : Prop :=
  initialized st = false ∧ udf_hash st = ∅.

(** ** Concrete collaborators used by the examples *)

Module Demo.

(** A loader that knows one library, [libdemo.so], exporting a scalar
    function [myfunc] with its [_init], an aggregate [myagg] with
    [_clear] and [_add], a bare symbol [abs], and an aggregate [badagg]
    without [_add]. *)
Definition lib_handle : N := 0x7f3a5c2000.

Definition demo_dlopen (path : string) : N :=
  if bool_decide (path = "libdemo.so") then lib_handle else 0.

Definition demo_exports : list string :=
  ["myfunc"; "myfunc_init"; "myagg"; "myagg_clear"; "myagg_add"; "abs";
   "badagg"; "badagg_clear"; "*<0x5581a0>"; "*<0x5581a0>_init"].

Definition demo_dlsym (h : N) (sym : string) : N :=
  if (h =? lib_handle) && bool_decide (sym ∈ demo_exports)
  then 0x7f3a5c2100 else 0.

(** Every collaborator succeeds. *)
Definition env_ok : Env :=
  mk_Env false false demo_dlopen demo_dlsym (fun _ => false) (fun _ => false)
         false false false false (-1)%Z
         false false false false false false false false false.

(** No library can be opened. *)
Definition env_nolib : Env :=
  mk_Env false false (fun _ => 0) demo_dlsym (fun _ => false) (fun _ => false)
         false false false false (-1)%Z
         false false false false false false false false false.

(** [allow_suspicious_udfs] is set. *)
Definition env_allow : Env :=
  mk_Env true false demo_dlopen demo_dlsym (fun _ => false) (fun _ => false)
         false false false false (-1)%Z
         false false false false false false false false false.

(** Writing or deleting the row of [mysql.func] fails. *)
Definition env_rowfail : Env :=
  mk_Env false false demo_dlopen demo_dlsym (fun _ => false) (fun _ => false)
         false false false false (-1)%Z
         false true false false true false false false false.

(** The commit of the statement fails. *)
Definition env_commitfail : Env :=
  mk_Env false false demo_dlopen demo_dlsym (fun _ => false) (fun _ => false)
         false false false false (-1)%Z
         false false false false false false false true false.

Definition base : N := 0x5581a0.

(** The registry after a startup scan that found nothing. *)
Definition st_empty : udf_state := udf_init env_ok [] (boot_state base).

(** The registry after a startup scan that found [myfunc]. *)
Definition st_myfunc : udf_state :=
  udf_init env_ok [mk_row "myfunc" 0 "libdemo.so" (Some 1)] (boot_state base).


(** ... and after one caller has acquired [myfunc]. *)
Definition st_held : udf_state := (find_udf "myfunc" 0 true st_myfunc).2.

(** A function whose name is the key its descriptor would be renamed
    to, acquired by one caller. *)
Definition star : string := "*<0x5581a0>".
Definition st_star : udf_state :=
  (find_udf star 0 true
     (udf_init env_ok [mk_row star 0 "libdemo.so" (Some 1)]
               (boot_state base))).2.

(** The row of [myfunc] in [mysql.func]. *)
Definition row_myfunc : func_row := mk_row "myfunc" 0 "libdemo.so" (Some 1).

(** The parser's descriptors of some CREATE FUNCTION statements, and
    the states in which the statements run. *)
Definition parsed (nm : string) (typ : N) : udf_func :=
  mk_udf_func nm 0 typ "libdemo.so" 0 0 0 0 0 0 0.

Definition create_myagg : N * udf_state :=
  parser_alloc (parsed "myagg" 2) st_empty.
Definition create_badagg : N * udf_state :=
  parser_alloc (parsed "badagg" 2) st_empty.
Definition create_dup : N * udf_state :=
  parser_alloc (parsed "myfunc" 1) st_myfunc.

(** A descriptor of [libdemo.so] whose library is open, as [init_syms]
    receives it. *)
Definition st_bound (nm : string) (typ : N) : udf_state :=
  store base (mk_udf_func nm 0 typ "libdemo.so" lib_handle 0 0 0 0 0 0)
        (boot_state base).

(** Two functions of one library, both found usable. *)
Definition st_shared : udf_state :=
  run_op env_ok (run_op env_ok (boot_state base) (OpInit [row_myfunc]))
         (OpCreate (parsed "myagg" 2)).

(** The library of [myfunc] could not be opened at startup; later
    [myagg] of the same library is created, the library being there. *)
Definition st_mixed : udf_state :=
  run_op env_ok (run_op env_nolib (boot_state base) (OpInit [row_myfunc]))
         (OpCreate (parsed "myagg" 2)).

End Demo.

(** * Properties *)

(** ** Reading and writing descriptors *)

Lemma deref_store_eq (p : N) (u : udf_func) (st : udf_state) :
  deref (store p u st) p = u.
Proof. unfold deref, store; simpl. by rewrite lookup_insert_eq. Qed.

Lemma deref_store_ne (p q : N) (u : udf_func) (st : udf_state) :
  p ≠ q -> deref (store p u st) q = deref st q.
Proof. intros Hne. unfold deref, store; simpl. by rewrite lookup_insert_ne. Qed.

Lemma deref_log (e : event) (st : udf_state) (p : N) :
  deref (log e st) p = deref st p.
Proof. reflexivity. Qed.

Lemma deref_set_lock (n : nat) (st : udf_state) (p : N) :
  deref (set_lock n st) p = deref st p.
Proof. reflexivity. Qed.

Lemma deref_set_udf_hash (h : gmap string N) (st : udf_state) (p : N) :
  deref (set_udf_hash h st) p = deref st p.
Proof. reflexivity. Qed.

Lemma deref_set_using (b : bool) (st : udf_state) (p : N) :
  deref (set_using b st) p = deref st p.
Proof. reflexivity. Qed.

Lemma deref_set_mem_next (n : N) (st : udf_state) (p : N) :
  deref (set_mem_next n st) p = deref st p.
Proof. reflexivity. Qed.

Lemma ulong_inc_small (c : N) : c < ULONG_MOD - 1 -> ulong_inc c = c + 1.
Proof.
  unfold ulong_inc, ULONG_MOD. intros Hc. apply N.mod_small. lia.
Qed.

Lemma ulong_dec_pos (c : N) : 0 < c -> c < ULONG_MOD -> ulong_dec c = c - 1.
Proof.
  unfold ulong_dec, ULONG_MOD. intros H0 Hc.
  replace (c + 2 ^ 64 - 1) with ((c - 1) + 1 * 2 ^ 64) by lia.
  rewrite N.Div0.mod_add. apply N.mod_small. lia.
Qed.

(** ** Lookup: [find_udf] *)

Lemma find_udf_hash (nm : string) (len : nat) (mark : bool) (st : udf_state) :
  udf_hash (find_udf nm len mark st).2 = udf_hash st.
Proof.
  unfold find_udf. destruct (initialized st); simpl; [|done].
  destruct (udf_hash st !! find_key nm len) as [p|]; simpl; [|done].
  unfold deref at 1; simpl.
  destruct (dlhandle _ =? 0); [done|]. by destruct mark.
Qed.

Lemma find_udf_result (nm : string) (len : nat) (mark : bool) (st : udf_state) :
  initialized st = true ->
  (find_udf nm len mark st).1 =
    match udf_hash st !! find_key nm len with
    | Some p => if dlhandle (deref st p) =? 0 then 0 else p
    | None => 0
    end.
Proof.
  intros Hi. unfold find_udf. rewrite Hi; simpl.
  destruct (udf_hash st !! find_key nm len) as [p|]; simpl; [|done].
  unfold deref at 1; simpl. fold (deref st p).
  destruct (dlhandle (deref st p) =? 0); [done|]. by destruct mark.
Qed.

Lemma find_udf_mem (nm : string) (len : nat) (mark : bool) (st : udf_state) :
  initialized st = true ->
  mem (find_udf nm len mark st).2 =
    match udf_hash st !! find_key nm len with
    | Some p =>
        if (dlhandle (deref st p) =? 0) || negb mark then mem st
        else <[p := set_usage_count (ulong_inc (usage_count (deref st p)))
                                    (deref st p)]> (mem st)
    | None => mem st
    end.
Proof.
  intros Hi. unfold find_udf. rewrite Hi; simpl.
  destruct (udf_hash st !! find_key nm len) as [p|]; simpl; [|done].
  unfold deref at 1; simpl. fold (deref st p).
  destruct (dlhandle (deref st p) =? 0); [done|]. by destruct mark.
Qed.

(** C6. On an initialised registry, [find_udf] hands out the descriptor
    registered under the name exactly when there is one and its library
    handle is not null, and hands out nothing when the name is absent or
    the library was not opened. With [mark_used] the descriptor handed out
    has its [usage_count] incremented by one (and nothing else changes,
    for it or for any other descriptor); without [mark_used] the result is
    the same and no [usage_count] changes. The registry's keys never
    change. *)
Theorem find_udf_spec (nm : string) (len : nat) (st : udf_state) :
  initialized st = true ->
  let key := find_key nm len in
  let acq := find_udf nm len true st in
  let ro := find_udf nm len false st in
  (∀ p, p ≠ 0 -> (acq.1 = p ↔ usable st key p)) ∧
  (udf_hash st !! key = None -> acq.1 = 0 ∧ mem acq.2 = mem st) ∧
  (∀ p, udf_hash st !! key = Some p -> dlhandle (deref st p) = 0 ->
        acq.1 = 0 ∧ mem acq.2 = mem st) ∧
  (∀ p, usable st key p ->
        acq.1 = p ∧
        deref acq.2 p = set_usage_count (ulong_inc (usage_count (deref st p)))
                                        (deref st p) ∧
        (usage_count (deref st p) < ULONG_MOD - 1 ->
         usage_count (deref acq.2 p) = usage_count (deref st p) + 1) ∧
        (∀ q, q ≠ p -> mem acq.2 !! q = mem st !! q)) ∧
  ro.1 = acq.1 ∧ mem ro.2 = mem st ∧
  udf_hash acq.2 = udf_hash st ∧ udf_hash ro.2 = udf_hash st.
Proof.
  intros Hi key acq ro. subst acq ro key.
  rewrite !find_udf_result, !find_udf_mem, !find_udf_hash by done.
  unfold usable.
  split_and!.
  - intros p Hp0. split.
    + intros Hp. destruct (udf_hash st !! _) as [q|]; [|done].
      destruct (dlhandle (deref st q) =? 0) eqn:Hh; [done|]. subst.
      split; [done|]. by apply N.eqb_neq.
    + intros [-> Hh]. apply N.eqb_neq in Hh. by rewrite Hh.
  - by intros ->.
  - by intros p -> ->.
  - intros p [Hk Hh]. apply N.eqb_neq in Hh. split_and!.
    + by rewrite Hk, Hh.
    + unfold deref at 1. rewrite find_udf_mem, Hk, Hh by done; simpl.
      by rewrite lookup_insert_eq.
    + intros Hc. unfold deref at 1. rewrite find_udf_mem, Hk, Hh by done; simpl.
      rewrite lookup_insert_eq; simpl. by apply ulong_inc_small.
    + intros q Hq. rewrite Hk, Hh; simpl. by rewrite lookup_insert_ne.
  - done.
  - destruct (udf_hash st !! _) as [q|]; [|done].
    by rewrite orb_true_r.
  - done.
  - done.
Qed.

(** ** Symbol resolution: [init_syms] *)

Ltac simpl_deref :=
  unfold rwlock_lock, rwlock_unlock;
  repeat (rewrite ?deref_store_eq, ?deref_log, ?deref_set_lock,
            ?deref_set_udf_hash, ?deref_set_using, ?deref_set_mem_next; simpl).

(** Membership in an explicit list of events. *)
Ltac solve_elem :=
  repeat first [rewrite elem_of_app | rewrite elem_of_cons | rewrite elem_of_nil];
  intuition congruence.

Lemma init_syms_udf_hash (env : Env) (tmp : N) (st : udf_state) :
  udf_hash (init_syms env tmp st).2 = udf_hash st.
Proof.
  unfold init_syms.
  repeat (match goal with
          | |- context [if ?b then _ else _] => destruct b
          end; simpl; try reflexivity).
Qed.

Lemma init_syms_main_missing (env : Env) (tmp : N) (st : udf_state) :
  dlsym env (dlhandle (deref st tmp)) (name (deref st tmp)) = 0 ->
  init_syms env tmp st =
    (Some (name (deref st tmp)),
     store tmp (set_func 0 (deref st tmp))
           (log (EvDlsym (dlhandle (deref st tmp)) (name (deref st tmp))) st)).
Proof. intros H. unfold init_syms. rewrite H. reflexivity. Qed.

Lemma init_syms_clear_missing (env : Env) (tmp : N) (st : udf_state) :
  let u := deref st tmp in
  dlsym env (dlhandle u) (name u) ≠ 0 ->
  type u = UDFTYPE_AGGREGATE ->
  dlsym env (dlhandle u) (name u +:+ "_clear") = 0 ->
  (init_syms env tmp st).1 = Some (name u +:+ "_clear") ∧
  appended st (init_syms env tmp st).2
           [EvDlsym (dlhandle u) (name u +:+ "_clear");
            EvDlsym (dlhandle u) (name u)].
Proof.
  intros u Hm Ht Hc. subst u. unfold init_syms, appended.
  apply N.eqb_neq in Hm. rewrite Hm, Ht; simpl. rewrite Hc; simpl. done.
Qed.

Lemma init_syms_add_missing (env : Env) (tmp : N) (st : udf_state) :
  let u := deref st tmp in
  dlsym env (dlhandle u) (name u) ≠ 0 ->
  type u = UDFTYPE_AGGREGATE ->
  dlsym env (dlhandle u) (name u +:+ "_clear") ≠ 0 ->
  dlsym env (dlhandle u) (name u +:+ "_add") = 0 ->
  (init_syms env tmp st).1 = Some (name u +:+ "_add") ∧
  appended st (init_syms env tmp st).2
           [EvDlsym (dlhandle u) (name u +:+ "_add");
            EvDlsym (dlhandle u) (name u +:+ "_clear");
            EvDlsym (dlhandle u) (name u)].
Proof.
  intros u Hm Ht Hc Ha. subst u. unfold init_syms, appended.
  apply N.eqb_neq in Hm, Hc. rewrite Hm, Ht; simpl. rewrite Hc, Ha; simpl. done.
Qed.

(** The first symbol looked up is always the main entry point. *)
Lemma init_syms_main_first (env : Env) (tmp : N) (st : udf_state) :
  ∃ evs, appended st (init_syms env tmp st).2
                  (evs ++ [EvDlsym (dlhandle (deref st tmp)) (name (deref st tmp))]).
Proof.
  unfold init_syms, appended.
  repeat (match goal with
          | |- context [if ?b then _ else _] => destruct b
          end; simpl).
  all: try (by exists []).
  all: try (eexists [_]; reflexivity).
  all: try (eexists [_; _]; reflexivity).
  all: try (eexists [_; _; _]; reflexivity).
  all: try (eexists [_; _; _; _]; reflexivity).
  all: try (eexists [_; _; _; _; _]; reflexivity).
Qed.

Lemma find_udf_dl_ext (st st' : udf_state) (path : string) :
  mem st' = mem st -> udf_hash st' = udf_hash st ->
  find_udf_dl st' path = find_udf_dl st path.
Proof.
  intros Hm Hh. unfold find_udf_dl, dl_matches, deref. by rewrite Hm, Hh.
Qed.

Lemma rwlock_unlock_lock (st : udf_state) :
  rwlock_unlock (rwlock_lock st) = st.
Proof. by destruct st. Qed.

(** [mysql_create_function] once the checks have passed and the library
    has a handle. *)
Lemma mysql_create_function_opened (env : Env) (udf : N) (st : udf_state) :
  let u := deref st udf in
  initialized st = true ->
  check_valid_path env (dl u) = false ->
  check_string_char_length env (name u) = false ->
  open_tables_fails env = false ->
  udf_hash st !! name u = None ->
  create_handle env st (dl u) ≠ 0 ->
  mysql_create_function env udf st =
    if find_udf_dl st (dl u) =? 0
    then create_with_library env udf (dlopen env (dl u)) true
           (log (EvDlopen (dl u) (dlopen env (dl u))) st)
    else create_with_library env udf (find_udf_dl st (dl u)) false st.
Proof.
  intros u Hi Hp Hn Ho Hk Hh. unfold create_handle in Hh.
  unfold mysql_create_function. fold u. rewrite Hi, Hp, Hn, Ho; simpl.
  rewrite Hk.
  rewrite (find_udf_dl_ext st (rwlock_lock st)) by done.
  rewrite rwlock_unlock_lock.
  destruct (find_udf_dl st (dl u) =? 0) eqn:Hf; [|done].
  apply N.eqb_neq in Hh. by rewrite Hh.
Qed.

(** When [init_syms] names a missing symbol, the second half of
    [mysql_create_function] fails, reports the symbol and leaves the hash
    alone. *)
Lemma create_with_library_missing (env : Env) (udf : N) (dl1 : N)
                                  (new_dl : bool) (st : udf_state)
                                  (missing : string) :
  (init_syms env udf (store udf (set_dlhandle dl1 (deref st udf)) st)).1
  = Some missing ->
  let c := create_with_library env udf dl1 new_dl st in
  c.1 = true ∧ udf_hash c.2 = udf_hash st ∧
  EvMyError ER_CANT_FIND_DL_ENTRY missing ∈ trace c.2.
Proof.
  intros Hm c. subst c. unfold create_with_library.
  pose proof (init_syms_udf_hash env udf
                (store udf (set_dlhandle dl1 (deref st udf)) st)) as Hhash.
  destruct (init_syms env udf _) as [[m|] st2]; simpl in Hm; [|done].
  injection Hm as ->. simpl in *.
  destruct new_dl; simpl; split_and!; try done; solve_elem.
Qed.

(** C7. [init_syms] looks the main entry point up first; when it is
    absent the result names it and no other symbol has been looked up.
    For an aggregate whose main entry point resolves, a missing [_clear]
    makes the result name [name_clear], and a missing [_add] (with
    [_clear] present) makes it name [name_add]. A CREATE FUNCTION of an
    aggregate whose library lacks one of the two fails, reports the
    missing symbol and leaves the registry as it was, without an entry
    for the name. *)
Theorem init_syms_missing_symbol (env : Env) (udf : N) (st : udf_state) :
  let u := deref st udf in
  let h := dlhandle u in
  let r := init_syms env udf st in
  let lib := create_handle env st (dl u) in
  let c := mysql_create_function env udf st in
  (∃ evs, appended st r.2 (evs ++ [EvDlsym h (name u)])) ∧
  (dlsym env h (name u) = 0 ->
   r.1 = Some (name u) ∧ appended st r.2 [EvDlsym h (name u)]) ∧
  (type u = UDFTYPE_AGGREGATE -> dlsym env h (name u) ≠ 0 ->
   dlsym env h (name u +:+ "_clear") = 0 ->
   r.1 = Some (name u +:+ "_clear")) ∧
  (type u = UDFTYPE_AGGREGATE -> dlsym env h (name u) ≠ 0 ->
   dlsym env h (name u +:+ "_clear") ≠ 0 ->
   dlsym env h (name u +:+ "_add") = 0 ->
   r.1 = Some (name u +:+ "_add")) ∧
  (initialized st = true ->
   check_valid_path env (dl u) = false ->
   check_string_char_length env (name u) = false ->
   open_tables_fails env = false ->
   udf_hash st !! name u = None ->
   lib ≠ 0 ->
   type u = UDFTYPE_AGGREGATE -> dlsym env lib (name u) ≠ 0 ->
   dlsym env lib (name u +:+ "_clear") = 0
   ∨ dlsym env lib (name u +:+ "_add") = 0 ->
   c.1 = true ∧ udf_hash c.2 = udf_hash st ∧ udf_hash c.2 !! name u = None ∧
   ∃ sfx, sfx ∈ ["_clear"; "_add"] ∧
          EvMyError ER_CANT_FIND_DL_ENTRY (name u +:+ sfx) ∈ trace c.2).
Proof.
  intros u h r lib c. split_and!.
  - apply init_syms_main_first.
  - intros Hm. subst r. rewrite init_syms_main_missing by done. done.
  - intros Ht Hm Hc. by apply init_syms_clear_missing.
  - intros Ht Hm Hc Ha. by apply init_syms_add_missing.
  - intros Hi Hp Hn Ho Hk Hl Ht Hm Hmiss.
    subst c. rewrite mysql_create_function_opened by done.
    fold u. unfold create_handle in lib.
    assert (∀ new_dl st0,
              deref st0 udf = u -> udf_hash st0 = udf_hash st ->
              let c := create_with_library env udf lib new_dl st0 in
              c.1 = true ∧ udf_hash c.2 = udf_hash st ∧
              udf_hash c.2 !! name u = None ∧
              ∃ sfx, sfx ∈ ["_clear"; "_add"] ∧
                     EvMyError ER_CANT_FIND_DL_ENTRY (name u +:+ sfx)
                       ∈ trace c.2) as Hgen.
    { intros new_dl st0 Hd0 Hh0 c.
      set (st1 := store udf (set_dlhandle lib (deref st0 udf)) st0).
      assert (deref st1 udf = set_dlhandle lib u) as Hd
        by (subst st1; by rewrite deref_store_eq, Hd0).
      assert (∃ sfx, sfx ∈ ["_clear"; "_add"] ∧
                     (init_syms env udf st1).1 = Some (name u +:+ sfx))
        as (sfx & Hsfx & Hres).
      { destruct (N.eq_dec (dlsym env lib (name u +:+ "_clear")) 0) as [Hc|Hc].
        - exists "_clear". split; [solve_elem|].
          pose proof (init_syms_clear_missing env udf st1) as Hcm.
          rewrite Hd in Hcm. simpl in Hcm. apply Hcm; assumption.
        - destruct Hmiss as [Hc'|Ha]; [done|].
          exists "_add". split; [solve_elem|].
          pose proof (init_syms_add_missing env udf st1) as Ham.
          rewrite Hd in Ham. simpl in Ham. apply Ham; assumption. }
      destruct (create_with_library_missing env udf lib new_dl st0 _ Hres)
        as (Hc1 & Hc2 & Hc3).
      fold c in Hc1, Hc2, Hc3.
      split_and!; [done|by rewrite Hc2|by rewrite Hc2, Hh0|by exists sfx]. }
    subst lib. destruct (find_udf_dl st (dl u) =? 0); by apply Hgen.
Qed.

(** C8. For a function that is not an aggregate, whose main entry point
    resolves and whose library has neither [name_init] nor [name_deinit],
    [init_syms] fails (naming [name_init]) when
    [opt_allow_suspicious_udfs] is off, and succeeds after logging a
    warning when it is on. For an aggregate whose [_clear] and [_add]
    resolve the check is not applied: resolution succeeds whatever the
    flag, and the only events are the five symbol lookups. *)
Theorem init_syms_suspicious (env : Env) (udf : N) (st : udf_state) :
  let u := deref st udf in
  let h := dlhandle u in
  let r := init_syms env udf st in
  dlsym env h (name u) ≠ 0 ->
  dlsym env h (name u +:+ "_init") = 0 ->
  dlsym env h (name u +:+ "_deinit") = 0 ->
  (type u ≠ UDFTYPE_AGGREGATE -> opt_allow_suspicious_udfs env = false ->
   r.1 = Some (name u +:+ "_init") ∧
   appended st r.2 [EvDlsym h (name u +:+ "_init");
                    EvDlsym h (name u +:+ "_deinit");
                    EvDlsym h (name u)]) ∧
  (type u ≠ UDFTYPE_AGGREGATE -> opt_allow_suspicious_udfs env = true ->
   r.1 = None ∧
   appended st r.2 [EvLogErr WARNING_LEVEL ER_CANT_FIND_DL_ENTRY
                             (name u +:+ "_init");
                    EvDlsym h (name u +:+ "_init");
                    EvDlsym h (name u +:+ "_deinit");
                    EvDlsym h (name u)]) ∧
  (type u = UDFTYPE_AGGREGATE ->
   dlsym env h (name u +:+ "_clear") ≠ 0 ->
   dlsym env h (name u +:+ "_add") ≠ 0 ->
   r.1 = None ∧
   appended st r.2 [EvDlsym h (name u +:+ "_init");
                    EvDlsym h (name u +:+ "_deinit");
                    EvDlsym h (name u +:+ "_add");
                    EvDlsym h (name u +:+ "_clear");
                    EvDlsym h (name u)]).
Proof.
  intros u h r Hm Hin Hde. subst r h u.
  apply N.eqb_neq in Hm. unfold init_syms, appended. rewrite Hm.
  split_and!.
  - intros Ht Hf. apply N.eqb_neq in Ht. rewrite Ht; simpl.
    simpl_deref. rewrite Hin, Hde, Ht, Hf. done.
  - intros Ht Hf. apply N.eqb_neq in Ht. rewrite Ht; simpl.
    simpl_deref. rewrite Hin, Hde, Ht, Hf. done.
  - intros Ht Hc Ha. apply N.eqb_neq in Hc, Ha. rewrite Ht; simpl.
    rewrite Hc, Ha; simpl. simpl_deref. rewrite Hin, Hde, Ht. done.
Qed.

(** ** Removal from the registry: [udf_hash_delete] and [free_udf] *)

Lemma emplace_lookup_ne (k k' : string) (p : N) (h : gmap string N) :
  k ≠ k' -> emplace k p h !! k' = h !! k'.
Proof.
  intros Hne. unfold emplace. destruct (h !! k); [done|].
  by rewrite lookup_insert_ne.
Qed.

Lemma emplace_lookup_fresh (k : string) (p : N) (h : gmap string N) :
  h !! k = None -> emplace k p h !! k = Some p.
Proof. intros Hk. unfold emplace. rewrite Hk. by rewrite lookup_insert_eq. Qed.

(** [udf_hash_delete] on a descriptor registered under its name. *)
Lemma udf_hash_delete_registered (udf : N) (st : udf_state) (q : N) :
  udf_hash st !! name (deref st udf) = Some q ->
  let u := deref st udf in
  let c := ulong_dec (usage_count u) in
  udf_hash_delete udf st =
    set_lock (THR_LOCK_udf st)
      (if c =? 0 then
         set_using (hash_nonempty (delete (name u) (udf_hash st)))
           (set_udf_hash (delete (name u) (udf_hash st))
              (store udf (set_usage_count c u) st))
       else
         set_udf_hash (emplace (shadow_key udf) udf (delete (name u) (udf_hash st)))
           (store udf (set_usage_count c u) st)).
Proof.
  intros Hk u c. subst c u. unfold udf_hash_delete. simpl.
  change (deref (rwlock_lock st) udf) with (deref st udf). rewrite Hk.
  rewrite !deref_store_eq. simpl.
  destruct (_ =? 0); reflexivity.
Qed.

(** [udf_hash_delete] on a descriptor whose name is not a key. *)
Lemma udf_hash_delete_unregistered (udf : N) (st : udf_state) :
  udf_hash st !! name (deref st udf) = None ->
  udf_hash_delete udf st = log EvAssert (rwlock_lock st).
Proof.
  intros Hk. unfold udf_hash_delete. simpl.
  change (deref (rwlock_lock st) udf) with (deref st udf). by rewrite Hk.
Qed.

(** After [udf_hash_delete] the name is no longer a key, unless the name
    is the very key the descriptor is renamed to. *)
Lemma udf_hash_delete_lookup (udf : N) (st : udf_state) (q : N) :
  udf_hash st !! name (deref st udf) = Some q ->
  name (deref st udf) ≠ shadow_key udf ->
  udf_hash (udf_hash_delete udf st) !! name (deref st udf) = None.
Proof.
  intros Hk Hne. rewrite (udf_hash_delete_registered _ _ _ Hk).
  destruct (_ =? 0); simpl.
  - by rewrite lookup_delete_eq.
  - rewrite emplace_lookup_ne by done. by rewrite lookup_delete_eq.
Qed.

(** [udf_hash_delete] on a registered descriptor that callers still hold:
    the count drops by one, the key becomes [shadow_key], nothing else
    changes. *)
Lemma udf_hash_delete_renamed (st : udf_state) (p q : N) :
  udf_hash st !! name (deref st p) = Some q ->
  1 < usage_count (deref st p) < ULONG_MOD ->
  let st' := udf_hash_delete p st in
  deref st' p = set_usage_count (usage_count (deref st p) - 1) (deref st p) ∧
  trace st' = trace st ∧
  initialized st' = initialized st ∧
  THR_LOCK_udf st' = THR_LOCK_udf st ∧
  udf_hash st' = emplace (shadow_key p) p (delete (name (deref st p)) (udf_hash st)).
Proof.
  intros Hk [Hc1 Hc2] st'. subst st'.
  rewrite (udf_hash_delete_registered _ _ _ Hk).
  rewrite ulong_dec_pos by lia.
  assert ((usage_count (deref st p) - 1 =? 0) = false) as ->
    by (apply N.eqb_neq; lia).
  rewrite deref_set_lock, deref_set_udf_hash, deref_store_eq. done.
Qed.

(** A release that leaves holders behind only decrements the count. *)
Lemma free_udf_dec (udf : N) (st : udf_state) :
  initialized st = true ->
  ulong_dec (usage_count (deref st udf)) ≠ 0 ->
  free_udf udf st =
    set_lock (THR_LOCK_udf st)
      (store udf (set_usage_count (ulong_dec (usage_count (deref st udf)))
                                  (deref st udf)) st).
Proof.
  intros Hi Hc. unfold free_udf. rewrite Hi. simpl.
  change (deref (rwlock_lock st) udf) with (deref st udf).
  apply N.eqb_neq in Hc. rewrite Hc. reflexivity.
Qed.

(** The release that brings the count to [0], when the name of the
    descriptor is not a key of the hash. *)
Lemma free_udf_last_unregistered (udf : N) (st : udf_state) :
  initialized st = true ->
  ulong_dec (usage_count (deref st udf)) = 0 ->
  udf_hash st !! name (deref st udf) = None ->
  free_udf udf st =
    log EvAssert
      (rwlock_lock (store udf (set_usage_count 0 (deref st udf)) st)).
Proof.
  intros Hi Hc Hk. unfold free_udf. rewrite Hi. simpl.
  change (deref (rwlock_lock st) udf) with (deref st udf).
  rewrite Hc. simpl. rewrite deref_store_eq. simpl. rewrite Hk. reflexivity.
Qed.

(** Lookups and releases never add a key to the hash. *)
Lemma free_udf_lookup_None (udf : N) (st : udf_state) (k : string) :
  udf_hash st !! k = None -> udf_hash (free_udf udf st) !! k = None.
Proof.
  intros Hk. unfold free_udf. destruct (initialized st); simpl; [|done].
  change (deref (rwlock_lock st) udf) with (deref st udf).
  destruct (_ =? 0); simpl; [|done].
  rewrite !deref_store_eq; simpl.
  destruct (udf_hash st !! name (deref st udf)); simpl; [|done].
  destruct (find_udf_dl _ _ =? 0); simpl.
  all: destruct (decide (name (deref st udf) = k)) as [->|];
    by rewrite ?lookup_delete_eq, ?lookup_delete_ne.
Qed.

Lemma run_client_lookup_None (ops : list client_op) (st : udf_state) (k : string) :
  udf_hash st !! k = None -> udf_hash (fold_left run_client ops st) !! k = None.
Proof.
  revert st. induction ops as [|o ops IH]; intros st Hk; [done|].
  simpl. apply IH. destruct o as [nm len m|q]; simpl.
  - by rewrite find_udf_hash.
  - by apply free_udf_lookup_None.
Qed.

Lemma find_udf_None (nm : string) (len : nat) (mark : bool) (st : udf_state) :
  udf_hash st !! find_key nm len = None -> (find_udf nm len mark st).1 = 0.
Proof.
  intros Hk. unfold find_udf. destruct (initialized st); [|done].
  simpl. by rewrite Hk.
Qed.

(** What [udf_hash_delete] achieves off the collision of keys. Let [f] be
    registered for the descriptor [p], and let [f] differ from the key
    [shadow_key p] that [p] is renamed to. After [udf_hash_delete] has
    returned, every lookup of [f], with or without [mark_used], that
    follows any sequence of lookups and releases returns nothing. A
    caller that had acquired [p] (so that its [usage_count] was above 1)
    still holds a valid descriptor: the object is unchanged apart from
    the count, which has dropped by one and is still positive, no library
    was closed, and [p] stays registered under [shadow_key p] when that
    key was free. *)
Lemma udf_hash_delete_hides_name (st : udf_state) (f : string) (p : N) :
  udf_hash st !! f = Some p ->
  name (deref st p) = f ->
  f ≠ shadow_key p ->
  let st' := udf_hash_delete p st in
  (∀ ops nm len mark,
     find_key nm len = f ->
     (find_udf nm len mark (fold_left run_client ops st')).1 = 0) ∧
  (1 < usage_count (deref st p) < ULONG_MOD ->
   deref st' p = set_usage_count (usage_count (deref st p) - 1) (deref st p) ∧
   0 < usage_count (deref st' p) ∧
   dlhandle (deref st' p) = dlhandle (deref st p) ∧
   trace st' = trace st ∧
   (udf_hash st !! shadow_key p = None ->
    udf_hash st' !! shadow_key p = Some p)).
Proof.
  intros Hk Hn Hne st'. subst st'. rewrite <- Hn in Hk, Hne. split.
  - intros ops nm len mark Hkey. apply find_udf_None.
    apply run_client_lookup_None. rewrite Hkey, <- Hn.
    by eapply udf_hash_delete_lookup.
  - intros Hc.
    destruct (udf_hash_delete_renamed st p p Hk Hc) as (Hd & Ht & _ & _ & Hh).
    rewrite Hd, Hh. simpl. split_and!; [done|lia|done|done|].
    intros Hs. apply emplace_lookup_fresh. by rewrite lookup_delete_ne.
Qed.

(** C2, as the code behaves when the name of a function is the very key
    its descriptor is renamed to. Let [f] be registered for the
    descriptor [p], usable and held by a caller, and let [shadow_key p]
    be [f]. [udf_hash_delete] erases the key and inserts it again: [f] is
    still a key for [p], and every lookup of [f] that follows, with or
    without [mark_used], hands [p] out. *)
Theorem udf_hash_delete_key_collision (st : udf_state) (f : string) (p : N) :
  initialized st = true ->
  udf_hash st !! f = Some p ->
  name (deref st p) = f ->
  shadow_key p = f ->
  1 < usage_count (deref st p) < ULONG_MOD ->
  dlhandle (deref st p) ≠ 0 ->
  let st' := udf_hash_delete p st in
  udf_hash st' !! f = Some p ∧
  ∀ nm len mark, find_key nm len = f -> (find_udf nm len mark st').1 = p.
Proof.
  intros Hi Hk Hn Hs Hc Hh st'. subst st'. rewrite <- Hn in Hk.
  destruct (udf_hash_delete_renamed st p p Hk Hc) as (Hd & _ & Hi' & _ & Hh').
  assert (udf_hash (udf_hash_delete p st) !! f = Some p) as Hkey.
  { rewrite Hh', Hs, Hn. apply emplace_lookup_fresh. apply lookup_delete_eq. }
  split; [done|].
  intros nm len mark Hkey'. rewrite find_udf_result by congruence.
  rewrite Hkey', Hkey, Hd. simpl.
  apply N.eqb_neq in Hh. by rewrite Hh.
Qed.

Lemma free_udf_iter (p : N) (k : nat) (s : udf_state) :
  initialized s = true ->
  N.of_nat k < usage_count (deref s p) < ULONG_MOD ->
  let s' := Nat.iter k (free_udf p) s in
  initialized s' = true ∧ udf_hash s' = udf_hash s ∧ trace s' = trace s ∧
  THR_LOCK_udf s' = THR_LOCK_udf s ∧
  deref s' p = set_usage_count (usage_count (deref s p) - N.of_nat k) (deref s p).
Proof.
  intros Hi. induction k as [|k IH]; intros Hc; simpl.
  - split_and!; try done. rewrite N.sub_0_r. by destruct (deref s p).
  - destruct IH as (IH1 & IH2 & IH3 & IH4 & IH5); [lia|].
    set (s1 := Nat.iter k (free_udf p) s) in *.
    assert (ulong_dec (usage_count (deref s1 p))
            = usage_count (deref s p) - N.of_nat (S k)) as Hdec.
    { rewrite IH5; simpl. rewrite ulong_dec_pos by lia. lia. }
    rewrite free_udf_dec by (try done; rewrite Hdec; lia).
    split_and!; [by simpl|by simpl|by simpl|by simpl|].
    rewrite deref_set_lock, deref_store_eq, Hdec, IH5. reflexivity.
Qed.

(** C1, as the code behaves. Let [p] be registered under its name [f] and
    held by [n + 1] callers (so its [usage_count] is [n + 2]), and let
    [udf_hash_delete] rename it. Each of the [n + 1] releases that follow
    decrements the [usage_count] of [p] by one, down to 0. But the last
    release, the one that reaches 0, looks [p] up under its name, which is
    no longer a key: the source's [DBUG_ASSERT(false)] branch is taken,
    [p] stays in the hash under [shadow_key p], no library is closed, and
    the lock is still held on return. *)
Theorem free_udf_after_rename (st : udf_state) (f : string) (p : N) (n : nat) :
  initialized st = true ->
  udf_hash st !! f = Some p ->
  name (deref st p) = f ->
  f ≠ shadow_key p ->
  udf_hash st !! shadow_key p = None ->
  usage_count (deref st p) = N.of_nat n + 2 ->
  N.of_nat n + 2 < ULONG_MOD ->
  let st1 := udf_hash_delete p st in
  let st2 := Nat.iter (S n) (free_udf p) st1 in
  (∀ k, (k <= S n)%nat ->
        usage_count (deref (Nat.iter k (free_udf p) st1) p)
        = N.of_nat (S n - k)) ∧
  udf_hash st2 !! shadow_key p = Some p ∧
  udf_hash st2 = udf_hash st1 ∧
  trace st2 = EvAssert :: trace st ∧
  THR_LOCK_udf st2 = S (THR_LOCK_udf st).
Proof.
  intros Hi Hk Hn Hne Hs Hc Hlt st1 st2.
  assert (udf_hash st !! name (deref st p) = Some p) as Hk' by (by rewrite Hn).
  destruct (udf_hash_delete_renamed st p p Hk') as (Hd & Ht & Hi1 & Hl1 & Hh);
    [lia|].
  fold st1 in Hd, Ht, Hi1, Hl1, Hh. rewrite Hi in Hi1.
  assert (udf_hash st1 !! shadow_key p = Some p) as Hsh.
  { rewrite Hh. apply emplace_lookup_fresh. rewrite Hn.
    by rewrite lookup_delete_ne. }
  assert (udf_hash st1 !! f = None) as Hf1.
  { subst st1. rewrite <- Hn in *. by eapply udf_hash_delete_lookup. }
  assert (usage_count (deref st1 p) = N.of_nat (S n)) as Hc1.
  { rewrite Hd; simpl. lia. }
  assert (name (deref st1 p) = f) as Hn1 by (by rewrite Hd).
  assert (∀ k, (k <= n)%nat ->
            let s := Nat.iter k (free_udf p) st1 in
            initialized s = true ∧ udf_hash s = udf_hash st1 ∧
            trace s = trace st1 ∧ THR_LOCK_udf s = THR_LOCK_udf st1 ∧
            name (deref s p) = f ∧
            usage_count (deref s p) = N.of_nat (S n - k)) as Hiter.
  { intros k Hle s.
    destruct (free_udf_iter p k st1 Hi1) as (H1 & H2 & H3 & H4 & H5); [lia|].
    fold s in H1, H2, H3, H4, H5.
    split_and!; try done; rewrite H5; simpl; [done|lia]. }
  destruct (Hiter n (Nat.le_refl n)) as (H1 & H2 & H3 & H4 & H5 & H6).
  assert (st2 = log EvAssert (rwlock_lock
            (store p (set_usage_count 0 (deref (Nat.iter n (free_udf p) st1) p))
                   (Nat.iter n (free_udf p) st1)))) as Hst2.
  { subst st2. simpl. apply free_udf_last_unregistered; [done| |].
    - rewrite H6. replace (S n - n)%nat with 1%nat by lia. reflexivity.
    - by rewrite H5, H2. }
  split_and!.
  - intros k Hle. destruct (decide (k = S n)) as [->|Hkn].
    + fold st2. rewrite Hst2. replace (S n - S n)%nat with 0%nat by lia.
      simpl_deref. reflexivity.
    + apply Hiter. lia.
  - rewrite Hst2. simpl. by rewrite H2.
  - rewrite Hst2. simpl. done.
  - rewrite Hst2. simpl. by rewrite H3, Ht.
  - rewrite Hst2. simpl. by rewrite H4, Hl1.
Qed.

(** ** The end of the statement: [udf_end_transaction] *)

Lemma udf_hash_delete_trace (udf : N) (st : udf_state) (q : N) :
  udf_hash st !! name (deref st udf) = Some q ->
  trace (udf_hash_delete udf st) = trace st.
Proof.
  intros Hk. rewrite (udf_hash_delete_registered _ _ _ Hk).
  by destruct (_ =? 0).
Qed.

Lemma udf_hash_delete_last (udf : N) (st : udf_state) (q : N) :
  udf_hash st !! name (deref st udf) = Some q ->
  usage_count (deref st udf) = 1 ->
  udf_hash (udf_hash_delete udf st) = delete (name (deref st udf)) (udf_hash st).
Proof.
  intros Hk Hc. rewrite (udf_hash_delete_registered _ _ _ Hk).
  rewrite Hc. reflexivity.
Qed.

(** With [insert_udf] false the descriptor is taken out of the hash
    whether the statement is committed or rolled back. *)
Lemma udf_end_transaction_drop (env : Env) (rb : bool) (udf : N) (st : udf_state) :
  udf_end_transaction env rb udf false st =
    let st1 := udf_hash_delete udf st in
    let r := if transaction_rollback_request env || rb
             then trans_rollback env st1 else trans_commit env st1 in
    (r.1 || rb, r.2).
Proof.
  unfold udf_end_transaction. rewrite !andb_false_r. simpl.
  rewrite orb_false_r.
  destruct (transaction_rollback_request env || rb);
    [destruct (trans_rollback env _)|destruct (trans_commit env _)];
    simpl; by rewrite orb_false_r.
Qed.

Lemma trans_rollback_frame (env : Env) (st : udf_state) :
  udf_hash (trans_rollback env st).2 = udf_hash st ∧
  mem (trans_rollback env st).2 = mem st ∧
  mem_next (trans_rollback env st).2 = mem_next st ∧
  ∃ evs, appended st (trans_rollback env st).2 evs ∧
         EvRollbackStmt ∈ evs ∧
         Forall (λ e, e ∈ [EvRollbackStmt; EvRollbackImplicit]) evs.
Proof.
  unfold trans_rollback, appended. destruct (trans_rollback_stmt env); simpl.
  - split_and!; try done. exists [EvRollbackStmt].
    split_and!; [done|solve_elem|]. repeat constructor.
  - split_and!; try done. exists [EvRollbackImplicit; EvRollbackStmt].
    split_and!; [done|solve_elem|].
    repeat (constructor; [solve_elem|]). constructor.
Qed.

Lemma trans_commit_frame (env : Env) (st : udf_state) :
  udf_hash (trans_commit env st).2 = udf_hash st ∧
  mem (trans_commit env st).2 = mem st ∧
  mem_next (trans_commit env st).2 = mem_next st ∧
  (trans_commit env st).1
  = (if trans_commit_stmt env then true else trans_commit_implicit env) ∧
  ∃ evs, appended st (trans_commit env st).2 evs ∧
         EvCommitStmt ∈ evs ∧
         Forall (λ e, e ∈ [EvCommitStmt; EvCommitImplicit]) evs.
Proof.
  unfold trans_commit, appended. destruct (trans_commit_stmt env); simpl.
  - split_and!; try done. exists [EvCommitStmt].
    split_and!; [done|solve_elem|]. repeat constructor.
  - split_and!; try done. exists [EvCommitImplicit; EvCommitStmt].
    split_and!; [done|solve_elem|].
    repeat (constructor; [solve_elem|]). constructor.
Qed.

(** ** DROP FUNCTION *)

(** [mysql_drop_function] on a registered name, up to the call of
    [udf_end_transaction]: the row is deleted and the statement logged;
    [error] tells whether one of the two failed. *)
Lemma mysql_drop_function_found (env : Env) (nm : string) (st : udf_state) (p : N) :
  initialized st = true ->
  open_tables_fails env = false ->
  udf_hash st !! nm = Some p ->
  ∃ evs0 st0,
    st0 = mk_state (initialized st) (mem st) (mem_next st) (udf_hash st)
                   (using_udf_functions st) (THR_LOCK_udf st)
                   (evs0 ++ trace st) ∧
    Forall (λ e, e ∈ [EvDeleteRow (name (deref st p)); EvPrintError; EvBinlog])
           evs0 ∧
    let error := ha_index_read_fails env || ha_delete_row_fails env
                 || write_bin_log_fails env in
    let t := udf_end_transaction env error p false st0 in
    mysql_drop_function env nm st =
      (t.1,
       if negb (dlhandle (deref t.2 p) =? 0)
          && (find_udf_dl t.2 (dl (deref t.2 p)) =? 0)
       then log (EvDlclose (dlhandle (deref t.2 p))) t.2 else t.2).
Proof.
  intros Hi Ho Hk. unfold mysql_drop_function. rewrite Hi, Ho. simpl.
  rewrite Hk.
  change (deref (rwlock_unlock (rwlock_lock st)) p) with (deref st p).
  destruct st as [i m nx h us lk tr]. simpl in *. subst i.
  unfold rwlock_unlock, rwlock_lock, set_lock, log. simpl.
  destruct (ha_index_read_fails env); simpl.
  - exists [], (mk_state true m nx h us lk tr). split_and!; [done|constructor|].
    simpl. by destruct (udf_end_transaction _ _ _ _ _).
  - set (u := deref (mk_state true m nx h us lk tr) p).
    destruct (ha_delete_row_fails env); simpl.
    + exists [EvPrintError; EvDeleteRow (name u)], 
        (mk_state true m nx h us lk
                  ([EvPrintError; EvDeleteRow (name u)] ++ tr)).
      split_and!; [reflexivity| |].
      { repeat (constructor; [solve_elem|]). constructor. }
      simpl. by destruct (udf_end_transaction _ _ _ _ _).
    + exists [EvBinlog; EvDeleteRow (name u)], 
        (mk_state true m nx h us lk
                  ([EvBinlog; EvDeleteRow (name u)] ++ tr)).
      split_and!; [reflexivity| |].
      { repeat (constructor; [solve_elem|]). constructor. }
      simpl. by destruct (udf_end_transaction _ _ _ _ _).
Qed.

(** C3, as the code behaves. When the row of a registered function cannot
    be found or deleted, or the statement cannot be logged, DROP FUNCTION
    reports the error and rolls the transaction back, and nothing is
    committed; but [udf_end_transaction] has called [udf_hash_delete] all
    the same, so the name is no longer in the registry (with no caller
    holding the descriptor, its entry is erased). *)
Theorem mysql_drop_function_failure (env : Env) (nm : string) (st : udf_state)
                                    (p : N) :
  initialized st = true ->
  open_tables_fails env = false ->
  udf_hash st !! nm = Some p ->
  name (deref st p) = nm ->
  nm ≠ shadow_key p ->
  ha_index_read_fails env || ha_delete_row_fails env
    || write_bin_log_fails env = true ->
  let r := mysql_drop_function env nm st in
  r.1 = true ∧
  (∃ evs, appended st r.2 evs ∧ EvRollbackStmt ∈ evs ∧ EvCommitStmt ∉ evs) ∧
  udf_hash r.2 !! nm = None ∧
  (usage_count (deref st p) = 1 -> udf_hash r.2 = delete nm (udf_hash st)).
Proof.
  intros Hi Ho Hk Hn Hne Hfail r. subst r.
  destruct (mysql_drop_function_found env nm st p Hi Ho Hk)
    as (evs0 & st0 & Hst0 & Hev0 & Heq).
  simpl in Heq. rewrite Hfail, udf_end_transaction_drop, orb_true_r in Heq.
  simpl in Heq. rewrite Heq. clear Heq.
  assert (udf_hash st0 = udf_hash st) as Hh0 by (by subst st0).
  assert (deref st0 p = deref st p) as Hd0 by (by subst st0).
  assert (trace st0 = evs0 ++ trace st) as Ht0 by (by subst st0).
  assert (udf_hash st0 !! name (deref st0 p) = Some p) as Hk0
    by (by rewrite Hd0, Hh0, Hn).
  set (st1 := udf_hash_delete p st0).
  destruct (trans_rollback_frame env st1) as (Hh & _ & _ & evs1 & Happ & Hin & Hall).
  set (t2 := (trans_rollback env st1).2) in *.
  assert (trace st1 = evs0 ++ trace st) as Ht1.
  { subst st1. by rewrite (udf_hash_delete_trace _ _ _ Hk0). }
  rewrite Forall_forall in Hall, Hev0.
  split_and!.
  - simpl. apply orb_true_r.
  - simpl. unfold appended in *. destruct (_ && _); simpl.
    + exists (EvDlclose (dlhandle (deref t2 p)) :: evs1 ++ evs0).
      rewrite Happ, Ht1.
      split_and!; [by simpl; rewrite <- ?app_assoc|solve_elem|].
      rewrite elem_of_cons, elem_of_app.
      intros [Hc|[Hc|Hc]]; [done| |].
      * apply Hall in Hc. revert Hc. solve_elem.
      * apply Hev0 in Hc. revert Hc. solve_elem.
    + exists (evs1 ++ evs0).
      rewrite Happ, Ht1.
      split_and!; [by simpl; rewrite <- ?app_assoc|solve_elem|].
      rewrite elem_of_app.
      intros [Hc|Hc].
      * apply Hall in Hc. revert Hc. solve_elem.
      * apply Hev0 in Hc. revert Hc. solve_elem.
  - simpl. assert (udf_hash st1 !! nm = None) as Hnone.
    { subst st1. rewrite <- Hn, <- Hd0. apply (udf_hash_delete_lookup _ _ p Hk0).
      by rewrite Hd0, Hn. }
    destruct (_ && _); simpl; by rewrite Hh.
  - intros Hc. simpl.
    assert (udf_hash st1 = delete nm (udf_hash st)) as Hdel.
    { subst st1. rewrite (udf_hash_delete_last _ _ p Hk0) by (by rewrite Hd0).
      by rewrite Hd0, Hn, Hh0. }
    destruct (_ && _); simpl; by rewrite Hh.
Qed.

(** ** Insertion: [add_udf] *)

Lemma add_udf_cases (env : Env) (nm : string) (ret : N) (path : string)
                    (typ : N) (st : udf_state) :
  let r := add_udf env nm ret path typ st in
  trace r.2 = trace st ∧ initialized r.2 = initialized st ∧
  THR_LOCK_udf r.2 = THR_LOCK_udf st ∧ mem_next st <= mem_next r.2 ∧
  ((r.1 = 0 ∧ udf_hash r.2 = udf_hash st ∧ mem r.2 = mem st)
   ∨ (r.1 = mem_next st ∧ mem_next st ≠ 0 ∧
      (typ = UDFTYPE_FUNCTION ∨ typ = UDFTYPE_AGGREGATE) ∧
      alloc_root_fails env = false ∧
      udf_hash r.2 = emplace nm (mem_next st) (udf_hash st) ∧
      mem r.2 = <[mem_next st := mk_udf_func nm ret typ path 0 0 0 0 0 0 1]>
                  (mem st) ∧
      mem_next r.2 = mem_next st + 1)).
Proof.
  unfold add_udf, alloc_root, UDFTYPE_FUNCTION, UDFTYPE_AGGREGATE.
  destruct (typ =? 0) eqn:Ht0; simpl.
  { split_and!; try done. by left. }
  destruct (2 <? typ) eqn:Ht2; simpl.
  { split_and!; try done. by left. }
  apply N.eqb_neq in Ht0. apply N.ltb_ge in Ht2.
  destruct (alloc_root_fails env); simpl.
  { split_and!; try done. by left. }
  destruct (mem_next st =? 0) eqn:Hnx; simpl.
  { split_and!; try done; [lia|by left]. }
  apply N.eqb_neq in Hnx.
  split_and!; try done; [lia|]. right.
  split_and!; try done; [lia|].
  unfold deref; simpl. by rewrite lookup_insert_eq.
Qed.

(** [add_udf] on a name that is not a key, with a valid type and a
    successful allocation: the new descriptor is registered under its own
    name with a [usage_count] of 1. *)
Lemma add_udf_fresh (env : Env) (nm : string) (ret : N) (path : string)
                    (typ : N) (st : udf_state) :
  udf_hash st !! nm = None ->
  typ = UDFTYPE_FUNCTION ∨ typ = UDFTYPE_AGGREGATE ->
  alloc_root_fails env = false ->
  mem_next st ≠ 0 ->
  let r := add_udf env nm ret path typ st in
  r.1 = mem_next st ∧
  udf_hash r.2 = <[nm := r.1]> (udf_hash st) ∧
  deref r.2 r.1 = mk_udf_func nm ret typ path 0 0 0 0 0 0 1 ∧
  (∀ q, q ≠ r.1 -> mem r.2 !! q = mem st !! q) ∧
  trace r.2 = trace st.
Proof.
  intros Hk Ht Ha Hnx r.
  destruct (add_udf_cases env nm ret path typ st)
    as (Htr & _ & _ & _ & [(H0 & _)|(H1 & _ & _ & _ & H2 & H3 & _)]).
  - exfalso. revert H0. unfold add_udf, alloc_root.
    rewrite Ha. unfold UDFTYPE_FUNCTION, UDFTYPE_AGGREGATE in *.
    assert ((typ =? 0) = false) as -> by (apply N.eqb_neq; lia).
    assert ((2 <? typ) = false) as -> by (apply N.ltb_ge; lia).
    simpl. apply N.eqb_neq in Hnx. rewrite Hnx. simpl. by apply N.eqb_neq.
  - fold r in Htr, H1, H2, H3. rewrite H1. split_and!; try done.
    + rewrite H2. unfold emplace. by rewrite Hk.
    + unfold deref. rewrite H3. by rewrite lookup_insert_eq.
    + intros q Hq. rewrite H3. by rewrite lookup_insert_ne.
Qed.

(** [udf_end_transaction] at the end of CREATE FUNCTION, for a function
    whose name is not a key: either the statement is rolled back, the
    result is an error and the hash is as it was; or the descriptor is
    inserted and the commit is attempted, the result being the outcome of
    the commit. *)
Lemma udf_end_transaction_insert (env : Env) (rb : bool) (udf : N)
                                 (st : udf_state) :
  udf_hash st !! name (deref st udf) = None ->
  let u := deref st udf in
  let r := udf_end_transaction env rb udf true st in
  ∃ evs, appended st r.2 evs ∧
    ((r.1 = true ∧ udf_hash r.2 = udf_hash st ∧ mem r.2 = mem st ∧
      mem_next st <= mem_next r.2 ∧ EvRollbackStmt ∈ evs ∧
      Forall (λ e, e ∈ [EvAssert; EvRollbackStmt; EvRollbackImplicit]) evs)
     ∨ (rb = false ∧ transaction_rollback_request env = false ∧
        r.1 = (if trans_commit_stmt env then true else trans_commit_implicit env) ∧
        udf_hash r.2 = <[name u := mem_next st]> (udf_hash st) ∧
        deref r.2 (mem_next st)
        = mk_udf_func (name u) (returns u) (type u) (dl u) (dlhandle u) (func u)
                      (func_init u) (func_deinit u) (func_clear u) (func_add u) 1 ∧
        mem_next st ≠ 0 ∧
        (∀ q, q ≠ mem_next st -> mem r.2 !! q = mem st !! q) ∧
        mem_next r.2 = mem_next st + 1 ∧
        EvCommitStmt ∈ evs ∧
        Forall (λ e, e ∈ [EvCommitStmt; EvCommitImplicit]) evs)).
Proof.
  intros Hk u r. subst r. unfold udf_end_transaction.
  destruct (transaction_rollback_request env || rb) eqn:Hrb; simpl.
  - rewrite (udf_hash_delete_unregistered _ _ Hk).
    destruct (trans_rollback_frame env (log EvAssert (rwlock_lock st)))
      as (Hh & Hm & Hn & evs & Happ & Hin & Hall).
    destruct (trans_rollback env _) as [res st2]. simpl in *.
    exists (evs ++ [EvAssert]). unfold appended in *. split.
    { rewrite Happ. simpl. by rewrite <- app_assoc. }
    left. split_and!; [apply orb_true_r|done|done|lia|solve_elem|].
    apply Forall_app. split.
    + eapply Forall_impl; [exact Hall|]. intros e. simpl. solve_elem.
    + repeat constructor.
  - apply orb_false_iff in Hrb as [Htrr ->].
    fold u.
    pose proof (add_udf_cases env (name u) (returns u) (dl u) (type u) st)
      as (Htr & _ & _ & Hle & Hcases).
    destruct (add_udf env (name u) (returns u) (dl u) (type u) st)
      as [u_f st1]. simpl in Htr, Hcases, Hle.
    destruct Hcases as [(-> & Hh1 & Hm1)|(-> & Hnx & _ & _ & Hh1 & Hm1 & Hn1)].
    + simpl.
      destruct (trans_rollback_frame env st1)
        as (Hh & Hm & Hn & evs & Happ & Hin & Hall).
      destruct (trans_rollback env st1) as [res st2]. simpl in *.
      exists evs. unfold appended in *. split; [by rewrite Happ, Htr|].
      left. split_and!;
        [apply orb_true_r|by rewrite Hh|by rewrite Hm|by rewrite Hn|done|].
      eapply Forall_impl; [exact Hall|]. intros e. simpl. solve_elem.
    + assert ((mem_next st =? 0) = false) as Hnx' by (by apply N.eqb_neq).
      rewrite Hnx'. simpl.
      set (st2 := store _ _ (store _ _ (store _ _ (store _ _
                    (store _ _ (store _ _ st1)))))).
      destruct (trans_commit_frame env st2)
        as (Hh & Hm & Hn & Hres & evs & Happ & Hin & Hall).
      destruct (trans_commit env st2) as [res st3]. simpl in *.
      rewrite !Hnx'. simpl.
      exists evs. unfold appended in *. split; [by rewrite Happ, <- Htr|].
      right. split_and!; try done.
      * by rewrite !orb_false_r.
      * rewrite Hh, Hh1. unfold emplace. fold u in Hk. by rewrite Hk.
      * unfold deref at 1. rewrite Hm, lookup_insert_eq. simpl.
        simpl_deref.
        unfold deref. rewrite Hm1, lookup_insert_eq. reflexivity.
      * intros q Hq. rewrite Hm.
        rewrite !lookup_insert_ne by done. rewrite Hm1.
        by rewrite lookup_insert_ne.
      * by rewrite Hn.
Qed.

(** ** CREATE FUNCTION *)

(** [init_syms] writes the entry points of [tmp] and nothing else. *)
Lemma init_syms_frame (env : Env) (tmp : N) (st : udf_state) :
  let r := init_syms env tmp st in
  udf_hash r.2 = udf_hash st ∧ mem_next r.2 = mem_next st ∧
  initialized r.2 = initialized st ∧ THR_LOCK_udf r.2 = THR_LOCK_udf st ∧
  (∀ q, q ≠ tmp -> mem r.2 !! q = mem st !! q) ∧
  same_identity (deref st tmp) (deref r.2 tmp) ∧
  ∃ evs, appended st r.2 evs ∧ Forall resolution_event evs.
Proof.
  unfold init_syms, same_identity, appended.
  repeat (match goal with
          | |- context [if ?b then _ else _] => destruct b
          end; simpl).
  all: split_and!; try done.
  all: try (intros q Hq; simpl; by rewrite !lookup_insert_ne by done).
  all: try (by simpl_deref).
  all: try (by eexists [_]; split; [reflexivity|repeat constructor]).
  all: try (by eexists [_; _]; split; [reflexivity|repeat constructor]).
  all: try (by eexists [_; _; _]; split; [reflexivity|repeat constructor]).
  all: try (by eexists [_; _; _; _]; split; [reflexivity|repeat constructor]).
  all: try (by eexists [_; _; _; _; _]; split; [reflexivity|repeat constructor]).
  all: try (by eexists [_; _; _; _; _; _]; split; [reflexivity|repeat constructor]).
Qed.

Lemma write_func_row_frame (env : Env) (nm : string) (st : udf_state) :
  let r := write_func_row env nm st in
  udf_hash r.2 = udf_hash st ∧ mem r.2 = mem st ∧ mem_next r.2 = mem_next st ∧
  ∃ evs, appended st r.2 evs ∧ EvWriteRow nm ∈ evs ∧
         ∀ e, e ∈ evs -> e = EvBinlog ∨ e = EvWriteRow nm.
Proof.
  unfold write_func_row, appended.
  destruct (ha_write_row_fails env); simpl; split_and!; try done.
  - exists [EvWriteRow nm]. split_and!; [done|solve_elem|].
    intros e. solve_elem.
  - exists [EvBinlog; EvWriteRow nm]. split_and!; [done|solve_elem|].
    intros e. solve_elem.
Qed.

(** Case analysis on the membership hypotheses of the context. *)
Ltac elem_cases :=
  repeat match goal with
    | H : _ ∈ _ ++ _ |- _ => apply elem_of_app in H as [H|H]
    | H : _ ∈ _ :: _ |- _ => apply elem_of_cons in H as [H|H]
    | H : _ ∈ [] |- _ => by apply elem_of_nil in H
    | H : ?e ∈ ?l, HF : ∀ x, x ∈ ?l -> _ |- _ => apply HF in H; simpl in H
    | H : _ = _ ∨ _ = _ |- _ => destruct H as [H|H]
    end;
  try done; try congruence;
  try (split_and!; (done || congruence)).

(** The second half of CREATE FUNCTION, for a function whose name is not
    a key. Either it fails without attempting a commit, and then the hash
    is as it was, the library is closed exactly when this statement opened
    it, and the transaction is rolled back exactly when the row was
    written. Or the descriptor is inserted under its name with a
    [usage_count] of 1 and the commit is attempted; the result is the
    outcome of the commit, and a failed commit closes a library this
    statement opened. *)
Lemma create_with_library_outcome (env : Env) (udf : N) (dl1 : N)
                                  (new_dl : bool) (st : udf_state) :
  udf_hash st !! name (deref st udf) = None ->
  let u := deref st udf in
  let c := create_with_library env udf dl1 new_dl st in
  ∃ evs, appended st c.2 evs ∧
    (∀ pth h, EvDlopen pth h ∉ evs) ∧
    (∀ h, EvDlclose h ∈ evs ↔ c.1 = true ∧ new_dl = true ∧ h = dl1) ∧
    ((c.1 = true ∧ udf_hash c.2 = udf_hash st ∧ (EvCommitStmt ∉ evs) ∧
      (EvRollbackStmt ∈ evs ↔ EvWriteRow (name u) ∈ evs) ∧
      (∀ q, q ≠ udf -> mem c.2 !! q = mem st !! q) ∧
      (mem_next st <= mem_next c.2))
     ∨ (c.1 = (if trans_commit_stmt env then true else trans_commit_implicit env) ∧
        udf_hash c.2 = <[name u := mem_next st]> (udf_hash st) ∧
        mem_next st ≠ 0 ∧
        same_identity (set_usage_count 1 (set_dlhandle dl1 u))
                      (deref c.2 (mem_next st)) ∧
        (∀ q, q ≠ udf -> q ≠ mem_next st -> mem c.2 !! q = mem st !! q) ∧
        mem_next c.2 = mem_next st + 1 ∧
        EvCommitStmt ∈ evs ∧ EvRollbackStmt ∉ evs)).
Proof.
  intros Hk u c. subst c. unfold create_with_library. fold u.
  set (st0 := store udf (set_dlhandle dl1 u) st).
  pose proof (init_syms_frame env udf st0)
    as (Hh & Hn & _ & _ & Hfr & Hid & evs_i & Happ & Hres).
  assert (deref st0 udf = set_dlhandle dl1 u) as Hd0
    by (subst st0; apply deref_store_eq).
  rewrite Hd0 in Hid. destruct Hid as (Hi1 & Hi2 & Hi3 & Hi4 & Hi5 & Hi6).
  rewrite Forall_forall in Hres. unfold appended in *.
  destruct (init_syms env udf st0) as [[m|] st2]; simpl in *.
  - (* a symbol is missing *)
    destruct new_dl; simpl.
    + exists (EvDlclose dl1 :: EvMyError ER_CANT_FIND_DL_ENTRY m :: evs_i).
      split; [by rewrite Happ|]. split_and!.
      * intros pth h Hin. elem_cases.
      * intros h. split; [intros Hin; elem_cases|solve_elem].
      * left. split_and!; try done.
        -- intros Hin. elem_cases.
        -- split; intros Hin; elem_cases.
        -- intros q Hq. rewrite Hfr by done. subst st0. simpl.
           by rewrite lookup_insert_ne.
        -- lia.
    + exists (EvMyError ER_CANT_FIND_DL_ENTRY m :: evs_i).
      split; [by rewrite Happ|]. split_and!.
      * intros pth h Hin. elem_cases.
      * intros h. split; [intros Hin; elem_cases|].
        by intros (_ & ? & _).
      * left. split_and!; try done.
        -- intros Hin. elem_cases.
        -- split; intros Hin; elem_cases.
        -- intros q Hq. rewrite Hfr by done. subst st0. simpl.
           by rewrite lookup_insert_ne.
        -- lia.
  - (* the symbols resolved *)
    rewrite Hi1.
    pose proof (write_func_row_frame env (name u) st2)
      as (Hhw & Hmw & Hnw & evs_w & Happ_w & Hw1 & Hw2).
    destruct (write_func_row env (name u) st2) as [ew st3]. simpl in *.
    set (rb := transaction_rollback_request env || ew). clearbody rb.
    assert (udf_hash st3 !! name (deref st3 udf) = None) as Hk3.
    { unfold deref. rewrite Hmw. fold (deref st2 udf). by rewrite Hi1, Hhw, Hh. }
    pose proof (udf_end_transaction_insert env rb udf st3 Hk3)
      as (evs_t & Happ_t & Hcases).
    assert (deref st3 udf = deref st2 udf) as Hd3
      by (unfold deref; by rewrite Hmw).
    rewrite Hd3 in Hcases.
    unfold appended in *.
    destruct (udf_end_transaction env rb udf true st3) as [err st5].
    simpl in *.
    destruct Hcases as [(-> & Hh5 & Hm5 & Hn5 & Hrb & Hall)
                       |(-> & Htrr & -> & Hh5 & Hd5 & Hnx & Hm5 & Hn5 & Hcm & Hall)].
    + rewrite Forall_forall in Hall.
      exists ((if new_dl then [EvDlclose dl1] else [])
              ++ EvMyError ER_ERROR_ON_WRITE "mysql.func" :: evs_t ++ evs_w ++ evs_i).
      split.
      { destruct new_dl; simpl; rewrite Happ_t, Happ_w, Happ;
          by rewrite <- ?app_assoc. }
      split_and!.
      * intros pth h Hin. destruct new_dl; elem_cases.
      * intros h. split.
        -- intros Hin. destruct new_dl; elem_cases.
        -- intros (_ & -> & ->). solve_elem.
      * left. split_and!; try done.
        -- destruct new_dl; simpl; by rewrite Hh5, Hhw, Hh.
        -- intros Hin. destruct new_dl; elem_cases.
        -- split; intros _; destruct new_dl; solve_elem.
        -- intros q Hq. assert (mem st5 !! q = mem st !! q) as Hq5.
           { rewrite Hm5, Hmw, Hfr by done. by rewrite lookup_insert_ne. }
           by destruct new_dl.
        -- assert (mem_next st <= mem_next st5) as Hle5.
           { by rewrite Hnw, Hn in Hn5. }
           by destruct new_dl.
    + rewrite Forall_forall in Hall.
      set (res := if trans_commit_stmt env then true
                  else trans_commit_implicit env) in *.
      match goal with
      | |- ∃ evs, trace (?x).2 = _ ∧ _ => set (c := x)
      end.
      assert (c.1 = res ∧ udf_hash c.2 = udf_hash st5 ∧ mem c.2 = mem st5 ∧
              mem_next c.2 = mem_next st5 ∧
              trace c.2 = (if res then (if new_dl then [EvDlclose dl1] else [])
                             ++ [EvMyError ER_ERROR_ON_WRITE "mysql.func"]
                           else []) ++ trace st5)
        as (Hd & Ha & Hb & Hc & He).
      { subst c. by destruct res, new_dl. }
      clearbody c.
      exists ((if res then (if new_dl then [EvDlclose dl1] else [])
                           ++ [EvMyError ER_ERROR_ON_WRITE "mysql.func"]
               else [])
              ++ evs_t ++ evs_w ++ evs_i).
      split.
      { rewrite He, Happ_t, Happ_w, Happ. by rewrite <- ?app_assoc. }
      unfold deref. rewrite Ha, Hb, Hc, Hd. fold (deref st5 (mem_next st)).
      split_and!.
      * intros pth h Hin. destruct res, new_dl; elem_cases.
      * intros h. split.
        -- intros Hin. destruct res, new_dl; elem_cases.
        -- intros (-> & -> & ->). solve_elem.
      * assert (mem_next st3 = mem_next st) as Hn3 by (by rewrite Hnw, Hn).
        rewrite Hn3 in *.
        right. split_and!; try done.
        -- rewrite Hh5. by rewrite Hi1, Hhw, Hh.
        -- rewrite Hd5. unfold same_identity. simpl.
           by rewrite Hi1, Hi2, Hi3, Hi4, Hi5.
        -- intros q Hq1 Hq2. rewrite Hm5, Hmw, Hfr by done.
           by rewrite lookup_insert_ne.
        -- destruct res, new_dl; solve_elem.
        -- intros Hin. destruct res, new_dl; elem_cases.
Qed.

(** Every way [mysql_create_function] can end. Either it fails without
    attempting a commit: the hash is as it was, a library is closed
    exactly when this statement opened it, and the transaction is rolled
    back exactly when the row was written. Or the name was free, the
    descriptor is inserted under it with a [usage_count] of 1 and the
    handle of its library, and the commit is attempted: the result is the
    outcome of the commit. *)
Lemma mysql_create_function_outcome (env : Env) (udf : N) (st : udf_state) :
  let u := deref st udf in
  let c := mysql_create_function env udf st in
  ∃ evs, appended st c.2 evs ∧
    ((c.1 = true ∧ udf_hash c.2 = udf_hash st ∧ (EvCommitStmt ∉ evs) ∧
      (∀ h, EvDlclose h ∈ evs ↔ h ≠ 0 ∧ EvDlopen (dl u) h ∈ evs) ∧
      (EvRollbackStmt ∈ evs ↔ EvWriteRow (name u) ∈ evs) ∧
      (∀ q, q ≠ udf -> mem c.2 !! q = mem st !! q) ∧
      (mem_next st <= mem_next c.2))
     ∨ (initialized st = true ∧ udf_hash st !! name u = None ∧
        c.1 = (if trans_commit_stmt env then true else trans_commit_implicit env) ∧
        udf_hash c.2 = <[name u := mem_next st]> (udf_hash st) ∧
        mem_next st ≠ 0 ∧
        create_handle env st (dl u) ≠ 0 ∧
        same_identity
          (set_usage_count 1 (set_dlhandle (create_handle env st (dl u)) u))
          (deref c.2 (mem_next st)) ∧
        (∀ q, q ≠ udf -> q ≠ mem_next st -> mem c.2 !! q = mem st !! q) ∧
        mem_next c.2 = mem_next st + 1 ∧
        EvCommitStmt ∈ evs ∧ (EvRollbackStmt ∉ evs) ∧
        (∀ h, EvDlclose h ∈ evs ↔
              c.1 = true ∧ find_udf_dl st (dl u) = 0 ∧ h = dlopen env (dl u)))).
Proof.
  intros u c. subst c. unfold mysql_create_function, appended. fold u.
  destruct (initialized st) eqn:Hi; simpl.
  2:{ eexists [_]. split; [reflexivity|]. left.
      split_and!; try done; try lia.
      - intros Hin. destruct (opt_noacl env); elem_cases.
      - intros h. split; [intros Hin|intros [_ Hin]];
          destruct (opt_noacl env); elem_cases.
      - split; intros Hin; destruct (opt_noacl env); elem_cases. }
  destruct (check_valid_path env (dl u)); simpl.
  { eexists [_]. split; [reflexivity|]. left.
    split_and!; try done; try lia.
    - intros Hin. elem_cases.
    - intros h. split; [intros Hin|intros [_ Hin]]; elem_cases.
    - split; intros Hin; elem_cases. }
  destruct (check_string_char_length env (name u)); simpl.
  { eexists [_]. split; [reflexivity|]. left.
    split_and!; try done; try lia.
    - intros Hin. elem_cases.
    - intros h. split; [intros Hin|intros [_ Hin]]; elem_cases.
    - split; intros Hin; elem_cases. }
  destruct (open_tables_fails env); simpl.
  { exists []. split; [reflexivity|]. left.
    split_and!; try done; try lia.
    - intros Hin. elem_cases.
    - intros h. split; [intros Hin|intros [_ Hin]]; elem_cases.
    - split; intros Hin; elem_cases. }
  destruct (udf_hash st !! name u) as [q|] eqn:Hk; simpl.
  { eexists [_]. split; [reflexivity|]. left.
    split_and!; try done; try lia.
    - intros Hin. elem_cases.
    - intros h. split; [intros Hin|intros [_ Hin]]; elem_cases.
    - split; intros Hin; elem_cases. }
  rewrite (find_udf_dl_ext st (rwlock_lock st)) by done.
  rewrite rwlock_unlock_lock. unfold create_handle.
  destruct (find_udf_dl st (dl u) =? 0) eqn:Hf.
  - apply N.eqb_eq in Hf.
    destruct (dlopen env (dl u) =? 0) eqn:Ho.
    + apply N.eqb_eq in Ho. simpl.
      eexists [_; _]. split; [reflexivity|]. left.
      split_and!; try done; try lia.
      * intros Hin. elem_cases.
      * intros h. split; [intros Hin|intros [Hh Hin]]; elem_cases.
      * split; intros Hin; elem_cases.
    + apply N.eqb_neq in Ho.
      set (st1 := log (EvDlopen (dl u) (dlopen env (dl u))) st).
      assert (udf_hash st1 !! name (deref st1 udf) = None) as Hk1 by done.
      destruct (create_with_library_outcome env udf (dlopen env (dl u)) true
                  st1 Hk1) as (evs & Happ & Hno & Hcl & Hcases).
      change (deref st1 udf) with u in Hcases.
      unfold appended in Happ.
      exists (evs ++ [EvDlopen (dl u) (dlopen env (dl u))]).
      split; [by rewrite Happ, <- app_assoc|].
      destruct Hcases as [(Hc1 & Hh & Hcm & Hrb & Hfr & Hle)
                         |(Hc1 & Hh & Hnx & Hid & Hfr & Hn & Hcm & Hrb)].
      * left. split_and!; try done.
        -- intros Hin. elem_cases.
        -- intros h. rewrite elem_of_app, Hcl, list_elem_of_singleton.
           split.
           ++ intros [(_ & _ & ->)|?]; [|done]. split; [done|].
              apply elem_of_app. right. solve_elem.
           ++ intros [Hh0 Hin]. apply elem_of_app in Hin as [Hin|Hin].
              ** by apply Hno in Hin.
              ** left. apply list_elem_of_singleton in Hin. split_and!; congruence.
        -- rewrite elem_of_app, Hrb, elem_of_app, !list_elem_of_singleton.
           intuition congruence.
      * right. split_and!; try done.
        -- apply elem_of_app. by left.
        -- intros Hin. elem_cases.
        -- intros h. rewrite elem_of_app, Hcl, list_elem_of_singleton.
           split; [intros [(? & _ & ->)|?]; [by split_and!|done]|].
           intros (? & _ & ->). left. by split_and!.
  - assert (udf_hash st !! name (deref st udf) = None) as Hk1 by done.
    destruct (create_with_library_outcome env udf (find_udf_dl st (dl u)) false
                st Hk1) as (evs & Happ & Hno & Hcl & Hcases).
    fold u in Hcases. apply N.eqb_neq in Hf.
    exists evs. split; [done|].
    destruct Hcases as [(Hc1 & Hh & Hcm & Hrb & Hfr & Hle)
                       |(Hc1 & Hh & Hnx & Hid & Hfr & Hn & Hcm & Hrb)].
    + left. split_and!; try done.
      intros h. rewrite Hcl. split; [by intros (_ & ? & _)|].
      intros [_ Hin]. by apply Hno in Hin.
    + right. split_and!; try done.
      intros h. rewrite Hcl. split; [by intros (_ & ? & _)|].
      intros (_ & ? & _). congruence.
Qed.

(** C4 (amended). A CREATE FUNCTION that fails, the commit itself not
    being what fails, leaves [udf_hash] exactly as it was: no entry is
    added for the name (and on a duplicate name the entry that was there
    stays). No commit is attempted. A library is closed exactly when this
    statement had opened it, and the transaction is rolled back exactly
    when the row of [mysql.func] had been written; the failures before
    that (duplicate name, library that cannot be opened, missing symbol)
    return the error without a rollback of their own. *)
Theorem mysql_create_function_failure (env : Env) (udf : N) (st : udf_state) :
  let u := deref st udf in
  let c := mysql_create_function env udf st in
  c.1 = true ->
  trans_commit_stmt env = false ->
  trans_commit_implicit env = false ->
  udf_hash c.2 = udf_hash st ∧
  ∃ evs, appended st c.2 evs ∧
    (EvCommitStmt ∉ evs) ∧
    (∀ h, EvDlclose h ∈ evs ↔ h ≠ 0 ∧ EvDlopen (dl u) h ∈ evs) ∧
    (EvRollbackStmt ∈ evs ↔ EvWriteRow (name u) ∈ evs).
Proof.
  intros u c Hc Hcs Hci.
  destruct (mysql_create_function_outcome env udf st)
    as (evs & Happ & [(_ & Hh & Hcm & Hcl & Hrb & _)|(_ & _ & Hres & _)]).
  - split; [done|]. by exists evs.
  - fold c in Hres. rewrite Hcs, Hci in Hres. congruence.
Qed.

(** C9. CREATE FUNCTION of a name that is already a key of [udf_hash]
    fails with [ER_UDF_EXISTS] and changes nothing else. [add_udf] on a
    name that is not a key (with a valid type and a successful
    allocation) registers the new descriptor under its own name with a
    [usage_count] of 1 and leaves every other descriptor alone. And a
    CREATE FUNCTION that succeeds has inserted the function under its
    name, which was free, with a [usage_count] of 1. *)
Theorem add_udf_insert_spec (env : Env) (udf : N) (st : udf_state) :
  let u := deref st udf in
  let c := mysql_create_function env udf st in
  (∀ q, initialized st = true ->
        check_valid_path env (dl u) = false ->
        check_string_char_length env (name u) = false ->
        open_tables_fails env = false ->
        udf_hash st !! name u = Some q ->
        c = (true, log (EvMyError ER_UDF_EXISTS (name u)) st)) ∧
  (∀ nm ret path typ,
     udf_hash st !! nm = None ->
     typ = UDFTYPE_FUNCTION ∨ typ = UDFTYPE_AGGREGATE ->
     alloc_root_fails env = false ->
     mem_next st ≠ 0 ->
     let r := add_udf env nm ret path typ st in
     r.1 ≠ 0 ∧
     udf_hash r.2 = <[nm := r.1]> (udf_hash st) ∧
     deref r.2 r.1 = mk_udf_func nm ret typ path 0 0 0 0 0 0 1 ∧
     (∀ q, q ≠ r.1 -> mem r.2 !! q = mem st !! q)) ∧
  (c.1 = false ->
   udf_hash st !! name u = None ∧
   ∃ p, p ≠ 0 ∧ udf_hash c.2 = <[name u := p]> (udf_hash st) ∧
        name (deref c.2 p) = name u ∧ usage_count (deref c.2 p) = 1).
Proof.
  intros u c. split_and!.
  - intros q Hi Hp Hn Ho Hk. subst c. unfold mysql_create_function.
    fold u. rewrite Hi, Hp, Hn, Ho. simpl. rewrite Hk.
    by destruct st.
  - intros nm ret path typ Hk Ht Ha Hnx r.
    destruct (add_udf_fresh env nm ret path typ st Hk Ht Ha Hnx)
      as (H1 & H2 & H3 & H4 & _).
    fold r in H1, H2, H3, H4. split_and!; try done. by rewrite H1.
  - intros Hc.
    destruct (mysql_create_function_outcome env udf st)
      as (evs & Happ & [(Ht & _)|(_ & Hk & _ & Hh & Hnx & _ & Hid & _)]).
    + fold c in Ht. congruence.
    + split; [done|]. exists (mem_next st).
      destruct Hid as (Hi1 & _ & _ & _ & _ & Hi6).
      split_and!; done.
Qed.

(** ** Libraries shared between descriptors: [find_udf_dl] *)

Lemma find_udf_dl_None (st : udf_state) (path : string) (k : string) (p : N) :
  find_udf_dl st path = 0 ->
  udf_hash st !! k = Some p -> dl (deref st p) = path ->
  dlhandle (deref st p) = 0.
Proof.
  unfold find_udf_dl. intros Hf Hk Hd.
  destruct (List.find _ _) as [[k' p']|] eqn:Hfind.
  - apply List.find_some in Hfind as [_ Hm]. unfold dl_matches in Hm.
    simpl in *. apply andb_true_iff in Hm as [_ Hm].
    apply negb_true_iff, N.eqb_neq in Hm. done.
  - assert (In (k, p) (map_to_list (udf_hash st))) as Hin.
    { apply list_elem_of_In. by apply elem_of_map_to_list. }
    pose proof (List.find_none _ _ Hfind _ Hin) as Hm.
    unfold dl_matches in Hm. simpl in Hm.
    rewrite bool_decide_eq_true_2 in Hm by done. simpl in Hm.
    by apply negb_false_iff, N.eqb_eq in Hm.
Qed.

Lemma find_udf_dl_Some (st : udf_state) (path : string) :
  find_udf_dl st path ≠ 0 ->
  ∃ k p, udf_hash st !! k = Some p ∧ dl (deref st p) = path ∧
         dlhandle (deref st p) = find_udf_dl st path.
Proof.
  unfold find_udf_dl. intros Hf.
  destruct (List.find _ _) as [[k' p']|] eqn:Hfind; [|done].
  apply List.find_some in Hfind as [Hin Hm]. unfold dl_matches in Hm.
  simpl in *. apply andb_true_iff in Hm as [Hm _].
  apply bool_decide_eq_true in Hm.
  exists k', p'. split_and!; try done.
  apply elem_of_map_to_list. by apply list_elem_of_In.
Qed.

(** Under [shares_handles], the handle [find_udf_dl] answers is the handle
    of every registered descriptor of that library that has one. *)
Lemma find_udf_dl_shared (st : udf_state) (path : string) (k : string) (p : N) :
  shares_handles st ->
  udf_hash st !! k = Some p -> dl (deref st p) = path ->
  dlhandle (deref st p) ≠ 0 ->
  dlhandle (deref st p) = find_udf_dl st path.
Proof.
  intros Hsh Hk Hd Hh.
  destruct (N.eq_dec (find_udf_dl st path) 0) as [Hz|Hnz].
  - by rewrite (find_udf_dl_None st path k p Hz Hk Hd) in Hh.
  - destruct (find_udf_dl_Some st path Hnz) as (k' & p' & Hk' & Hd' & Hh').
    rewrite <- Hh'. apply (Hsh k k' p p'); try done; congruence.
Qed.

Lemma create_handle_origin (env : Env) (st : udf_state) (path : string) :
  handle_origin env st path (create_handle env st path).
Proof.
  unfold create_handle, handle_origin.
  destruct (find_udf_dl st path =? 0) eqn:Hf.
  - apply N.eqb_eq in Hf. left. split; [done|].
    intros k p. by apply find_udf_dl_None.
  - apply N.eqb_neq in Hf. right. by apply find_udf_dl_Some.
Qed.

(** ** The invariant of the registry *)

(** A step that registers no new descriptor and leaves the library and
    the handle of the registered ones alone keeps the invariant. *)
Lemma registry_inv_shrink (st st' : udf_state) :
  registry_inv st ->
  mem_next st <= mem_next st' ->
  (∀ k p, udf_hash st' !! k = Some p -> ∃ k0, udf_hash st !! k0 = Some p) ->
  (∀ k p, udf_hash st !! k = Some p ->
          dl (deref st' p) = dl (deref st p) ∧
          dlhandle (deref st' p) = dlhandle (deref st p)) ->
  registry_inv st'.
Proof.
  intros [[Hnx Hwf] Hsh] Hle Hval Hid. split; [split|].
  - lia.
  - intros k p Hk. destruct (Hval _ _ Hk) as [k0 Hk0].
    specialize (Hwf _ _ Hk0). lia.
  - intros k1 k2 p1 p2 Hk1 Hk2.
    destruct (Hval _ _ Hk1) as [k1' Hk1'], (Hval _ _ Hk2) as [k2' Hk2'].
    destruct (Hid _ _ Hk1') as [-> ->], (Hid _ _ Hk2') as [-> ->].
    by apply (Hsh k1' k2').
Qed.

(** A step that registers at most the new descriptor [pn], with a handle
    of the right origin, keeps the invariant. *)
Lemma registry_inv_grow (env : Env) (st st' : udf_state) (pn : N) :
  registry_inv st ->
  mem_next st <= mem_next st' ->
  mem_next st <= pn ->
  (∀ k p, udf_hash st' !! k = Some p ->
          p = pn ∨ ∃ k0, udf_hash st !! k0 = Some p) ->
  (∀ k p, udf_hash st !! k = Some p ->
          dl (deref st' p) = dl (deref st p) ∧
          dlhandle (deref st' p) = dlhandle (deref st p)) ->
  (∀ k, udf_hash st' !! k = Some pn ->
        pn < mem_next st' ∧
        (dlhandle (deref st' pn) ≠ 0 ->
         handle_origin env st (dl (deref st' pn)) (dlhandle (deref st' pn)))) ->
  registry_inv st'.
Proof.
  intros [[Hnx Hwf] Hsh] Hle Hpn Hval Hid Horig. split; [split|].
  - lia.
  - intros k p Hk. destruct (Hval _ _ Hk) as [->|[k0 Hk0]].
    + destruct (Horig _ Hk) as [? _]. lia.
    + specialize (Hwf _ _ Hk0). lia.
  - assert (∀ k0 k p, udf_hash st' !! k0 = Some pn ->
              udf_hash st !! k = Some p ->
              dl (deref st p) = dl (deref st' pn) ->
              dlhandle (deref st p) ≠ 0 -> dlhandle (deref st' pn) ≠ 0 ->
              dlhandle (deref st p) = dlhandle (deref st' pn)) as Hnew.
    { intros k0 k p Hk0 Hk Hd Hh Hhn.
      destruct (Horig _ Hk0) as [_ Ho].
      destruct (Ho Hhn) as [[_ Hnone]|(k1 & p1 & Hk1 & Hd1 & Hh1)].
      - by rewrite (Hnone _ _ Hk Hd) in Hh.
      - rewrite <- Hh1. apply (Hsh k k1); try done; congruence. }
    intros k1 k2 p1 p2 Hk1 Hk2 Hd Hh1 Hh2.
    destruct (Hval _ _ Hk1) as [->|[k1' Hk1']],
             (Hval _ _ Hk2) as [->|[k2' Hk2']]; [done| | |].
    + destruct (Hid _ _ Hk2') as [Hd2 Hh2']. rewrite Hd2 in Hd.
      rewrite Hh2' in *. symmetry. by apply (Hnew k1 k2').
    + destruct (Hid _ _ Hk1') as [Hd1 Hh1']. rewrite Hd1 in Hd.
      rewrite Hh1' in *. by apply (Hnew k2 k1').
    + destruct (Hid _ _ Hk1') as [Hd1 Hh1'], (Hid _ _ Hk2') as [Hd2 Hh2'].
      rewrite Hd1, Hd2 in Hd. rewrite Hh1', Hh2' in *.
      by apply (Hsh k1' k2').
Qed.

(** Changing the [usage_count] of one descriptor changes the library and
    the handle of none. *)
Lemma store_usage_count_identity (udf : N) (c : N) (st : udf_state) (q : N) :
  let st' := store udf (set_usage_count c (deref st udf)) st in
  name (deref st' q) = name (deref st q) ∧
  dl (deref st' q) = dl (deref st q) ∧
  dlhandle (deref st' q) = dlhandle (deref st q).
Proof.
  simpl. destruct (decide (udf = q)) as [->|Hne].
  - by rewrite deref_store_eq.
  - by rewrite deref_store_ne.
Qed.

Lemma find_udf_frame (nm : string) (len : nat) (mark : bool) (st : udf_state) :
  let st' := (find_udf nm len mark st).2 in
  mem_next st' = mem_next st ∧ udf_hash st' = udf_hash st ∧
  initialized st' = initialized st ∧
  ∀ q, name (deref st' q) = name (deref st q) ∧
       dl (deref st' q) = dl (deref st q) ∧
       dlhandle (deref st' q) = dlhandle (deref st q).
Proof.
  unfold find_udf. destruct (initialized st) eqn:Hi; simpl; [|done].
  destruct (udf_hash st !! find_key nm len) as [p|]; simpl; [|done].
  change (deref (rwlock_lock st) p) with (deref st p).
  destruct (dlhandle (deref st p) =? 0); simpl; [done|].
  destruct mark; simpl; [|done].
  split_and!; try done. intros q.
  apply (store_usage_count_identity p _ st q).
Qed.

Lemma free_udf_frame (udf : N) (st : udf_state) :
  let st' := free_udf udf st in
  mem_next st' = mem_next st ∧ initialized st' = initialized st ∧
  (∀ k p, udf_hash st' !! k = Some p -> udf_hash st !! k = Some p) ∧
  ∀ q, name (deref st' q) = name (deref st q) ∧
       dl (deref st' q) = dl (deref st q) ∧
       dlhandle (deref st' q) = dlhandle (deref st q).
Proof.
  unfold free_udf. destruct (initialized st) eqn:Hi; simpl; [|done].
  change (deref (rwlock_lock st) udf) with (deref st udf).
  set (c := ulong_dec (usage_count (deref st udf))).
  pose proof (store_usage_count_identity udf c st) as Hid. simpl in Hid.
  destruct (c =? 0); simpl; [|done].
  rewrite !deref_store_eq. simpl.
  destruct (udf_hash st !! name (deref st udf)); simpl; [|done].
  assert (∀ k p, delete (name (deref st udf)) (udf_hash st) !! k = Some p ->
                 udf_hash st !! k = Some p) as Hdel.
  { intros k p Hk. apply lookup_delete_Some in Hk. tauto. }
  destruct (find_udf_dl _ _ =? 0); simpl; done.
Qed.

Lemma udf_hash_delete_frame (udf : N) (st : udf_state) :
  let st' := udf_hash_delete udf st in
  mem_next st' = mem_next st ∧ initialized st' = initialized st ∧
  (∀ k p, udf_hash st' !! k = Some p ->
          (p = udf ∧ usage_count (deref st udf) ≠ 1) ∨ udf_hash st !! k = Some p) ∧
  (∀ k, k ≠ name (deref st udf) -> k ≠ shadow_key udf ->
        udf_hash st' !! k = udf_hash st !! k) ∧
  (∀ q, q ≠ udf -> mem st' !! q = mem st !! q) ∧
  ∀ q, name (deref st' q) = name (deref st q) ∧
       dl (deref st' q) = dl (deref st q) ∧
       dlhandle (deref st' q) = dlhandle (deref st q).
Proof.
  destruct (udf_hash st !! name (deref st udf)) as [p0|] eqn:Hk.
  - rewrite (udf_hash_delete_registered _ _ _ Hk). simpl.
    set (c := ulong_dec (usage_count (deref st udf))).
    pose proof (store_usage_count_identity udf c st) as Hid. simpl in Hid.
    assert (∀ k p, delete (name (deref st udf)) (udf_hash st) !! k = Some p ->
                   udf_hash st !! k = Some p) as Hdel.
    { intros k p Hp. apply lookup_delete_Some in Hp. tauto. }
    destruct (c =? 0) eqn:Hc; simpl.
    + split_and!; try done.
      * intros k p Hp. right. by apply Hdel.
      * intros k Hk1 _. by rewrite lookup_delete_ne.
      * intros q Hq. by rewrite lookup_insert_ne.
    + split_and!; try done.
      * intros k p Hp. unfold emplace in Hp.
        destruct (delete _ _ !! shadow_key udf); [right; by apply Hdel|].
        apply lookup_insert_Some in Hp as [[_ <-]|[_ Hp]];
          [|right; by apply Hdel].
        left. split; [done|]. intros Hone. subst c. rewrite Hone in Hc.
        done.
      * intros k Hk1 Hk2. rewrite emplace_lookup_ne by done.
        by rewrite lookup_delete_ne.
      * intros q Hq. by rewrite lookup_insert_ne.
  - rewrite (udf_hash_delete_unregistered _ _ Hk). simpl.
    split_and!; try done. intros k p Hp. by right.
Qed.

(** ** The startup scan *)

Lemma emplace_lookup_is_Some (k : string) (p : N) (h : gmap string N) :
  ∃ q, emplace k p h !! k = Some q.
Proof.
  unfold emplace. destruct (h !! k) as [q|] eqn:Hk.
  - by exists q.
  - exists p. by rewrite lookup_insert_eq.
Qed.

(** The end of the loop body of [udf_init], for a descriptor [tmp] that
    was just allocated and whose name is a key of the hash: either the
    symbols resolve and only [tmp] changes, or the key is erased. *)
Lemma udf_init_bind_outcome (env : Env) (tmp : N) (h : N) (new_dl : bool)
                            (st : udf_state) (p0 : N) :
  udf_hash st !! name (deref st tmp) = Some p0 ->
  usage_count (deref st tmp) = 1 ->
  let st' := udf_init_bind env tmp h new_dl st in
  mem_next st' = mem_next st ∧ initialized st' = initialized st ∧
  (∀ q, q ≠ tmp -> mem st' !! q = mem st !! q) ∧
  name (deref st' tmp) = name (deref st tmp) ∧
  dl (deref st' tmp) = dl (deref st tmp) ∧
  dlhandle (deref st' tmp) = h ∧
  ((udf_hash st' = udf_hash st ∧ usage_count (deref st' tmp) = 1)
   ∨ udf_hash st' = delete (name (deref st tmp)) (udf_hash st)).
Proof.
  intros Hk Hc st'. subst st'. unfold udf_init_bind.
  set (st1 := store tmp (set_dlhandle h (deref st tmp)) st).
  pose proof (init_syms_frame env tmp st1)
    as (Hh & Hn & Hi & _ & Hfr & Hid & _).
  assert (deref st1 tmp = set_dlhandle h (deref st tmp)) as Hd1
    by (subst st1; apply deref_store_eq).
  rewrite Hd1 in Hid. destruct Hid as (Hi1 & Hi2 & Hi3 & Hi4 & Hi5 & Hi6).
  assert (∀ q, q ≠ tmp -> mem st1 !! q = mem st !! q) as Hfr1.
  { intros q Hq. subst st1. simpl. by rewrite lookup_insert_ne. }
  destruct (init_syms env tmp st1) as [[m|] st2]; simpl in *.
  - set (st3 := log (EvLogErr ERROR_LEVEL ER_CANT_FIND_DL_ENTRY m) st2).
    assert (udf_hash st3 !! name (deref st3 tmp) = Some p0) as Hk3.
    { subst st3. rewrite deref_log. simpl. by rewrite Hi1, Hh. }
    assert (usage_count (deref st3 tmp) = 1) as Hc3.
    { subst st3. rewrite deref_log. by rewrite Hi6. }
    pose proof (udf_hash_delete_frame tmp st3) as (Hn4 & Hi4' & _ & _ & Hm4 & Hid4).
    pose proof (udf_hash_delete_last tmp st3 p0 Hk3 Hc3) as Hh4.
    set (st4 := udf_hash_delete tmp st3) in *.
    destruct (Hid4 tmp) as (Hid41 & Hid42 & Hid43).
    assert (deref st3 tmp = deref st2 tmp) as Hd3 by done.
    rewrite Hd3 in *.
    assert (mem_next st4 = mem_next st ∧ initialized st4 = initialized st ∧
            (∀ q, q ≠ tmp → mem st4 !! q = mem st !! q) ∧
            name (deref st4 tmp) = name (deref st tmp) ∧
            dl (deref st4 tmp) = dl (deref st tmp) ∧
            dlhandle (deref st4 tmp) = h ∧
            udf_hash st4 = delete (name (deref st tmp)) (udf_hash st))
      as (H1 & H2 & H3 & H4 & H5 & H6 & H7).
    { split_and!.
      - rewrite Hn4. subst st3. simpl. by rewrite Hn.
      - rewrite Hi4'. subst st3. simpl. by rewrite Hi.
      - intros q Hq. rewrite Hm4 by done. subst st3. simpl.
        rewrite Hfr by done. by apply Hfr1.
      - by rewrite Hid41, Hi1.
      - by rewrite Hid42, Hi4.
      - by rewrite Hid43, Hi5.
      - rewrite Hh4, Hi1. subst st3. simpl. by rewrite Hh. }
    destruct new_dl; simpl; split_and!; try done; by right.
  - split_and!; try done.
    + intros q Hq. rewrite Hfr by done. by apply Hfr1.
    + left. split; [done|]. by rewrite Hi6.
Qed.

(** One row of the startup scan. Only the key of the row and the cell the
    allocator hands out can change. If the row ends up registered, it is
    with a [usage_count] of 1, and either without a handle, [dlopen]
    having failed while no registered descriptor of the library had one,
    or with a handle of the right origin. *)
Lemma udf_init_row_outcome (env : Env) (st : udf_state) (r : func_row) :
  wf_registry st ->
  let tmp := mem_next st in
  let st' := udf_init_row env st r in
  initialized st' = initialized st ∧
  mem_next st <= mem_next st' ∧
  (∀ q, q ≠ tmp -> mem st' !! q = mem st !! q) ∧
  (∀ k, k ≠ row_name r -> udf_hash st' !! k = udf_hash st !! k) ∧
  (udf_hash st' !! row_name r = udf_hash st !! row_name r
   ∨ udf_hash st' !! row_name r = None
   ∨ (udf_hash st !! row_name r = None ∧
      udf_hash st' !! row_name r = Some tmp ∧
      mem_next st' = tmp + 1 ∧
      check_valid_path env (row_dl r) = false ∧
      check_string_char_length env (row_name r) = false ∧
      name (deref st' tmp) = row_name r ∧
      dl (deref st' tmp) = row_dl r ∧
      usage_count (deref st' tmp) = 1 ∧
      ((dlhandle (deref st' tmp) = 0 ∧ dlopen env (row_dl r) = 0)
       ∨ (dlhandle (deref st' tmp) ≠ 0 ∧
          handle_origin env st (row_dl r) (dlhandle (deref st' tmp)))))).
Proof.
  intros [Hnx Hwf] tmp st'. subst st'. unfold udf_init_row.
  destruct (check_valid_path env (row_dl r)) eqn:Hcp; simpl.
  { split_and!; try done; try lia. by left. }
  destruct (check_string_char_length env (row_name r)) eqn:Hcl; simpl.
  { split_and!; try done; try lia. by left. }
  set (typ := default UDFTYPE_FUNCTION (row_type r)).
  pose proof (add_udf_cases env (row_name r) (row_ret r) (row_dl r) typ st)
    as (_ & Hi1 & _ & Hle1 & Hcases).
  destruct (add_udf env (row_name r) (row_ret r) (row_dl r) typ st)
    as [tmp' st1]. simpl in *.
  destruct Hcases as [(-> & Hh1 & Hm1)|(-> & _ & _ & _ & Hh1 & Hm1 & Hn1)].
  { simpl. split_and!; try done.
    - intros q _. by rewrite Hm1.
    - intros k _. by rewrite Hh1.
    - left. by rewrite Hh1. }
  fold tmp in Hh1, Hm1, Hn1. fold tmp.
  assert ((tmp =? 0) = false) as -> by (apply N.eqb_neq; lia).
  assert (deref st1 tmp
          = mk_udf_func (row_name r) (row_ret r) typ (row_dl r) 0 0 0 0 0 0 1)
    as Hd1 by (unfold deref; by rewrite Hm1, lookup_insert_eq).
  assert (∀ q, q ≠ tmp -> mem st1 !! q = mem st !! q) as Hfr1.
  { intros q Hq. rewrite Hm1. by rewrite lookup_insert_ne. }
  assert (∀ k, k ≠ row_name r -> udf_hash st1 !! k = udf_hash st !! k) as Hk1.
  { intros k Hk. rewrite Hh1. by apply emplace_lookup_ne. }
  (* registered descriptors of [st] are registered in [st1], unchanged *)
  assert (∀ k p, udf_hash st !! k = Some p ->
                 udf_hash st1 !! k = Some p ∧ deref st1 p = deref st p) as Hold.
  { intros k p Hk. split.
    - rewrite Hh1. unfold emplace.
      destruct (udf_hash st !! row_name r) eqn:Hr; [done|].
      rewrite lookup_insert_ne; [done|]. intros <-. congruence.
    - unfold deref. rewrite Hfr1; [done|]. specialize (Hwf _ _ Hk).
      subst tmp. lia. }
  assert (∀ k p, udf_hash st1 !! k = Some p -> p ≠ tmp ->
                 udf_hash st !! k = Some p) as Hnew.
  { intros k p Hk Hp. rewrite Hh1 in Hk. unfold emplace in Hk.
    destruct (udf_hash st !! row_name r) eqn:Hr; [done|].
    apply lookup_insert_Some in Hk as [[_ ?]|[_ ?]]; [congruence|done]. }
  assert (∀ h, h ≠ 0 -> handle_origin env st1 (row_dl r) h ->
               handle_origin env st (row_dl r) h) as Horig.
  { intros h Hh [[-> Hnone]|(k & p & Hk & Hd & Hhp)].
    - left. split; [done|]. intros k p Hk Hd.
      destruct (Hold _ _ Hk) as [Hk' Hd']. rewrite <- Hd' in *.
      by apply (Hnone k).
    - right. assert (p ≠ tmp) as Hp.
      { intros ->. rewrite Hd1 in Hhp. simpl in Hhp. congruence. }
      exists k, p. split; [by apply Hnew|].
      unfold deref in *. by rewrite <- Hfr1. }
  destruct (emplace_lookup_is_Some (row_name r) tmp (udf_hash st)) as [p0 Hp0].
  rewrite <- Hh1 in Hp0.
  (* what the binding of a handle [h] to [tmp] leads to *)
  assert (∀ h new_dl st2,
            h ≠ 0 -> handle_origin env st1 (row_dl r) h ->
            mem st2 = mem st1 -> udf_hash st2 = udf_hash st1 ->
            mem_next st2 = mem_next st1 -> initialized st2 = initialized st1 ->
            let st' := udf_init_bind env tmp h new_dl st2 in
            initialized st' = initialized st ∧
            tmp <= mem_next st' ∧
            (∀ q, q ≠ tmp -> mem st' !! q = mem st !! q) ∧
            (∀ k, k ≠ row_name r -> udf_hash st' !! k = udf_hash st !! k) ∧
            (udf_hash st' !! row_name r = udf_hash st !! row_name r
             ∨ udf_hash st' !! row_name r = None
             ∨ (udf_hash st !! row_name r = None ∧
                udf_hash st' !! row_name r = Some tmp ∧
                mem_next st' = tmp + 1 ∧
                false = false ∧ false = false ∧
                name (deref st' tmp) = row_name r ∧
                dl (deref st' tmp) = row_dl r ∧
                usage_count (deref st' tmp) = 1 ∧
                ((dlhandle (deref st' tmp) = 0 ∧ dlopen env (row_dl r) = 0)
                 ∨ (dlhandle (deref st' tmp) ≠ 0 ∧
                    handle_origin env st (row_dl r) (dlhandle (deref st' tmp)))))))
    as Hbind.
  { intros h new_dl st2 Hh Ho Hm2 Hh2 Hn2 Hi2 st'.
    assert (deref st2 tmp = deref st1 tmp) as Hd2
      by (unfold deref; by rewrite Hm2).
    assert (udf_hash st2 !! name (deref st2 tmp) = Some p0) as Hk2
      by (by rewrite Hd2, Hd1, Hh2).
    assert (usage_count (deref st2 tmp) = 1) as Hc2 by (by rewrite Hd2, Hd1).
    destruct (udf_init_bind_outcome env tmp h new_dl st2 p0 Hk2 Hc2)
      as (Hn' & Hi' & Hfr' & Hnm' & Hdl' & Hhd' & Hhash').
    fold st' in Hn', Hi', Hfr', Hnm', Hdl', Hhd', Hhash'.
    rewrite Hd2, Hd1 in Hnm', Hdl', Hhash'. simpl in Hnm', Hdl', Hhash'.
    split_and!.
    - by rewrite Hi', Hi2.
    - rewrite Hn', Hn2, Hn1. lia.
    - intros q Hq. rewrite Hfr', Hm2 by done. by apply Hfr1.
    - intros k Hk. destruct Hhash' as [[-> _]| ->].
      + rewrite Hh2. by apply Hk1.
      + rewrite lookup_delete_ne by done. rewrite Hh2. by apply Hk1.
    - destruct Hhash' as [[Hhs Hcnt]|Hhs]; rewrite Hhs.
      + rewrite Hh2, Hh1. unfold emplace.
        destruct (udf_hash st !! row_name r) eqn:Hr; [by left|].
        right. right. rewrite lookup_insert_eq.
        split_and!; try done.
        * by rewrite Hn', Hn2, Hn1.
        * right. rewrite Hhd'. split; [done|]. by apply Horig.
      + right. left. by rewrite lookup_delete_eq. }
  rewrite Hd1. simpl.
  destruct (find_udf_dl st1 (row_dl r) =? 0) eqn:Hf.
  - apply N.eqb_eq in Hf.
    destruct (dlopen env (row_dl r) =? 0) eqn:Ho.
    + apply N.eqb_eq in Ho. simpl. split_and!; try done.
      rewrite !deref_log, Hd1. simpl.
      rewrite Hh1. unfold emplace.
      destruct (udf_hash st !! row_name r) eqn:Hr; [by left|].
      right. right. rewrite lookup_insert_eq.
      split_and!; try done. by left.
    + apply N.eqb_neq in Ho.
      apply Hbind; try done.
      left. split; [done|]. intros k p. by apply find_udf_dl_None.
  - apply N.eqb_neq in Hf. apply Hbind; try done.
    right. by apply find_udf_dl_Some.
Qed.

Lemma find_udf_dl_zero (st : udf_state) (path : string) :
  (∀ k p, udf_hash st !! k = Some p -> dl (deref st p) = path ->
          dlhandle (deref st p) = 0) ->
  find_udf_dl st path = 0.
Proof.
  intros Hnone. destruct (N.eq_dec (find_udf_dl st path) 0) as [|Hnz]; [done|].
  destruct (find_udf_dl_Some st path Hnz) as (k & p & Hk & Hd & Hh).
  rewrite (Hnone _ _ Hk Hd) in Hh. congruence.
Qed.

(** What a row registers: nothing new, or the cell the allocator had
    next. *)
Lemma udf_init_row_values (env : Env) (st : udf_state) (r : func_row)
                          (k : string) (p : N) :
  wf_registry st ->
  udf_hash (udf_init_row env st r) !! k = Some p ->
  (p = mem_next st ∧ k = row_name r ∧ udf_hash st !! row_name r = None)
  ∨ udf_hash st !! k = Some p.
Proof.
  intros Hwf Hk.
  destruct (udf_init_row_outcome env st r Hwf) as (_ & _ & _ & Hne & Hcases).
  destruct (decide (k = row_name r)) as [->|Hkr].
  - destruct Hcases as [Heq|[Hnone|(Hfree & Hsome & _)]].
    + right. by rewrite <- Heq.
    + congruence.
    + left. split_and!; congruence.
  - right. by rewrite <- Hne.
Qed.

(** A row of the startup scan keeps the invariant of the registry, and
    keeps the handles among those [dlopen] gives. *)
Lemma udf_init_row_inv (env : Env) (st : udf_state) (r : func_row) :
  registry_inv st -> handles_from env st ->
  registry_inv (udf_init_row env st r) ∧ handles_from env (udf_init_row env st r).
Proof.
  intros Hinv Hfrom. pose proof Hinv as [Hwf _]. pose proof Hwf as [Hnx Hreg].
  destruct (udf_init_row_outcome env st r Hwf)
    as (_ & Hle & Hfr & Hne & Hcases).
  set (st' := udf_init_row env st r) in *.
  assert (∀ k p, udf_hash st !! k = Some p -> deref st' p = deref st p) as Hsame.
  { intros k p Hk. unfold deref. rewrite Hfr; [done|].
    specialize (Hreg _ _ Hk). lia. }
  assert (∀ k, udf_hash st' !! k = Some (mem_next st) ->
               k = row_name r ∧ udf_hash st !! row_name r = None) as Hnewkey.
  { intros k Hk. destruct (udf_init_row_values env st r k _ Hwf Hk)
      as [(_ & ? & ?)|Hold]; [done|].
    specialize (Hreg _ _ Hold). lia. }
  assert (∀ k, udf_hash st' !! k = Some (mem_next st) ->
               mem_next st < mem_next st' ∧
               dl (deref st' (mem_next st)) = row_dl r ∧
               (dlhandle (deref st' (mem_next st)) ≠ 0 ->
                handle_origin env st (row_dl r)
                              (dlhandle (deref st' (mem_next st))))) as Hnew.
  { intros k Hk. destruct (Hnewkey _ Hk) as [-> Hfree].
    destruct Hcases as [Heq|[Hnone|(_ & _ & Hn & _ & _ & _ & Hdl & _ & Hh)]].
    - rewrite Heq, Hfree in Hk. congruence.
    - congruence.
    - split_and!; [lia|done|]. intros Hnz.
      destruct Hh as [[Hz _]|[_ Ho]]; [congruence|done]. }
  split.
  - apply (registry_inv_grow env st st' (mem_next st)); try done; try lia.
    + intros k p Hk.
      destruct (udf_init_row_values env st r k p Hwf Hk) as [(-> & _)|Hold];
        [by left|right; by exists k].
    + intros k p Hk. by rewrite (Hsame _ _ Hk).
    + intros k Hk. destruct (Hnew _ Hk) as (Hlt & Hdl & Ho).
      split; [done|]. rewrite Hdl. done.
  - intros k p Hk Hh.
    destruct (udf_init_row_values env st r k p Hwf Hk) as [(-> & _)|Hold].
    + destruct (Hnew _ Hk) as (_ & Hdl & Ho). rewrite Hdl.
      destruct (Ho Hh) as [[Hopen _]|(k0 & p0 & Hk0 & Hd0 & Hh0)].
      * congruence.
      * rewrite <- Hd0. apply (Hfrom k0); [done|]. congruence.
    + rewrite (Hsame _ _ Hold) in *. by apply (Hfrom k).
Qed.

(** The rows of a scan, one after the other. *)
Lemma udf_init_rows_frame (env : Env) (l : list func_row) (st : udf_state) :
  registry_inv st -> handles_from env st ->
  let st' := fold_left (udf_init_row env) l st in
  registry_inv st' ∧ handles_from env st' ∧
  mem_next st <= mem_next st' ∧ initialized st' = initialized st ∧
  (∀ q, q < mem_next st -> mem st' !! q = mem st !! q) ∧
  (∀ k, k ∉ row_name <$> l -> udf_hash st' !! k = udf_hash st !! k).
Proof.
  revert st. induction l as [|r l IH]; intros st Hinv Hfrom; simpl.
  { split_and!; done. }
  destruct (udf_init_row_inv env st r Hinv Hfrom) as [Hinv1 Hfrom1].
  destruct Hinv as [Hwf _].
  destruct (udf_init_row_outcome env st r Hwf) as (Hi1 & Hle1 & Hfr1 & Hne1 & _).
  destruct (IH _ Hinv1 Hfrom1) as (H1 & H2 & H3 & H4 & H5 & H6).
  split_and!; try done.
  - lia.
  - by rewrite H4.
  - intros q Hq. rewrite H5 by lia. apply Hfr1. lia.
  - intros k Hk. apply not_elem_of_cons in Hk as [Hk1 Hk2].
    rewrite H6 by done. by apply Hne1.
Qed.

(** A row whose library cannot be opened, no registered descriptor of
    that library having a handle: the function is registered without a
    handle. *)
Lemma udf_init_row_open_fails (env : Env) (st : udf_state) (r : func_row) :
  udf_hash st !! row_name r = None ->
  check_valid_path env (row_dl r) = false ->
  check_string_char_length env (row_name r) = false ->
  default UDFTYPE_FUNCTION (row_type r) = UDFTYPE_FUNCTION
  ∨ default UDFTYPE_FUNCTION (row_type r) = UDFTYPE_AGGREGATE ->
  alloc_root_fails env = false ->
  mem_next st ≠ 0 ->
  dlopen env (row_dl r) = 0 ->
  (∀ k p, udf_hash st !! k = Some p -> p ≠ mem_next st) ->
  (∀ k p, udf_hash st !! k = Some p -> dl (deref st p) = row_dl r ->
          dlhandle (deref st p) = 0) ->
  let st' := udf_init_row env st r in
  udf_hash st' = <[row_name r := mem_next st]> (udf_hash st) ∧
  deref st' (mem_next st)
  = mk_udf_func (row_name r) (row_ret r) (default UDFTYPE_FUNCTION (row_type r))
                (row_dl r) 0 0 0 0 0 0 1 ∧
  mem_next st < mem_next st'.
Proof.
  intros Hk Hcp Hcl Hty Ha Hnx Ho Hfresh Hnone st'. subst st'.
  unfold udf_init_row. rewrite Hcp, Hcl. simpl.
  destruct (add_udf_fresh env (row_name r) (row_ret r) (row_dl r) _ st Hk Hty Ha Hnx)
    as (H1 & H2 & H3 & H4 & _).
  pose proof (add_udf_cases env (row_name r) (row_ret r) (row_dl r)
                (default UDFTYPE_FUNCTION (row_type r)) st)
    as (_ & _ & _ & _ & Hcases).
  destruct (add_udf env (row_name r) (row_ret r) (row_dl r) _ st) as [tmp st1].
  simpl in *. subst tmp.
  destruct Hcases as [(? & _)|(_ & _ & _ & _ & _ & _ & Hn1)]; [done|].
  apply N.eqb_neq in Hnx. rewrite Hnx. rewrite H3. simpl.
  assert (find_udf_dl st1 (row_dl r) = 0) as ->.
  { apply find_udf_dl_zero. intros k p Hkp Hd.
    rewrite H2 in Hkp. apply lookup_insert_Some in Hkp as [[_ <-]|[_ Hkp]].
    - by rewrite H3.
    - assert (deref st1 p = deref st p) as Heq.
      { unfold deref. rewrite H4; [done|]. by apply (Hfresh k). }
      rewrite Heq in *. by apply (Hnone k). }
  simpl. rewrite Ho. simpl. rewrite !deref_log.
  split_and!; try done. rewrite Hn1. lia.
Qed.

(** ** DROP FUNCTION: what is removed and what is closed *)

Lemma udf_hash_delete_ext (udf : N) (st st' : udf_state) :
  mem st' = mem st -> udf_hash st' = udf_hash st ->
  udf_hash (udf_hash_delete udf st') = udf_hash (udf_hash_delete udf st) ∧
  mem (udf_hash_delete udf st') = mem (udf_hash_delete udf st).
Proof.
  intros Hm Hh. unfold udf_hash_delete, deref, store. simpl.
  rewrite Hm, Hh.
  destruct (udf_hash st !! _); simpl; [|done].
  destruct (_ =? 0); simpl; by rewrite ?Hm, ?Hh.
Qed.

Lemma udf_hash_delete_trace_cases (udf : N) (st : udf_state) :
  trace (udf_hash_delete udf st) = trace st
  ∨ trace (udf_hash_delete udf st) = EvAssert :: trace st.
Proof.
  destruct (udf_hash st !! name (deref st udf)) as [q|] eqn:Hk.
  - left. by apply (udf_hash_delete_trace _ _ q).
  - right. by rewrite udf_hash_delete_unregistered.
Qed.

(** DROP FUNCTION of a name that is a key of the hash: the descriptor
    goes through [udf_hash_delete] whatever the collaborators answer, and
    its library is closed, once, exactly when it has a handle and no
    descriptor left in the hash has a handle for that library. *)
Lemma mysql_drop_function_outcome (env : Env) (nm : string) (st : udf_state)
                                  (p : N) :
  initialized st = true ->
  open_tables_fails env = false ->
  udf_hash st !! nm = Some p ->
  let d := mysql_drop_function env nm st in
  let st1 := udf_hash_delete p st in
  udf_hash d.2 = udf_hash st1 ∧ mem d.2 = mem st1 ∧
  mem_next d.2 = mem_next st ∧ initialized d.2 = true ∧
  ∃ evs, appended st d.2 evs ∧
    (∀ c a, EvMyError c a ∉ evs) ∧
    (EvRollbackStmt ∈ evs ∨ EvCommitStmt ∈ evs) ∧
    ((∀ h, EvDlclose h ∉ evs) ∧
     (dlhandle (deref st p) = 0 ∨ find_udf_dl d.2 (dl (deref st p)) ≠ 0)
     ∨ (∃ evs', evs = EvDlclose (dlhandle (deref st p)) :: evs' ∧
                (∀ h, EvDlclose h ∉ evs') ∧
                dlhandle (deref st p) ≠ 0 ∧
                find_udf_dl d.2 (dl (deref st p)) = 0)).
Proof.
  intros Hi Ho Hk d st1. subst d.
  destruct (mysql_drop_function_found env nm st p Hi Ho Hk)
    as (evs0 & st0 & Hst0 & Hev0 & Heq).
  simpl in Heq. rewrite udf_end_transaction_drop in Heq. simpl in Heq.
  rewrite Heq. clear Heq. simpl.
  assert (mem st0 = mem st ∧ udf_hash st0 = udf_hash st ∧
          mem_next st0 = mem_next st ∧ initialized st0 = true ∧
          trace st0 = evs0 ++ trace st) as (Hm0 & Hh0 & Hn0 & Hi0 & Ht0)
    by (by subst st0).
  clear Hst0.
  destruct (udf_hash_delete_ext p st st0 Hm0 Hh0) as [Hh1 Hm1].
  pose proof (udf_hash_delete_frame p st0) as (Hn1 & Hi1 & _ & _ & _ & Hid1).
  pose proof (udf_hash_delete_trace_cases p st0) as Ht1.
  fold st1 in Hh1, Hm1.
  set (st1' := udf_hash_delete p st0) in *.
  set (rb := transaction_rollback_request env || _).
  assert (∃ evs1 t2,
            (if rb then trans_rollback env st1' else trans_commit env st1').2 = t2 ∧
            udf_hash t2 = udf_hash st1' ∧ mem t2 = mem st1' ∧
            mem_next t2 = mem_next st1' ∧ initialized t2 = initialized st1' ∧
            trace t2 = evs1 ++ trace st1' ∧
            (EvRollbackStmt ∈ evs1 ∨ EvCommitStmt ∈ evs1) ∧
            ∀ e, e ∈ evs1 -> e ∈ [EvRollbackStmt; EvRollbackImplicit;
                                  EvCommitStmt; EvCommitImplicit])
    as (evs1 & t2 & Ht2 & Hh2 & Hm2 & Hn2 & Hi2 & Htr2 & Hend & Hall).
  { destruct rb.
    - destruct (trans_rollback_frame env st1')
        as (H1 & H2 & H3 & evs & H4 & H5 & H6).
      exists evs, (trans_rollback env st1').2. split_and!; try done.
      + unfold trans_rollback. by destruct (trans_rollback_stmt env).
      + by left.
      + rewrite Forall_forall in H6. intros e He. apply H6 in He.
        revert He. solve_elem.
    - destruct (trans_commit_frame env st1')
        as (H1 & H2 & H3 & _ & evs & H4 & H5 & H6).
      exists evs, (trans_commit env st1').2. split_and!; try done.
      + unfold trans_commit. by destruct (trans_commit_stmt env).
      + by right.
      + rewrite Forall_forall in H6. intros e He. apply H6 in He.
        revert He. solve_elem. }
  rewrite Ht2. clear Ht2.
  assert (deref t2 p = deref st1' p) as Hd2 by (unfold deref; by rewrite Hm2).
  destruct (Hid1 p) as (_ & Hdl & Hhd).
  assert (deref st0 p = deref st p) as Hd0 by (unfold deref; by rewrite Hm0).
  rewrite Hd2, Hdl, Hhd, Hd0.
  rewrite Forall_forall in Hev0.
  assert (∃ evsA, trace st1' = evsA ++ evs0 ++ trace st ∧
                  ∀ e, e ∈ evsA -> e = EvAssert) as (evsA & HtA & HallA).
  { destruct Ht1 as [Ht1|Ht1]; rewrite Ht1, Ht0.
    - exists []. split; [done|]. intros e He. elem_cases.
    - exists [EvAssert]. split; [done|]. intros e He. elem_cases. }
  destruct (dlhandle (deref st p) =? 0) eqn:Hz; simpl.
  - apply N.eqb_eq in Hz.
    split_and!; try congruence.
    exists (evs1 ++ evsA ++ evs0). unfold appended. split_and!.
    + rewrite Htr2, HtA. by rewrite <- !app_assoc.
    + intros c a Hin. elem_cases.
    + destruct Hend; [left|right]; solve_elem.
    + left. split; [|by left]. intros h Hin. elem_cases.
  - apply N.eqb_neq in Hz.
    destruct (find_udf_dl t2 (dl (deref st p)) =? 0) eqn:Hf; simpl.
    + apply N.eqb_eq in Hf.
      split_and!; try congruence.
      exists (EvDlclose (dlhandle (deref st p)) :: evs1 ++ evsA ++ evs0).
      unfold appended. split_and!.
      * simpl. rewrite Htr2, HtA. by rewrite <- !app_assoc.
      * intros c a Hin. elem_cases.
      * destruct Hend; [left|right]; solve_elem.
      * right. exists (evs1 ++ evsA ++ evs0). split_and!; try done.
        intros h Hin. elem_cases.
    + apply N.eqb_neq in Hf.
      split_and!; try congruence.
      exists (evs1 ++ evsA ++ evs0). unfold appended. split_and!.
      * rewrite Htr2, HtA. by rewrite <- !app_assoc.
      * intros c a Hin. elem_cases.
      * destruct Hend; [left|right]; solve_elem.
      * left. split; [|by right]. intros h Hin. elem_cases.
Qed.

(** C10. Let the startup scan read rows with distinct names, and let [r]
    be one of them that passes the checks and whose library [dlopen]
    cannot open. After the scan the function of [r] is registered under
    its name, without a library handle. Every [find_udf] of the name, with
    or without [mark_used], returns nothing. DROP FUNCTION of the name
    finds the descriptor (no error is reported by [my_error] and the
    transaction is brought to its end), erases its entry from the hash,
    and closes no library. *)
Theorem udf_init_unopened_library (env : Env) (rows : list func_row)
                                  (r : func_row) (st : udf_state) :
  initialized st = false ->
  0 < mem_next st ->
  thd_alloc_fails env = false ->
  open_tables_fails env = false ->
  init_read_record_fails env = false ->
  alloc_root_fails env = false ->
  NoDup (row_name <$> rows) ->
  r ∈ rows ->
  check_valid_path env (row_dl r) = false ->
  check_string_char_length env (row_name r) = false ->
  default UDFTYPE_FUNCTION (row_type r) = UDFTYPE_FUNCTION
  ∨ default UDFTYPE_FUNCTION (row_type r) = UDFTYPE_AGGREGATE ->
  dlopen env (row_dl r) = 0 ->
  let st' := udf_init env rows st in
  ∃ p, udf_hash st' !! row_name r = Some p ∧ p ≠ 0 ∧
       name (deref st' p) = row_name r ∧
       dlhandle (deref st' p) = 0 ∧
       (∀ nm len mark, find_key nm len = row_name r ->
                       (find_udf nm len mark st').1 = 0) ∧
       (∀ env', open_tables_fails env' = false ->
                let d := mysql_drop_function env' (row_name r) st' in
                udf_hash d.2 = delete (row_name r) (udf_hash st') ∧
                ∃ evs, appended st' d.2 evs ∧
                       (∀ c a, EvMyError c a ∉ evs) ∧
                       (∀ h, EvDlclose h ∉ evs) ∧
                       (EvRollbackStmt ∈ evs ∨ EvCommitStmt ∈ evs)).
Proof.
  intros Hi Hnx Hthd Hopen Hrd Ha Hnd Hr Hcp Hcl Hty Hdl st'.
  set (st0 := set_initialized true (set_udf_hash ∅ (set_lock 0 st))).
  assert (registry_inv st0 ∧ handles_from env st0) as [Hinv0 Hfrom0].
  { split; [split; [split|]|]; try done.
    all: intros k; intros; simpl in *; by rewrite ?lookup_empty in *. }
  apply list_elem_of_split in Hr as (l1 & l2 & ->).
  rewrite fmap_app, fmap_cons in Hnd.
  apply NoDup_app in Hnd as (_ & Hn1 & Hn2).
  apply NoDup_cons in Hn2 as [Hn2 _].
  assert (row_name r ∉ row_name <$> l1) as Hn1'.
  { intros Hin. apply (Hn1 _ Hin). by left. }
  (* the rows before [r] *)
  destruct (udf_init_rows_frame env l1 st0 Hinv0 Hfrom0)
    as (HinvA & HfromA & HleA & HiA & _ & HkA).
  set (sA := fold_left (udf_init_row env) l1 st0) in *.
  pose proof HinvA as [[HnxA HregA] _].
  (* the row [r] *)
  assert (udf_hash sA !! row_name r = None) as HkA'.
  { rewrite HkA by done. subst st0. simpl. apply lookup_empty. }
  destruct (udf_init_row_open_fails env sA r) as (HhB & HdB & HltB);
    try done; try lia.
  { intros k p Hk. specialize (HregA _ _ Hk). lia. }
  { intros k p Hk Hd.
    destruct (N.eq_dec (dlhandle (deref sA p)) 0) as [|Hnz]; [done|].
    specialize (HfromA _ _ Hk Hnz). congruence. }
  destruct (udf_init_row_inv env sA r HinvA HfromA) as [HinvB HfromB].
  destruct (udf_init_row_outcome env sA r (proj1 HinvA)) as (HiB & _).
  set (sB := udf_init_row env sA r) in *.
  (* the rows after [r] *)
  destruct (udf_init_rows_frame env l2 sB HinvB HfromB)
    as (_ & _ & _ & HiC & HmC & HkC).
  set (sC := fold_left (udf_init_row env) l2 sB) in *.
  set (p := mem_next sA) in *.
  assert (udf_hash sC !! row_name r = Some p) as HkC'.
  { rewrite HkC by done. rewrite HhB. by rewrite lookup_insert_eq. }
  assert (deref sC p = deref sB p) as HdC.
  { unfold deref. by rewrite HmC. }
  assert (initialized sC = true) as HiC'.
  { rewrite HiC, HiB, HiA. done. }
  (* the state [udf_init] returns *)
  assert (udf_hash st' = udf_hash sC ∧ mem st' = mem sC ∧
          initialized st' = initialized sC) as (Hh' & Hm' & Hi').
  { subst st'. unfold udf_init. rewrite Hi, Hthd, Hopen, Hrd.
    rewrite fold_left_app. simpl. fold st0. fold sA. fold sB. fold sC.
    by destruct (0 <? read_record_error env)%Z. }
  assert (deref st' p = deref sC p) as Hd' by (unfold deref; by rewrite Hm').
  exists p. rewrite Hh', Hd', HdC, HdB. simpl.
  split_and!; try done.
  - subst p. lia.
  - intros nm len mark Hkey. rewrite find_udf_result by (by rewrite Hi').
    by rewrite Hkey, Hh', HkC', Hd', HdC, HdB.
  - intros env' Hopen'.
    set (d := mysql_drop_function env' (row_name r) st').
    assert (initialized st' = true) as Hi'' by (by rewrite Hi').
    assert (udf_hash st' !! row_name r = Some p) as Hk' by (by rewrite Hh').
    destruct (mysql_drop_function_outcome env' (row_name r) st' p Hi'' Hopen' Hk')
      as (Hhd & _ & _ & _ & evs & Happ & Hmy & Hend & Hclose).
    fold d in Hhd, Happ, Hclose.
    assert (udf_hash st' !! name (deref st' p) = Some p) as Hkn
      by (by rewrite Hd', HdC, HdB).
    assert (usage_count (deref st' p) = 1) as Hcnt
      by (by rewrite Hd', HdC, HdB).
    rewrite (udf_hash_delete_last _ _ _ Hkn Hcnt) in Hhd.
    rewrite Hd', HdC, HdB in Hhd. simpl in Hhd. rewrite Hh' in Hhd.
    split; [done|]. exists evs. split_and!; try done.
    destruct Hclose as [[Hno _]|(evs' & _ & _ & Hnz & _)]; [done|].
    rewrite Hd', HdC, HdB in Hnz. done.
Qed.

(** ** The invariant holds in every reachable state *)

Lemma registry_inv_ext (st st' : udf_state) :
  mem st' = mem st -> udf_hash st' = udf_hash st ->
  mem_next st' = mem_next st ->
  registry_inv st -> registry_inv st'.
Proof.
  intros Hm Hh Hn [[Hnx Hwf] Hsh]. split; [split|].
  - by rewrite Hn.
  - intros k p. rewrite Hh, Hn. apply Hwf.
  - intros k1 k2 p1 p2. unfold deref. rewrite Hh, Hm. apply Hsh.
Qed.

Lemma run_client_inv (st : udf_state) (o : client_op) :
  registry_inv st -> registry_inv (run_client st o).
Proof.
  intros Hinv. destruct o as [nm len mark|udf]; simpl.
  - destruct (find_udf_frame nm len mark st) as (Hn & Hh & _ & Hid).
    apply (registry_inv_shrink st); try done.
    + by rewrite Hn.
    + intros k p. rewrite Hh. by exists k.
    + intros k p _. by destruct (Hid p) as (_ & ? & ?).
  - destruct (free_udf_frame udf st) as (Hn & _ & Hval & Hid).
    apply (registry_inv_shrink st); try done.
    + by rewrite Hn.
    + intros k p Hk. exists k. by apply Hval.
    + intros k p _. by destruct (Hid p) as (_ & ? & ?).
Qed.

Lemma mysql_drop_function_inv (env : Env) (nm : string) (st : udf_state) :
  registry_inv st -> registry_inv (mysql_drop_function env nm st).2.
Proof.
  intros Hinv.
  destruct (initialized st) eqn:Hi.
  2:{ unfold mysql_drop_function. rewrite Hi. simpl.
      by apply (registry_inv_ext st). }
  destruct (open_tables_fails env) eqn:Ho.
  { unfold mysql_drop_function. by rewrite Hi, Ho. }
  destruct (udf_hash st !! nm) as [p|] eqn:Hk.
  2:{ unfold mysql_drop_function. rewrite Hi, Ho. simpl. rewrite Hk.
      by apply (registry_inv_ext st). }
  destruct (mysql_drop_function_outcome env nm st p Hi Ho Hk)
    as (Hh & Hm & Hn & _).
  destruct (udf_hash_delete_frame p st) as (Hn1 & _ & Hval & _ & _ & Hid).
  apply (registry_inv_ext (udf_hash_delete p st)); try done; [congruence|].
  apply (registry_inv_shrink st); try done.
  - by rewrite Hn1.
  - intros k q Hq. destruct (Hval _ _ Hq) as [[-> _]|Hold].
    + by exists nm.
    + by exists k.
  - intros k q _. by destruct (Hid q) as (_ & ? & ?).
Qed.

Lemma mysql_create_function_inv (env : Env) (u : udf_func) (st : udf_state) :
  registry_inv st -> registry_inv (run_op env st (OpCreate u)).
Proof.
  intros Hinv. pose proof Hinv as [[Hnx Hwf] _]. simpl.
  set (udf := mem_next st).
  set (st1 := set_mem_next (udf + 1) (store udf u st)).
  assert (∀ k p, udf_hash st !! k = Some p -> p ≠ udf) as Hfresh.
  { intros k p Hk. specialize (Hwf _ _ Hk). subst udf. lia. }
  assert (registry_inv st1) as Hinv1.
  { apply (registry_inv_shrink st); try done.
    - subst st1. simpl. lia.
    - intros k p Hk. by exists k.
    - intros k p Hk. subst st1. rewrite deref_set_mem_next.
      rewrite deref_store_ne; [done|]. intros ->. by apply (Hfresh k p). }
  destruct (mysql_create_function_outcome env udf st1)
    as (evs & _ & [(_ & Hh & _ & _ & _ & Hfr & Hle)
                  |(_ & Hk & _ & Hh & _ & _ & Hid & Hfr & Hn & _)]).
  - apply (registry_inv_shrink st1); try done.
    + intros k p. rewrite Hh. by exists k.
    + intros k p Hkp. unfold deref. rewrite Hfr; [done|].
      by apply (Hfresh k).
  - set (c := mysql_create_function env udf st1) in *.
    destruct Hid as (_ & _ & _ & Hdl & Hhd & _).
    apply (registry_inv_grow env st1 c.2 (mem_next st1)); try done.
    + lia.
    + intros k p. rewrite Hh. intros Hkp.
      apply lookup_insert_Some in Hkp as [[_ <-]|[_ Hkp]]; [by left|].
      right. by exists k.
    + intros k p Hkp. unfold deref. rewrite Hfr; [done| |].
      * by apply (Hfresh k).
      * specialize (Hwf _ _ Hkp). subst st1. simpl. lia.
    + intros k _. split; [lia|]. intros _. rewrite Hdl, Hhd. simpl.
      apply create_handle_origin.
Qed.

Lemma udf_init_inv (env : Env) (rows : list func_row) (st : udf_state) :
  registry_inv st -> registry_inv (udf_init env rows st).
Proof.
  intros Hinv. pose proof Hinv as [[Hnx _] _]. unfold udf_init.
  destruct (initialized st); [done|].
  destruct (thd_alloc_fails env).
  { by apply (registry_inv_ext st). }
  set (st0 := set_initialized true (set_udf_hash ∅ (set_lock 0 st))).
  assert (registry_inv st0 ∧ handles_from env st0) as [Hinv0 Hfrom0].
  { split; [split; [split|]|]; try done.
    all: intros k; intros; simpl in *; by rewrite ?lookup_empty in *. }
  destruct (open_tables_fails env).
  { by apply (registry_inv_ext st0). }
  destruct (init_read_record_fails env); [done|].
  destruct (udf_init_rows_frame env rows st0 Hinv0 Hfrom0) as (Hinv' & _).
  destruct (0 <? read_record_error env)%Z; [|done].
  by eapply registry_inv_ext; [| | |exact Hinv'].
Qed.

Lemma reachable_inv (st : udf_state) : reachable st -> registry_inv st.
Proof.
  induction 1 as [base Hb|env st o _ IH].
  - split; [split|]; try done.
    all: intros k; intros; simpl in *; by rewrite ?lookup_empty in *.
  - destruct o as [rows|u|nm|o].
    + by apply udf_init_inv.
    + by apply mysql_create_function_inv.
    + by apply mysql_drop_function_inv.
    + by apply run_client_inv.
Qed.

(** C5 (amended). In every state the server can reach, two registered
    descriptors of one library that both have a handle have the same
    handle. And DROP FUNCTION closes at most one handle, that of the
    dropped descriptor, and only when no descriptor left in the registry
    has a handle for that library. *)
Theorem shared_library_handle :
  (∀ st, reachable st -> shares_handles st) ∧
  (∀ env nm st,
     let d := mysql_drop_function env nm st in
     ∃ evs, appended st d.2 evs ∧
       ((∀ h, EvDlclose h ∉ evs)
        ∨ ∃ p evs',
            udf_hash st !! nm = Some p ∧
            evs = EvDlclose (dlhandle (deref st p)) :: evs' ∧
            (∀ h, EvDlclose h ∉ evs') ∧
            dlhandle (deref st p) ≠ 0 ∧
            ∀ k q, udf_hash d.2 !! k = Some q ->
                   dl (deref d.2 q) = dl (deref st p) ->
                   dlhandle (deref d.2 q) = 0)).
Proof.
  split.
  - intros st Hr. by destruct (reachable_inv st Hr).
  - intros env nm st d. subst d. unfold appended.
    destruct (initialized st) eqn:Hi.
    2:{ unfold mysql_drop_function. rewrite Hi. simpl.
        eexists [_]. split; [reflexivity|]. left.
        intros h Hin. destruct (opt_noacl env); elem_cases. }
    destruct (open_tables_fails env) eqn:Ho.
    { unfold mysql_drop_function. rewrite Hi, Ho. simpl.
      exists []. split; [reflexivity|]. left. intros h Hin. elem_cases. }
    destruct (udf_hash st !! nm) as [p|] eqn:Hk.
    2:{ unfold mysql_drop_function. rewrite Hi, Ho. simpl. rewrite Hk.
        eexists [_]. split; [reflexivity|]. left.
        intros h Hin. elem_cases. }
    destruct (mysql_drop_function_outcome env nm st p Hi Ho Hk)
      as (_ & _ & _ & _ & evs & Happ & _ & _ & Hclose).
    exists evs. split; [done|].
    destruct Hclose as [[Hno _]|(evs' & -> & Hno & Hnz & Hf)]; [by left|].
    right. exists p, evs'. split_and!; try done.
    intros k q. by apply find_udf_dl_None.
Qed.

(** * The properties at concrete inputs *)

Import Demo.

Ltac by_compute := vm_compute; reflexivity.

(** C1 at [myfunc] held by one caller: after the rename and the release
    the count is 0, yet the descriptor is still in the hash under its
    shadow key, the assertion has fired and no library was closed. *)
Lemma free_udf_after_rename_witness :
  (initialized st_held = true ∧
   udf_hash st_held !! "myfunc" = Some base ∧
   usage_count (deref st_held base) = 2) ∧
  udf_hash (Nat.iter 1 (free_udf base) (udf_hash_delete base st_held))
    !! shadow_key base = Some base ∧
  trace (Nat.iter 1 (free_udf base) (udf_hash_delete base st_held))
  = EvAssert :: trace st_held.
Proof.
  assert (initialized st_held = true) as H1 by by_compute.
  assert (udf_hash st_held !! "myfunc" = Some base) as H2
    by by_compute.
  assert (name (deref st_held base) = "myfunc") as H3
    by by_compute.
  assert ("myfunc" ≠ shadow_key base) as H4
    by (intros H; vm_compute in H; discriminate H).
  assert (udf_hash st_held !! shadow_key base = None) as H5
    by by_compute.
  assert (usage_count (deref st_held base) = N.of_nat 0 + 2) as H6
    by by_compute.
  assert (N.of_nat 0 + 2 < ULONG_MOD) as H7 by by_compute.
  destruct (free_udf_after_rename st_held "myfunc" base 0 H1 H2 H3 H4 H5 H6 H7)
    as (_ & Hkey & _ & Htrace & _).
  split; [split; [exact H1|split; [exact H2|vm_compute; reflexivity]]|].
  split; [exact Hkey|exact Htrace].
Defined.

(** At [myfunc] held by one caller: after [udf_hash_delete] a lookup
    finds nothing, also after the holder's release, while the holder's
    descriptor keeps a positive count and nothing was closed. *)
Example udf_hash_delete_hides_myfunc :
  (udf_hash st_held !! "myfunc" = Some base ∧
   1 < usage_count (deref st_held base) < ULONG_MOD) ∧
  (find_udf "myfunc" 0 true
     (fold_left run_client [] (udf_hash_delete base st_held))).1 = 0 ∧
  (find_udf "myfunc" 0 false
     (fold_left run_client [Release base] (udf_hash_delete base st_held))).1 = 0 ∧
  0 < usage_count (deref (udf_hash_delete base st_held) base) ∧
  trace (udf_hash_delete base st_held) = trace st_held.
Proof.
  assert (udf_hash st_held !! "myfunc" = Some base) as H1 by by_compute.
  assert (name (deref st_held base) = "myfunc") as H2 by by_compute.
  assert ("myfunc" ≠ shadow_key base) as H3
    by (intros H; vm_compute in H; discriminate H).
  assert (1 < usage_count (deref st_held base) < ULONG_MOD) as H4
    by (split; by_compute).
  assert (find_key "myfunc" 0 = "myfunc") as H5 by by_compute.
  destruct (udf_hash_delete_hides_name st_held "myfunc" base H1 H2 H3)
    as [Hlook Hheld].
  destruct (Hheld H4) as (_ & Hpos & _ & Htrace & _).
  split; [split; [exact H1|exact H4]|].
  split; [exact (Hlook [] "myfunc" 0%nat true H5)|].
  split; [exact (Hlook [Release base] "myfunc" 0%nat false H5)|].
  split; [exact Hpos|exact Htrace].
Defined.

(** C2 at the function [*<0x5581a0>], whose descriptor sits at
    [0x5581a0], held by one caller: after [udf_hash_delete] the lookups
    of the name still hand the descriptor out. *)
Lemma udf_hash_delete_key_collision_witness :
  (udf_hash st_star !! star = Some base ∧
   name (deref st_star base) = star ∧
   shadow_key base = star ∧
   1 < usage_count (deref st_star base) < ULONG_MOD) ∧
  udf_hash (udf_hash_delete base st_star) !! star = Some base ∧
  (find_udf star 0 false (udf_hash_delete base st_star)).1 = base ∧
  (find_udf star 0 true (udf_hash_delete base st_star)).1 = base.
Proof.
  assert (initialized st_star = true) as H1 by by_compute.
  assert (udf_hash st_star !! star = Some base) as H2 by by_compute.
  assert (name (deref st_star base) = star) as H3 by by_compute.
  assert (shadow_key base = star) as H4 by by_compute.
  assert (1 < usage_count (deref st_star base) < ULONG_MOD) as H5
    by (split; by_compute).
  assert (dlhandle (deref st_star base) ≠ 0) as H6
    by (intros H; vm_compute in H; discriminate H).
  assert (find_key star 0 = star) as H7 by by_compute.
  destruct (udf_hash_delete_key_collision st_star star base H1 H2 H3 H4 H5 H6)
    as [Hkey Hfind].
  split; [split; [exact H2|split; [exact H3|split; [exact H4|exact H5]]]|].
  split; [exact Hkey|].
  split; [exact (Hfind star 0%nat false H7)|exact (Hfind star 0%nat true H7)].
Defined.

(** C3 at [myfunc] with a row that cannot be deleted: the statement
    fails, and [myfunc] is gone from the hash. *)
Lemma mysql_drop_function_failure_witness :
  (udf_hash st_myfunc !! "myfunc" = Some base ∧
   ha_delete_row_fails env_rowfail = true) ∧
  (mysql_drop_function env_rowfail "myfunc" st_myfunc).1 = true ∧
  udf_hash (mysql_drop_function env_rowfail "myfunc" st_myfunc).2 !! "myfunc"
  = None.
Proof.
  assert (initialized st_myfunc = true) as H1 by by_compute.
  assert (open_tables_fails env_rowfail = false) as H2 by by_compute.
  assert (udf_hash st_myfunc !! "myfunc" = Some base) as H3 by by_compute.
  assert (name (deref st_myfunc base) = "myfunc") as H4 by by_compute.
  assert ("myfunc" ≠ shadow_key base) as H5
    by (intros H; vm_compute in H; discriminate H).
  assert (ha_index_read_fails env_rowfail || ha_delete_row_fails env_rowfail
          || write_bin_log_fails env_rowfail = true) as H6 by by_compute.
  destruct (mysql_drop_function_failure env_rowfail "myfunc" st_myfunc base
              H1 H2 H3 H4 H5 H6) as (Herr & _ & Hgone & _).
  split; [split; [exact H3|by_compute]|].
  split; [exact Herr|exact Hgone].
Defined.

(** C4 (amended) at a CREATE FUNCTION whose row cannot be written: the
    hash is left as it was. *)
Lemma mysql_create_function_failure_witness :
  ((mysql_create_function env_rowfail create_myagg.1 create_myagg.2).1 = true ∧
   trans_commit_stmt env_rowfail = false ∧
   trans_commit_implicit env_rowfail = false) ∧
  udf_hash (mysql_create_function env_rowfail create_myagg.1 create_myagg.2).2
  = udf_hash create_myagg.2.
Proof.
  assert ((mysql_create_function env_rowfail create_myagg.1 create_myagg.2).1
          = true) as H1 by by_compute.
  assert (trans_commit_stmt env_rowfail = false) as H2 by by_compute.
  assert (trans_commit_implicit env_rowfail = false) as H3 by by_compute.
  destruct (mysql_create_function_failure env_rowfail create_myagg.1
              create_myagg.2 H1 H2 H3) as [Hh _].
  split; [split; [exact H1|split; [exact H2|exact H3]]|exact Hh].
Defined.

(** C4 as stated fails on a duplicate name: the statement fails, yet the
    registry has an entry for the name afterwards (the one that was
    there), and no rollback was called. *)
Lemma mysql_create_function_failure_counterexample :
  (mysql_create_function env_ok create_dup.1 create_dup.2).1 = true ∧
  ¬ (udf_hash (mysql_create_function env_ok create_dup.1 create_dup.2).2
       !! "myfunc" = None) ∧
  ¬ EvRollbackStmt ∈ trace (mysql_create_function env_ok create_dup.1 create_dup.2).2.
Proof.
  split; [by_compute|]. split.
  - intros H. vm_compute in H. discriminate H.
  - rewrite list_elem_of_In. intros H. vm_compute in H. intuition discriminate.
Qed.

(** What the amended C4 leaves out: when the commit itself fails,
    [add_udf] has already run. The statement fails, the library this
    statement opened is closed, and the descriptor stays in the hash with
    the handle of the closed library. *)
Example mysql_create_function_commit_failure :
  (mysql_create_function env_commitfail create_myagg.1 create_myagg.2).1 = true ∧
  udf_hash (mysql_create_function env_commitfail create_myagg.1 create_myagg.2).2
    !! "myagg" = Some (base + 1) ∧
  dlhandle (deref (mysql_create_function env_commitfail create_myagg.1
                     create_myagg.2).2 (base + 1)) = lib_handle ∧
  head (trace (mysql_create_function env_commitfail create_myagg.1
                 create_myagg.2).2) = Some (EvDlclose lib_handle).
Proof. repeat split; by_compute. Qed.

(** C5 (amended) at two functions of [libdemo.so]: the state is
    reachable and the handles are shared. *)
Lemma shared_library_handle_witness :
  reachable st_shared ∧ shares_handles st_shared.
Proof.
  assert (reachable st_shared) as Hr.
  { unfold st_shared. do 2 apply reachable_step. apply reachable_boot.
    by_compute. }
  split; [exact Hr|]. exact (proj1 shared_library_handle st_shared Hr).
Defined.

(** C5 as stated fails when the library of a function could not be
    opened at startup and a second function of the same library is
    created later: both are registered with the same library path, one
    without a handle and one with the handle of the library. *)
Lemma shared_library_handle_counterexample :
  ¬ (∀ st, reachable st ->
       ∀ k1 k2 p1 p2,
         udf_hash st !! k1 = Some p1 -> udf_hash st !! k2 = Some p2 ->
         dl (deref st p1) = dl (deref st p2) ->
         dlhandle (deref st p1) = dlhandle (deref st p2)).
Proof.
  intros Hclaim.
  assert (reachable st_mixed) as Hr.
  { unfold st_mixed. do 2 apply reachable_step. apply reachable_boot.
    by_compute. }
  assert (udf_hash st_mixed !! "myfunc" = Some base) as H1 by by_compute.
  assert (udf_hash st_mixed !! "myagg" = Some (base + 2)) as H2 by by_compute.
  assert (dl (deref st_mixed base) = dl (deref st_mixed (base + 2))) as H3
    by by_compute.
  specialize (Hclaim st_mixed Hr "myfunc" "myagg" base (base + 2) H1 H2 H3).
  vm_compute in Hclaim. discriminate Hclaim.
Qed.

(** C6 at the registry that holds [myfunc]: the lookup with [mark_used]
    hands the descriptor out with its count incremented, the lookup
    without it hands out the same descriptor and writes nothing. *)
Lemma find_udf_spec_witness :
  (initialized st_myfunc = true ∧
   usable st_myfunc (find_key "myfunc" 0) base) ∧
  (find_udf "myfunc" 0 true st_myfunc).1 = base ∧
  deref (find_udf "myfunc" 0 true st_myfunc).2 base
  = set_usage_count (ulong_inc (usage_count (deref st_myfunc base)))
                    (deref st_myfunc base) ∧
  (find_udf "myfunc" 0 false st_myfunc).1
  = (find_udf "myfunc" 0 true st_myfunc).1 ∧
  mem (find_udf "myfunc" 0 false st_myfunc).2 = mem st_myfunc.
Proof.
  assert (initialized st_myfunc = true) as H1 by by_compute.
  assert (usable st_myfunc (find_key "myfunc" 0) base) as H2.
  { split; [by_compute|]. intros H. vm_compute in H. discriminate H. }
  destruct (find_udf_spec "myfunc" 0 st_myfunc H1)
    as (_ & _ & _ & Hacq & Hro & Hmem & _).
  destruct (Hacq base H2) as (Hp & Hd & _).
  split; [split; [exact H1|exact H2]|].
  split; [exact Hp|]. split; [exact Hd|]. split; [exact Hro|exact Hmem].
Defined.

(** C7 at the aggregate [badagg], whose library has [badagg] and
    [badagg_clear] but no [badagg_add]: CREATE FUNCTION fails and leaves
    no entry. *)
Lemma init_syms_missing_symbol_witness :
  (dlsym env_ok (create_handle env_ok create_badagg.2
                   (dl (deref create_badagg.2 create_badagg.1)))
         (name (deref create_badagg.2 create_badagg.1) +:+ "_add") = 0) ∧
  (mysql_create_function env_ok create_badagg.1 create_badagg.2).1 = true ∧
  udf_hash (mysql_create_function env_ok create_badagg.1 create_badagg.2).2
    !! name (deref create_badagg.2 create_badagg.1) = None.
Proof.
  assert (dlsym env_ok (create_handle env_ok create_badagg.2
                          (dl (deref create_badagg.2 create_badagg.1)))
                (name (deref create_badagg.2 create_badagg.1) +:+ "_add") = 0)
    as Hadd by by_compute.
  destruct (init_syms_missing_symbol env_ok create_badagg.1 create_badagg.2)
    as (_ & _ & _ & _ & Hcreate).
  destruct Hcreate as (Herr & _ & Hnone & _);
    [by_compute|by_compute|by_compute|by_compute|by_compute| |by_compute| |
     right; exact Hadd|].
  - intros H. vm_compute in H. discriminate H.
  - intros H. vm_compute in H. discriminate H.
  - split; [exact Hadd|]. split; [exact Herr|exact Hnone].
Defined.

(** C8 at the bare symbol [abs] of [libdemo.so], declared as a scalar
    function: resolution fails without [allow_suspicious_udfs] and
    succeeds with it. *)
Lemma init_syms_suspicious_witness :
  (dlsym env_ok (dlhandle (deref (st_bound "abs" 1) base))
         (name (deref (st_bound "abs" 1) base)) ≠ 0 ∧
   dlsym env_ok (dlhandle (deref (st_bound "abs" 1) base))
         (name (deref (st_bound "abs" 1) base) +:+ "_init") = 0 ∧
   dlsym env_ok (dlhandle (deref (st_bound "abs" 1) base))
         (name (deref (st_bound "abs" 1) base) +:+ "_deinit") = 0) ∧
  (init_syms env_ok base (st_bound "abs" 1)).1
  = Some (name (deref (st_bound "abs" 1) base) +:+ "_init") ∧
  (init_syms env_allow base (st_bound "abs" 1)).1 = None.
Proof.
  assert (dlsym env_ok (dlhandle (deref (st_bound "abs" 1) base))
                (name (deref (st_bound "abs" 1) base)) ≠ 0) as H1
    by (intros H; vm_compute in H; discriminate H).
  assert (dlsym env_ok (dlhandle (deref (st_bound "abs" 1) base))
                (name (deref (st_bound "abs" 1) base) +:+ "_init") = 0) as H2
    by by_compute.
  assert (dlsym env_ok (dlhandle (deref (st_bound "abs" 1) base))
                (name (deref (st_bound "abs" 1) base) +:+ "_deinit") = 0) as H3
    by by_compute.
  assert (type (deref (st_bound "abs" 1) base) ≠ UDFTYPE_AGGREGATE) as H4
    by (intros H; vm_compute in H; discriminate H).
  destruct (init_syms_suspicious env_ok base (st_bound "abs" 1) H1 H2 H3)
    as (Hoff & _ & _).
  destruct (init_syms_suspicious env_allow base (st_bound "abs" 1) H1 H2 H3)
    as (_ & Hon & _).
  destruct (Hoff H4) as [Hfail _]; [by_compute|].
  destruct (Hon H4) as [Hsucc _]; [by_compute|].
  split; [split; [exact H1|split; [exact H2|exact H3]]|].
  split; [exact Hfail|exact Hsucc].
Defined.

(** C9 at a CREATE FUNCTION of the registered name [myfunc], and at a
    CREATE FUNCTION of the free name [myagg]. *)
Lemma add_udf_insert_spec_witness :
  (udf_hash create_dup.2 !! name (deref create_dup.2 create_dup.1) = Some base ∧
   (mysql_create_function env_ok create_myagg.1 create_myagg.2).1 = false) ∧
  mysql_create_function env_ok create_dup.1 create_dup.2
  = (true, log (EvMyError ER_UDF_EXISTS (name (deref create_dup.2 create_dup.1)))
               create_dup.2) ∧
  udf_hash create_myagg.2 !! name (deref create_myagg.2 create_myagg.1) = None ∧
  ∃ p, p ≠ 0 ∧
       udf_hash (mysql_create_function env_ok create_myagg.1 create_myagg.2).2
       = <[name (deref create_myagg.2 create_myagg.1) := p]>
           (udf_hash create_myagg.2) ∧
       usage_count
         (deref (mysql_create_function env_ok create_myagg.1 create_myagg.2).2 p)
       = 1.
Proof.
  assert (udf_hash create_dup.2 !! name (deref create_dup.2 create_dup.1)
          = Some base) as H1 by by_compute.
  assert ((mysql_create_function env_ok create_myagg.1 create_myagg.2).1
          = false) as H2 by by_compute.
  destruct (add_udf_insert_spec env_ok create_dup.1 create_dup.2)
    as (Hdup & _ & _).
  destruct (add_udf_insert_spec env_ok create_myagg.1 create_myagg.2)
    as (_ & _ & Hins).
  destruct (Hins H2) as (Hfree & p & Hp & Hh & _ & Hc).
  split; [split; [exact H1|exact H2]|].
  split.
  - apply (Hdup base); [by_compute|by_compute|by_compute|by_compute|exact H1].
  - split; [exact Hfree|]. exists p. split; [exact Hp|].
    split; [exact Hh|exact Hc].
Defined.

(** C10 at a scan of the one row of [myfunc] while [libdemo.so] cannot
    be opened. *)
Lemma udf_init_unopened_library_witness :
  (dlopen env_nolib (row_dl row_myfunc) = 0 ∧ NoDup (row_name <$> [row_myfunc])) ∧
  ∃ p, udf_hash (udf_init env_nolib [row_myfunc] (boot_state base))
         !! row_name row_myfunc = Some p ∧
       dlhandle (deref (udf_init env_nolib [row_myfunc] (boot_state base)) p) = 0 ∧
       (find_udf "myfunc" 0 true
          (udf_init env_nolib [row_myfunc] (boot_state base))).1 = 0 ∧
       udf_hash (mysql_drop_function env_ok (row_name row_myfunc)
                   (udf_init env_nolib [row_myfunc] (boot_state base))).2
       = delete (row_name row_myfunc)
           (udf_hash (udf_init env_nolib [row_myfunc] (boot_state base))).
Proof.
  assert (dlopen env_nolib (row_dl row_myfunc) = 0) as Hdl by by_compute.
  assert (NoDup (row_name <$> [row_myfunc])) as Hnd by apply NoDup_singleton.
  assert (row_myfunc ∈ [row_myfunc]) as Hin by apply list_elem_of_here.
  assert (0 < mem_next (boot_state base)) as Hnx by by_compute.
  destruct (udf_init_unopened_library env_nolib [row_myfunc] row_myfunc
              (boot_state base))
    as (p & Hk & _ & _ & Hh & Hfind & Hdrop);
    [by_compute|exact Hnx|by_compute|by_compute|by_compute|by_compute|
     exact Hnd|exact Hin|by_compute|by_compute|left; by_compute|exact Hdl|].
  destruct (Hdrop env_ok) as [Hdel _]; [by_compute|].
  split; [split; [exact Hdl|exact Hnd]|].
  exists p. split; [exact Hk|]. split; [exact Hh|].
  split; [apply Hfind; by_compute|exact Hdel].
Defined.

(** * Further properties of the code *)

(** ** Symbol resolution *)

(** X1. [init_syms] accepts a function exactly when its main symbol
    resolves and, for an aggregate, [_clear] and [_add] resolve, or, for
    any other function, [_init] or [_deinit] resolves or suspicious
    functions are allowed. On acceptance each entry point of the
    descriptor is what [dlsym] answers for the name with its suffix; the
    entry points [func_clear] and [func_add] of a function that is not an
    aggregate are not written. *)
Theorem init_syms_accepts (env : Env) (tmp : N) (st : udf_state) :
  let u := deref st tmp in
  let h := dlhandle u in
  let r := init_syms env tmp st in
  let t := deref r.2 tmp in
  (r.1 = None ↔ resolves env h (name u) (type u) = true) ∧
  (r.1 = None ->
   func t = dlsym env h (name u) ∧
   func_init t = dlsym env h (name u +:+ "_init") ∧
   func_deinit t = dlsym env h (name u +:+ "_deinit") ∧
   (if type u =? UDFTYPE_AGGREGATE
    then func_clear t = dlsym env h (name u +:+ "_clear") ∧
         func_add t = dlsym env h (name u +:+ "_add")
    else func_clear t = func_clear u ∧ func_add t = func_add u)).
Proof.
  intros u h r t. subst r t. unfold init_syms, resolves. fold u. fold h.
  destruct (dlsym env h (name u) =? 0) eqn:Hf; simpl.
  { split; [split; intros; discriminate|intros; discriminate]. }
  destruct (type u =? UDFTYPE_AGGREGATE) eqn:Ht.
  - destruct (dlsym env h (name u +:+ "_clear") =? 0) eqn:Hc; simpl.
    { split; [split; intros; discriminate|intros; discriminate]. }
    destruct (dlsym env h (name u +:+ "_add") =? 0) eqn:Ha; simpl.
    { split; [split; intros; discriminate|intros; discriminate]. }
    simpl_deref. rewrite Ht. rewrite !andb_false_r. simpl.
    split; [done|]. intros _. by simpl_deref.
  - simpl_deref. rewrite Ht. simpl. rewrite andb_true_r.
    destruct (dlsym env h (name u +:+ "_init") =? 0) eqn:Hi;
      destruct (dlsym env h (name u +:+ "_deinit") =? 0) eqn:Hd; simpl;
      try destruct (opt_allow_suspicious_udfs env); simpl; simpl_deref;
      (split; [split; intros; (done || discriminate)|intros; (done || discriminate)]).
Qed.

(** ** Acquiring and releasing *)

Lemma set_usage_count_id (u : udf_func) (c : N) :
  set_usage_count (usage_count u) (set_usage_count c u) = u.
Proof. by destruct u. Qed.

Lemma deref_handle_stored (st : udf_state) (p : N) :
  dlhandle (deref st p) ≠ 0 -> mem st !! p = Some (deref st p).
Proof.
  unfold deref. destruct (mem st !! p); simpl; [done|]. intros H. by destruct H.
Qed.

(** X2. A lookup with [mark_used] followed by [free_udf] of the
    descriptor it returned gives back the state before the lookup: the
    count is as it was, the hash and the trace are untouched and the lock
    is free again. *)
Theorem find_udf_free_udf (nm : string) (len : nat) (st : udf_state) (p : N) :
  initialized st = true ->
  usable st (find_key nm len) p ->
  0 < usage_count (deref st p) < ULONG_MOD - 1 ->
  (find_udf nm len true st).1 = p ∧
  free_udf p (find_udf nm len true st).2 = st.
Proof.
  intros Hi [Hk Hh] Hc.
  assert ((dlhandle (deref st p) =? 0) = false) as Hh' by by apply N.eqb_neq.
  pose proof (deref_handle_stored st p Hh) as Hm.
  unfold find_udf. rewrite Hi. simpl. rewrite Hk. simpl_deref. rewrite Hh'. simpl.
  split; [done|].
  unfold free_udf. simpl. rewrite Hi. simpl. simpl_deref.
  rewrite ulong_inc_small by lia.
  rewrite ulong_dec_pos by (unfold ULONG_MOD in *; lia).
  replace (usage_count (deref st p) + 1 - 1) with (usage_count (deref st p)) by lia.
  destruct (usage_count (deref st p) =? 0) eqn:Hz; [apply N.eqb_eq in Hz; lia|].
  unfold store, set_mem, set_lock. simpl.
  rewrite insert_insert_eq. rewrite set_usage_count_id.
  rewrite insert_id by done. by destruct st.
Qed.

Lemma substring_c_str (nm : string) :
  String.substring 0 (String.length (c_str nm)) nm = c_str nm.
Proof.
  induction nm as [|c s IH]; simpl; [done|].
  destruct (Ascii.eqb c "000"); simpl; [done|]. by rewrite IH.
Qed.

Lemma substring_prefix (s rest : string) :
  String.substring 0 (String.length s) (s +:+ rest) = s.
Proof.
  induction s as [|c s IH]; simpl.
  - by destruct rest.
  - by rewrite IH.
Qed.

Lemma find_key_strlen (nm : string) :
  find_key nm (String.length (c_str nm)) = find_key nm 0.
Proof.
  unfold find_key. destruct (String.length (c_str nm)) eqn:Hl; [done|].
  rewrite <- Hl. apply substring_c_str.
Qed.

(** X3. [find_udf] with a length of 0 reads the name as a C string;
    passing the length of that string instead makes no difference, and
    with a positive length only that many bytes of the buffer are the
    key, whatever follows them. *)
Theorem find_udf_length (nm : string) (mark : bool) (st : udf_state) :
  find_udf nm (String.length (c_str nm)) mark st = find_udf nm 0 mark st ∧
  ∀ rest, c_str nm = nm -> nm ≠ EmptyString ->
    find_udf (nm +:+ rest) (String.length nm) mark st = find_udf nm 0 mark st.
Proof.
  split.
  - unfold find_udf. by rewrite find_key_strlen.
  - intros rest Hc Hne. unfold find_udf.
    replace (find_key (nm +:+ rest) (String.length nm)) with (find_key nm 0); [done|].
    unfold find_key. rewrite Hc.
    destruct (String.length nm) eqn:Hl.
    + destruct nm; [done|discriminate].
    + rewrite <- Hl. by rewrite substring_prefix.
Qed.

Lemma hex_value_digit (d : N) : d < 16 -> hex_value (hex_digit d) = d.
Proof.
  intros Hd.
  assert (d = 0 ∨ d = 1 ∨ d = 2 ∨ d = 3 ∨ d = 4 ∨ d = 5 ∨ d = 6 ∨ d = 7 ∨
          d = 8 ∨ d = 9 ∨ d = 10 ∨ d = 11 ∨ d = 12 ∨ d = 13 ∨ d = 14 ∨ d = 15)
    as H by lia.
  repeat (destruct H as [->|H]; [reflexivity|]). by subst.
Qed.

(** ** The key of a renamed descriptor *)

Lemma append_cons (c : ascii) (s1 s2 : string) :
  String c s1 +:+ s2 = String c (s1 +:+ s2).
Proof. reflexivity. Qed.

Lemma append_assoc (s1 s2 s3 : string) :
  (s1 +:+ s2) +:+ s3 = s1 +:+ (s2 +:+ s3).
Proof.
  induction s1 as [|c s1 IH]; [done|]. rewrite !append_cons. by rewrite IH.
Qed.

Lemma length_append (s1 s2 : string) :
  String.length (s1 +:+ s2) = (String.length s1 + String.length s2)%nat.
Proof.
  induction s1 as [|c s1 IH]; [done|]. rewrite append_cons. simpl. by rewrite IH.
Qed.

Lemma hex_digits_app (fuel : nat) (n : N) (acc : string) :
  hex_digits fuel n acc = hex_digits fuel n EmptyString +:+ acc.
Proof.
  revert n acc. induction fuel as [|k IH]; intros n acc; simpl; [done|].
  destruct (n / 16 =? 0); [done|].
  rewrite (IH _ (String _ acc)), (IH _ (String _ EmptyString)).
  by rewrite append_assoc.
Qed.

Lemma unhex_app (s1 s2 : string) (a : N) :
  unhex (s1 +:+ s2) a = unhex s2 (unhex s1 a).
Proof.
  revert a. induction s1 as [|c s1 IH]; intros a; [done|].
  rewrite append_cons. simpl. apply IH.
Qed.

Lemma unhex_hex_digits (k : nat) (n : N) :
  n < 16 ^ N.of_nat k -> unhex (hex_digits k n EmptyString) 0 = n.
Proof.
  revert n. induction k as [|k IH]; intros n Hn.
  - simpl in *. lia.
  - simpl hex_digits.
    assert (n mod 16 < 16) as Hm by (apply N.mod_lt; lia).
    pose proof (N.div_mod n 16 ltac:(lia)) as Hdm.
    destruct (n / 16 =? 0) eqn:Hz.
    + apply N.eqb_eq in Hz. simpl. rewrite hex_value_digit by done. lia.
    + rewrite hex_digits_app, unhex_app. rewrite IH.
      * simpl. rewrite hex_value_digit by done. lia.
      * rewrite Nat2N.inj_succ, N.pow_succ_r' in Hn.
        apply N.Div0.div_lt_upper_bound. lia.
Qed.

Lemma hex_digits_length (fuel k : nat) (n : N) :
  (1 <= k)%nat -> n < 16 ^ N.of_nat k ->
  (String.length (hex_digits fuel n EmptyString) <= k)%nat.
Proof.
  revert k n. induction fuel as [|f IH]; intros k n Hk Hn; simpl; [lia|].
  destruct (n / 16 =? 0) eqn:Hz; simpl; [lia|].
  apply N.eqb_neq in Hz.
  destruct k as [|k]; [lia|].
  rewrite Nat2N.inj_succ, N.pow_succ_r' in Hn.
  assert (n / 16 < 16 ^ N.of_nat k) as Hq
    by (apply N.Div0.div_lt_upper_bound; lia).
  assert (1 <= k)%nat as Hk'.
  { destruct k; [|lia]. change (16 ^ N.of_nat 0) with 1 in Hq.
    destruct (n / 16); [done|lia]. }
  rewrite hex_digits_app.
  rewrite length_append. simpl.
  specialize (IH k (n / 16) Hk' Hq). lia.
Qed.

Lemma size_nat_bound (n : N) : n < 16 ^ N.of_nat (S (N.size_nat n)).
Proof.
  assert (n < 2 ^ N.of_nat (N.size_nat n)) as H.
  { destruct n as [|p]; [simpl; lia|]. simpl N.size_nat.
    induction p as [p IH|p IH|]; simpl Pos.size_nat;
      rewrite ?Nat2N.inj_succ, ?N.pow_succ_r'; simpl; lia. }
  eapply N.lt_le_trans; [exact H|].
  rewrite Nat2N.inj_succ.
  transitivity (16 ^ N.of_nat (N.size_nat n)).
  - replace 16 with (2 ^ 4) by reflexivity. rewrite <- N.pow_mul_r.
    apply N.pow_le_mono_r; lia.
  - apply N.pow_le_mono_r; lia.
Qed.

Lemma unhex_hex_of_N (n : N) : unhex (hex_of_N n) 0 = n.
Proof. unfold hex_of_N. apply unhex_hex_digits, size_nat_bound. Qed.

Lemma substring_all (s : string) (n : nat) :
  (String.length s <= n)%nat -> String.substring 0 n s = s.
Proof.
  revert n. induction s as [|c s IH]; intros n Hn.
  - by destruct n.
  - destruct n as [|n]; simpl in *; [lia|]. rewrite IH; [done|lia].
Qed.

Lemma append_char_inj (s1 s2 : string) (c : ascii) :
  s1 +:+ String c EmptyString = s2 +:+ String c EmptyString -> s1 = s2.
Proof.
  revert s2. induction s1 as [|a s1 IH]; intros [|b s2] H;
    rewrite ?append_cons in H.
  - done.
  - injection H as _ H. by destruct s2.
  - injection H as _ H. by destruct s1.
  - injection H as -> H. f_equal. by apply IH.
Qed.

(** X4. The key a descriptor in use is renamed to fits the buffer of 32
    bytes for every 64-bit address, and two different addresses never
    give the same key. *)
Theorem shadow_key_injective (p q : N) :
  0 < p < 2 ^ 64 -> 0 < q < 2 ^ 64 ->
  shadow_key p = "*<0x" +:+ hex_of_N p +:+ ">" ∧
  (shadow_key p = shadow_key q -> p = q).
Proof.
  assert (∀ r, r < 2 ^ 64 -> shadow_key r = "*<0x" +:+ hex_of_N r +:+ ">") as Hfit.
  { intros r Hr. unfold shadow_key. apply substring_all.
    pose proof (hex_digits_length (S (N.size_nat r)) 16 r ltac:(lia)
                  ltac:(simpl; lia)) as Hl.
    fold (hex_of_N r) in Hl.
    rewrite !length_append. simpl. lia. }
  intros [_ Hp] [_ Hq]. split; [by apply Hfit|].
  rewrite !Hfit by done. intros H.
  apply (inj (String.append "*<0x")) in H. apply append_char_inj in H.
  rewrite <- (unhex_hex_of_N p), <- (unhex_hex_of_N q). by rewrite H.
Qed.

(** ** Shutdown *)

Lemma distinct_descriptors_NoDup (st : udf_state) :
  distinct_descriptors st ↔ NoDup (map_to_list (udf_hash st)).*2.
Proof.
  split.
  - intros Hd. apply NoDup_fmap_2_strong; [|apply NoDup_map_to_list].
    intros [k1 p1] [k2 p2] H1 H2 Heq. simpl in Heq. subst p2.
    apply elem_of_map_to_list in H1, H2. f_equal. by eapply Hd.
  - intros Hn k1 k2 p H1 H2.
    apply elem_of_map_to_list in H1, H2.
    apply list_elem_of_lookup in H1 as [i1 H1], H2 as [i2 H2].
    assert (i1 = i2) as ->.
    { eapply NoDup_lookup; [exact Hn| |].
      - rewrite list_lookup_fmap, H1. reflexivity.
      - rewrite list_lookup_fmap, H2. reflexivity. }
    congruence.
Qed.

Lemma udf_deinit_mark_spec (p : N) (rest : list (string * N)) (st : udf_state) :
  p ∉ rest.*2 -> NoDup rest.*2 ->
  let st1 := fold_left (udf_deinit_mark p) rest st in
  trace st1 = trace st ∧ udf_hash st1 = udf_hash st ∧
  initialized st1 = initialized st ∧
  (∀ q, q ∉ rest.*2 -> mem st1 !! q = mem st !! q) ∧
  (∀ q, q ∈ rest.*2 ->
        dlhandle (deref st1 q)
        = if dlhandle (deref st p) =? dlhandle (deref st q) then 0
          else dlhandle (deref st q)).
Proof.
  revert st. induction rest as [|kv rest IH]; intros st Hp Hn; simpl.
  { split_and!; try done. intros q Hq. by apply elem_of_nil in Hq. }
  rewrite fmap_cons in Hp, Hn. apply not_elem_of_cons in Hp as [Hpk Hp].
  apply NoDup_cons in Hn as [Hk Hn].
  set (st' := udf_deinit_mark p st kv).
  assert (trace st' = trace st ∧ udf_hash st' = udf_hash st ∧
          initialized st' = initialized st ∧
          (∀ q, q ≠ kv.2 -> mem st' !! q = mem st !! q) ∧
          dlhandle (deref st' kv.2)
          = if dlhandle (deref st p) =? dlhandle (deref st kv.2) then 0
            else dlhandle (deref st kv.2)) as (Ht & Hh & Hi & Hm & Hkv).
  { subst st'. unfold udf_deinit_mark.
    destruct (dlhandle (deref st p) =? dlhandle (deref st kv.2)); simpl.
    - split_and!; try done.
      + intros q Hq. by rewrite lookup_insert_ne.
      + by rewrite deref_store_eq.
    - done. }
  destruct (IH st' Hp Hn) as (Ht1 & Hh1 & Hi1 & Hm1 & Hq1).
  split_and!; try congruence.
  - intros q Hq. apply not_elem_of_cons in Hq as [Hqk Hq].
    rewrite Hm1 by done. by apply Hm.
  - intros q Hq. apply elem_of_cons in Hq as [->|Hq].
    + unfold deref at 1. rewrite Hm1 by done. fold (deref st' kv.2). exact Hkv.
    + rewrite Hq1 by done.
      assert (q ≠ kv.2) as Hne by (intros ->; done).
      unfold deref. rewrite !Hm by done. reflexivity.
Qed.

Lemma udf_deinit_close_spec (l : list (string * N)) (st : udf_state) :
  NoDup l.*2 ->
  let st' := udf_deinit_close l st in
  udf_hash st' = udf_hash st ∧ initialized st' = initialized st ∧
  ∃ hs, trace st' = (EvDlclose <$> hs) ++ trace st ∧ NoDup hs ∧
        ∀ h, h ∈ hs ↔ h ≠ 0 ∧ ∃ kv, kv ∈ l ∧ dlhandle (deref st kv.2) = h.
Proof.
  revert st. induction l as [|kv rest IH]; intros st Hn; simpl.
  { split_and!; try done. exists []. split_and!; [done|constructor|].
    intros h. split; [intros Hh; by apply elem_of_nil in Hh|].
    intros (_ & kv & Hkv & _). by apply elem_of_nil in Hkv. }
  rewrite fmap_cons in Hn. apply NoDup_cons in Hn as [Hk Hn].
  destruct (dlhandle (deref st kv.2) =? 0) eqn:Hz; simpl.
  - apply N.eqb_eq in Hz.
    destruct (IH st Hn) as (Hh & Hi & hs & Ht & Hnd & Hin).
    split_and!; try done. exists hs. split_and!; try done.
    intros h. rewrite Hin. split.
    + intros (Hnz & kv' & Hkv' & He). split; [done|].
      exists kv'. split; [by apply elem_of_cons; right|done].
    + intros (Hnz & kv' & Hkv' & He). split; [done|].
      apply elem_of_cons in Hkv' as [->|Hkv']; [congruence|by exists kv'].
  - apply N.eqb_neq in Hz.
    destruct (udf_deinit_mark_spec kv.2 rest st Hk Hn)
      as (Ht1 & Hh1 & Hi1 & Hm1 & Hq1).
    set (st1 := fold_left (udf_deinit_mark kv.2) rest st) in *.
    assert (deref st1 kv.2 = deref st kv.2) as Hsame
      by (unfold deref; by rewrite Hm1).
    rewrite Hsame.
    set (h0 := dlhandle (deref st kv.2)) in *.
    destruct (IH (log (EvDlclose h0) st1) Hn) as (Hh & Hi & hs & Ht & Hnd & Hin).
    split_and!; [by rewrite Hh|by rewrite Hi|].
    assert (∀ q, q ∈ rest.*2 ->
              dlhandle (deref (log (EvDlclose h0) st1) q)
              = if h0 =? dlhandle (deref st q) then 0 else dlhandle (deref st q))
      as Hq2 by (intros q Hq; rewrite deref_log; by apply Hq1).
    exists (hs ++ [h0]). split_and!.
    + rewrite Ht. simpl. rewrite Ht1. rewrite fmap_app. simpl.
      by rewrite <- app_assoc.
    + apply NoDup_app. split_and!; [done| |apply NoDup_singleton].
      intros h Hh' Hh0. apply list_elem_of_singleton in Hh0 as ->.
      apply Hin in Hh' as (Hnz & kv' & Hkv' & He).
      rewrite Hq2 in He by (apply list_elem_of_fmap; by exists kv').
      destruct (h0 =? dlhandle (deref st kv'.2)) eqn:E; [congruence|].
      apply N.eqb_neq in E. congruence.
    + intros h. rewrite elem_of_app, list_elem_of_singleton, Hin. split.
      * intros [(Hnz & kv' & Hkv' & He)| ->].
        -- split; [done|]. exists kv'. split; [by apply elem_of_cons; right|].
           rewrite Hq2 in He by (apply list_elem_of_fmap; by exists kv').
           destruct (h0 =? dlhandle (deref st kv'.2)); congruence.
        -- split; [done|]. exists kv. split; [by apply elem_of_cons; left|done].
      * intros (Hnz & kv' & Hkv' & He).
        apply elem_of_cons in Hkv' as [->|Hkv']; [by right|].
        destruct (decide (h = h0)) as [->|Hne]; [by right|].
        left. split; [done|]. exists kv'. split; [done|].
        rewrite Hq2 by (apply list_elem_of_fmap; by exists kv').
        destruct (h0 =? dlhandle (deref st kv'.2)) eqn:E; [|done].
        apply N.eqb_eq in E. congruence.
Qed.

(** X5. [udf_deinit] on a registry in which no descriptor has two keys:
    every handle of a registered descriptor is closed exactly once, null
    is never closed and nothing else is, the hash is gone and
    [initialized] is cleared. The states the server can reach are of
    this kind ([reachable_keys]). *)
Theorem udf_deinit_closes_once (st : udf_state) :
  distinct_descriptors st ->
  let st' := udf_deinit st in
  initialized st' = false ∧ udf_hash st' = ∅ ∧
  ∃ hs, trace st' = (EvDlclose <$> hs) ++ trace st ∧ NoDup hs ∧
        ∀ h, h ∈ hs ↔
             h ≠ 0 ∧ ∃ k p, udf_hash st !! k = Some p ∧ dlhandle (deref st p) = h.
Proof.
  intros Hd st'. subst st'. unfold udf_deinit.
  apply distinct_descriptors_NoDup in Hd.
  destruct (udf_deinit_close_spec (map_to_list (udf_hash st)) st Hd)
    as (Hh & Hi & hs & Ht & Hnd & Hin).
  set (st1 := udf_deinit_close (map_to_list (udf_hash st)) st) in *.
  split_and!.
  - simpl. by destruct (initialized st1) eqn:E.
  - simpl. by destruct (initialized st1).
  - exists hs. split_and!; [|done|].
    + simpl. by destruct (initialized st1).
    + intros h. rewrite Hin. split.
      * intros (Hnz & [k p] & Hkv & He). split; [done|].
        exists k, p. by apply elem_of_map_to_list in Hkv.
      * intros (Hnz & k & p & Hk & He). split; [done|].
        exists (k, p). split; [by apply elem_of_map_to_list|done].
Qed.

(** ** The flag [using_udf_functions] *)

Lemma flag_inv_ext (st st' : udf_state) :
  udf_hash st' = udf_hash st -> using_udf_functions st' = using_udf_functions st ->
  flag_inv st -> flag_inv st'.
Proof. unfold flag_inv. intros -> ->. done. Qed.

Lemma hash_nonempty_true (h : gmap string N) : h ≠ ∅ -> hash_nonempty h = true.
Proof.
  intros Hne. unfold hash_nonempty. by rewrite bool_decide_eq_false_2.
Qed.

Lemma add_udf_flag (env : Env) (nm : string) (ret : N) (path : string)
                   (typ : N) (st : udf_state) :
  flag_inv st -> flag_inv (add_udf env nm ret path typ st).2.
Proof.
  intros Hf. unfold add_udf, alloc_root.
  destruct ((typ =? 0) || (UDFTYPE_AGGREGATE <? typ)); [done|].
  destruct (alloc_root_fails env); simpl; [done|].
  destruct (mem_next st =? 0); simpl; [done|].
  by intros _.
Qed.

Lemma udf_hash_delete_flag (udf : N) (st : udf_state) :
  flag_inv st -> flag_inv (udf_hash_delete udf st).
Proof.
  intros Hf.
  destruct (udf_hash st !! name (deref st udf)) as [q|] eqn:Hk.
  - rewrite (udf_hash_delete_registered udf st q Hk).
    destruct (ulong_dec (usage_count (deref st udf)) =? 0); unfold flag_inv; simpl.
    + apply hash_nonempty_true.
    + intros _. apply Hf. intros He. by rewrite He, lookup_empty in Hk.
  - by rewrite udf_hash_delete_unregistered.
Qed.

Lemma free_udf_flag (udf : N) (st : udf_state) :
  flag_inv st -> flag_inv (free_udf udf st).
Proof.
  intros Hf. unfold free_udf.
  destruct (initialized st); simpl; [|done].
  destruct (ulong_dec (usage_count (deref (rwlock_lock st) udf)) =? 0); [|done].
  simpl_deref.
  match goal with |- context [udf_hash st !! ?k] => destruct (udf_hash st !! k) end;
    [|done].
  match goal with |- context [if ?b then _ else _] => destruct b end;
    unfold flag_inv; simpl; apply hash_nonempty_true.
Qed.

Lemma find_udf_flag (nm : string) (len : nat) (mark : bool) (st : udf_state) :
  flag_inv st -> flag_inv (find_udf nm len mark st).2.
Proof.
  intros Hf. unfold find_udf.
  destruct (initialized st); simpl; [|done].
  destruct (udf_hash st !! find_key nm len); [|done].
  simpl_deref.
  match goal with |- context [if ?b then _ else _] => destruct b end; [done|].
  by destruct mark.
Qed.

Lemma init_syms_using (env : Env) (tmp : N) (st : udf_state) :
  using_udf_functions (init_syms env tmp st).2 = using_udf_functions st.
Proof.
  unfold init_syms.
  repeat (match goal with
          | |- context [if ?b then _ else _] => destruct b
          end; simpl; try reflexivity).
Qed.

Lemma init_syms_flag (env : Env) (tmp : N) (st : udf_state) :
  flag_inv st -> flag_inv (init_syms env tmp st).2.
Proof.
  apply flag_inv_ext; [apply init_syms_udf_hash|apply init_syms_using].
Qed.

Lemma trans_rollback_flag (env : Env) (st : udf_state) :
  flag_inv st -> flag_inv (trans_rollback env st).2.
Proof. unfold trans_rollback. by destruct (trans_rollback_stmt env). Qed.

Lemma trans_commit_flag (env : Env) (st : udf_state) :
  flag_inv st -> flag_inv (trans_commit env st).2.
Proof. unfold trans_commit. by destruct (trans_commit_stmt env). Qed.

Ltac flag_trans H :=
  match goal with
  | |- context [trans_rollback ?e ?s] =>
      let Hx := fresh in
      pose proof (trans_rollback_flag e s H) as Hx;
      destruct (trans_rollback e s); simpl in *; exact Hx
  | |- context [trans_commit ?e ?s] =>
      let Hx := fresh in
      pose proof (trans_commit_flag e s H) as Hx;
      destruct (trans_commit e s); simpl in *; exact Hx
  end.

Lemma udf_end_transaction_flag (env : Env) (rb : bool) (udf : N) (ins : bool)
                               (st : udf_state) :
  flag_inv st -> flag_inv (udf_end_transaction env rb udf ins st).2.
Proof.
  intros Hf. unfold udf_end_transaction.
  destruct (negb (transaction_rollback_request env || rb) && ins).
  - pose proof (add_udf_flag env (name (deref st udf)) (returns (deref st udf))
                  (dl (deref st udf)) (type (deref st udf)) st Hf) as Ha.
    destruct (add_udf env (name (deref st udf)) (returns (deref st udf))
                (dl (deref st udf)) (type (deref st udf)) st) as [u_f st1].
    simpl in Ha.
    destruct (negb (u_f =? 0));
      match goal with |- context [if ?b then _ else _] => destruct b end;
      flag_trans Ha.
  - pose proof (udf_hash_delete_flag udf st Hf) as Hd.
    match goal with |- context [if ?b then _ else _] => destruct b end;
      flag_trans Hd.
Qed.

Lemma create_with_library_flag (env : Env) (udf : N) (dl1 : N) (new_dl : bool)
                               (st : udf_state) :
  flag_inv st -> flag_inv (create_with_library env udf dl1 new_dl st).2.
Proof.
  intros Hf. unfold create_with_library.
  pose proof (init_syms_flag env udf
                (store udf (set_dlhandle dl1 (deref st udf)) st) Hf) as Hs.
  destruct (init_syms env udf (store udf (set_dlhandle dl1 (deref st udf)) st))
    as [[missing|] st1]; simpl in Hs.
  - by destruct new_dl.
  - unfold write_func_row.
    destruct (negb (ha_write_row_fails env)); simpl.
    + match goal with
      | |- context [udf_end_transaction ?e ?r ?u ?i ?s] =>
          pose proof (udf_end_transaction_flag e r u i s Hs) as Ht;
          destruct (udf_end_transaction e r u i s) as [err st2]
      end.
      simpl in Ht. destruct err; [by destruct new_dl|done].
    + match goal with
      | |- context [udf_end_transaction ?e ?r ?u ?i ?s] =>
          pose proof (udf_end_transaction_flag e r u i s Hs) as Ht;
          destruct (udf_end_transaction e r u i s) as [err st2]
      end.
      simpl in Ht. destruct err; [by destruct new_dl|done].
Qed.

Lemma mysql_create_function_flag (env : Env) (udf : N) (st : udf_state) :
  flag_inv st -> flag_inv (mysql_create_function env udf st).2.
Proof.
  intros Hf. unfold mysql_create_function.
  destruct (initialized st); simpl; [|done].
  destruct (check_valid_path env (dl (deref st udf))); [done|].
  destruct (check_string_char_length env (name (deref st udf))); [done|].
  destruct (open_tables_fails env); [done|].
  destruct (udf_hash st !! name (deref st udf)); [done|].
  match goal with |- context [if ?b then _ else _] => destruct b end.
  - match goal with |- context [if ?b then _ else _] => destruct b end; [done|].
    by apply create_with_library_flag.
  - by apply create_with_library_flag.
Qed.

Lemma mysql_drop_function_flag (env : Env) (nm : string) (st : udf_state) :
  flag_inv st -> flag_inv (mysql_drop_function env nm st).2.
Proof.
  intros Hf. unfold mysql_drop_function.
  destruct (initialized st); simpl; [|done].
  destruct (open_tables_fails env); [done|].
  destruct (udf_hash st !! nm) as [p|]; [|done].
  set (s0 := rwlock_unlock (rwlock_lock st)).
  assert (flag_inv s0) as H0 by done.
  destruct (negb (ha_index_read_fails env)); simpl.
  - destruct (ha_delete_row_fails env); simpl.
    + match goal with
      | |- context [udf_end_transaction ?e ?r ?u ?i ?s] =>
          pose proof (udf_end_transaction_flag e r u i s H0) as Ht;
          destruct (udf_end_transaction e r u i s) as [err st2]
      end.
      simpl in Ht.
      by match goal with |- context [if ?b then _ else _] => destruct b end.
    + match goal with
      | |- context [udf_end_transaction ?e ?r ?u ?i ?s] =>
          pose proof (udf_end_transaction_flag e r u i s H0) as Ht;
          destruct (udf_end_transaction e r u i s) as [err st2]
      end.
      simpl in Ht.
      by match goal with |- context [if ?b then _ else _] => destruct b end.
  - match goal with
    | |- context [udf_end_transaction ?e ?r ?u ?i ?s] =>
        pose proof (udf_end_transaction_flag e r u i s H0) as Ht;
        destruct (udf_end_transaction e r u i s) as [err st2]
    end.
    simpl in Ht.
    by match goal with |- context [if ?b then _ else _] => destruct b end.
Qed.

Lemma udf_init_bind_flag (env : Env) (tmp : N) (h : N) (new_dl : bool)
                         (st : udf_state) :
  flag_inv st -> flag_inv (udf_init_bind env tmp h new_dl st).
Proof.
  intros Hf. unfold udf_init_bind.
  pose proof (init_syms_flag env tmp
                (store tmp (set_dlhandle h (deref st tmp)) st) Hf) as Hs.
  destruct (init_syms env tmp (store tmp (set_dlhandle h (deref st tmp)) st))
    as [[missing|] st1]; simpl in Hs; [|done].
  match goal with
  | |- context [udf_hash_delete ?u ?s] =>
      pose proof (udf_hash_delete_flag u s Hs) as Hd
  end.
  by destruct new_dl.
Qed.

Lemma udf_init_row_flag (env : Env) (st : udf_state) (r : func_row) :
  flag_inv st -> flag_inv (udf_init_row env st r).
Proof.
  intros Hf. unfold udf_init_row.
  destruct (check_valid_path env (row_dl r)
            || check_string_char_length env (row_name r)); [done|].
  match goal with
  | |- context [add_udf ?e ?n ?r ?p ?t ?s] =>
      pose proof (add_udf_flag e n r p t s Hf) as Ha;
      destruct (add_udf e n r p t s) as [tmp st1]
  end.
  simpl in Ha.
  destruct (tmp =? 0); [done|].
  match goal with |- context [if ?b then _ else _] => destruct b end.
  - match goal with |- context [if ?b then _ else _] => destruct b end; [done|].
    by apply udf_init_bind_flag.
  - by apply udf_init_bind_flag.
Qed.

Lemma udf_init_flag (env : Env) (rows : list func_row) (st : udf_state) :
  flag_inv st -> flag_inv (udf_init env rows st).
Proof.
  intros Hf. unfold udf_init.
  destruct (initialized st); [done|].
  destruct (thd_alloc_fails env); [done|].
  destruct (open_tables_fails env); [by intros H|].
  destruct (init_read_record_fails env); [by intros H|].
  set (st0 := set_initialized true (set_udf_hash ∅ (set_lock 0 st))).
  assert (flag_inv st0) as H0 by (by intros H).
  assert (flag_inv (fold_left (udf_init_row env) rows st0)) as Hr.
  { clearbody st0. clear Hf. revert st0 H0.
    induction rows as [|r rows IH]; intros s Hs; simpl; [done|].
    apply IH. by apply udf_init_row_flag. }
  by destruct (0 <? read_record_error env)%Z.
Qed.

(** X7. In every state the server can reach, [using_udf_functions] is
    set whenever some function is registered: a caller that consults the
    flag before [find_udf] misses no registered function. *)
Theorem using_udf_functions_set (st : udf_state) (k : string) (p : N) :
  reachable st -> udf_hash st !! k = Some p -> using_udf_functions st = true.
Proof.
  intros Hr Hk.
  assert (flag_inv st) as Hf.
  { clear Hk. induction Hr as [base Hb|env st o _ IH].
    - by intros H.
    - destruct o as [rows|u|nm|o]; simpl.
      + by apply udf_init_flag.
      + apply mysql_create_function_flag. done.
      + by apply mysql_drop_function_flag.
      + destruct o; simpl; [by apply find_udf_flag|by apply free_udf_flag]. }
  apply Hf. intros He. by rewrite He, lookup_empty in Hk.
Qed.

(** ** The keys of the registry *)

Lemma keys_inv_sub (st st' : udf_state) :
  keys_inv st ->
  (∀ k p, udf_hash st' !! k = Some p -> udf_hash st !! k = Some p) ->
  (∀ k p, udf_hash st !! k = Some p -> name (deref st' p) = name (deref st p)) ->
  keys_inv st'.
Proof.
  intros [Hk Hd] Hsub Hnm. split.
  - intros k p Hp. apply Hsub in Hp. rewrite (Hnm _ _ Hp). by apply Hk.
  - intros k1 k2 p H1 H2. eapply Hd; by apply Hsub.
Qed.

Lemma keys_inv_insert (st st' : udf_state) (nm : string) (pn : N) :
  keys_inv st -> wf_registry st ->
  mem_next st <= pn ->
  (∀ k p, udf_hash st' !! k = Some p ->
          (k = nm ∧ p = pn ∧ name (deref st' pn) = nm) ∨ udf_hash st !! k = Some p) ->
  (∀ k p, udf_hash st !! k = Some p -> name (deref st' p) = name (deref st p)) ->
  keys_inv st'.
Proof.
  intros [Hk Hd] [_ Hwf] Hpn Hnew Hnm. split.
  - intros k p Hp. destruct (Hnew _ _ Hp) as [(-> & -> & Hn)|Hold].
    + by left.
    + rewrite (Hnm _ _ Hold). by apply Hk.
  - intros k1 k2 p H1 H2.
    destruct (Hnew _ _ H1) as [(-> & -> & _)|Ho1];
      destruct (Hnew _ _ H2) as [(-> & E & _)|Ho2]; try done.
    + apply Hwf in Ho2. lia.
    + subst p. apply Hwf in Ho1. lia.
    + by eapply Hd.
Qed.

Lemma udf_hash_delete_keys (udf : N) (st : udf_state) :
  keys_inv st -> keys_inv (udf_hash_delete udf st).
Proof.
  intros Hinv. pose proof Hinv as [Hk Hd].
  destruct (udf_hash_delete_frame udf st) as (_ & _ & _ & _ & _ & Hid).
  assert (∀ q, name (deref (udf_hash_delete udf st) q) = name (deref st q)) as Hnm
    by (intros q; by destruct (Hid q)).
  destruct (udf_hash st !! name (deref st udf)) as [q|] eqn:Hq.
  2:{ apply (keys_inv_sub st); [done| |by intros].
      intros k p. by rewrite udf_hash_delete_unregistered. }
  pose proof (udf_hash_delete_registered udf st q Hq) as He. simpl in He.
  destruct (ulong_dec (usage_count (deref st udf)) =? 0).
  { apply (keys_inv_sub st); [done| |by intros].
    intros k p. rewrite He. simpl. rewrite lookup_delete_Some. by intros [_ ?]. }
  assert (udf_hash (udf_hash_delete udf st)
          = emplace (shadow_key udf) udf (delete (name (deref st udf)) (udf_hash st)))
    as Hh by (by rewrite He).
  clear He. unfold emplace in Hh.
  destruct (delete (name (deref st udf)) (udf_hash st) !! shadow_key udf)
    as [q'|] eqn:Hs.
  { apply (keys_inv_sub st); [done| |by intros].
    intros k p. rewrite Hh. rewrite lookup_delete_Some. by intros [_ ?]. }
  split.
  - intros k p. rewrite Hnm, Hh. rewrite lookup_insert_Some.
    intros [[<- <-]|[_ Hp]]; [by right|].
    apply lookup_delete_Some in Hp as [_ Hp]. by apply Hk.
  - intros k1 k2 p. rewrite Hh, !lookup_insert_Some, !lookup_delete_Some.
    intros [[E1 E1']|(Hne1 & Hn1 & H1)] [[E2 E2']|(Hne2 & Hn2 & H2)];
      subst; try done.
    + destruct (Hk _ _ H2); congruence.
    + destruct (Hk _ _ H1); congruence.
    + by eapply Hd.
Qed.

Lemma run_client_keys (st : udf_state) (o : client_op) :
  keys_inv st -> keys_inv (run_client st o).
Proof.
  intros Hinv. destruct o as [nm len mark|udf]; simpl.
  - destruct (find_udf_frame nm len mark st) as (_ & Hh & _ & Hid).
    apply (keys_inv_sub st); [done| |].
    + intros k p. by rewrite Hh.
    + intros k p _. by destruct (Hid p).
  - destruct (free_udf_frame udf st) as (_ & _ & Hval & Hid).
    apply (keys_inv_sub st); [done|done|].
    intros k p _. by destruct (Hid p).
Qed.

Lemma keys_inv_ext (st st' : udf_state) :
  mem st' = mem st -> udf_hash st' = udf_hash st ->
  keys_inv st -> keys_inv st'.
Proof.
  intros Hm Hh Hinv. apply (keys_inv_sub st); [done| |].
  - intros k p. by rewrite Hh.
  - intros k p _. unfold deref. by rewrite Hm.
Qed.

Lemma mysql_drop_function_keys (env : Env) (nm : string) (st : udf_state) :
  keys_inv st -> keys_inv (mysql_drop_function env nm st).2.
Proof.
  intros Hinv.
  destruct (initialized st) eqn:Hi.
  2:{ unfold mysql_drop_function. rewrite Hi. simpl.
      by apply (keys_inv_ext st). }
  destruct (open_tables_fails env) eqn:Ho.
  { unfold mysql_drop_function. by rewrite Hi, Ho. }
  destruct (udf_hash st !! nm) as [p|] eqn:Hk.
  2:{ unfold mysql_drop_function. rewrite Hi, Ho. simpl. rewrite Hk.
      by apply (keys_inv_ext st). }
  destruct (mysql_drop_function_outcome env nm st p Hi Ho Hk)
    as (Hh & Hm & _).
  apply (keys_inv_ext (udf_hash_delete p st)); [done|done|].
  by apply udf_hash_delete_keys.
Qed.

Lemma mysql_create_function_keys (env : Env) (u : udf_func) (st : udf_state) :
  wf_registry st -> keys_inv st -> keys_inv (run_op env st (OpCreate u)).
Proof.
  intros Hwf0 Hinv. pose proof Hwf0 as [Hnx Hwf]. simpl.
  set (udf := mem_next st).
  set (st1 := set_mem_next (udf + 1) (store udf u st)).
  assert (∀ k p, udf_hash st !! k = Some p -> p ≠ udf) as Hfresh.
  { intros k p Hk. specialize (Hwf _ _ Hk). subst udf. lia. }
  assert (keys_inv st1) as Hinv1.
  { apply (keys_inv_sub st); [done|done|].
    intros k p Hk. subst st1. rewrite deref_set_mem_next.
    rewrite deref_store_ne; [done|]. intros ->. by apply (Hfresh k p). }
  assert (wf_registry st1) as Hwf1.
  { split; [subst st1; simpl; lia|].
    intros k p Hk. specialize (Hwf k p Hk). subst st1 udf. simpl. lia. }
  destruct (mysql_create_function_outcome env udf st1)
    as (evs & _ & [(_ & Hh & _ & _ & _ & Hfr & Hle)
                  |(_ & Hk & _ & Hh & _ & _ & Hid & Hfr & Hn & _)]).
  - apply (keys_inv_sub st1); [done| |].
    + intros k p. by rewrite Hh.
    + intros k p Hkp. unfold deref. rewrite Hfr; [done|].
      by apply (Hfresh k).
  - set (c := mysql_create_function env udf st1) in *.
    destruct Hid as (Hname & _).
    apply (keys_inv_insert st1 c.2 (name (deref st1 udf)) (mem_next st1));
      [done|done|lia| |].
    + intros k p. rewrite Hh. intros Hkp.
      apply lookup_insert_Some in Hkp as [[<- <-]|[_ Hkp]]; [|by right].
      left. split_and!; [done|done|]. by rewrite Hname.
    + intros k p Hkp. unfold deref. rewrite Hfr; [done| |].
      * by apply (Hfresh k).
      * specialize (Hwf _ _ Hkp). subst st1. simpl. lia.
Qed.

Lemma udf_init_row_keys (env : Env) (st : udf_state) (r : func_row) :
  wf_registry st -> keys_inv st -> keys_inv (udf_init_row env st r).
Proof.
  intros Hwf Hinv. pose proof Hwf as [Hnx Hreg].
  destruct (udf_init_row_outcome env st r Hwf)
    as (_ & Hle & Hfr & Hne & Hcases).
  set (st' := udf_init_row env st r) in *.
  apply (keys_inv_insert st st' (row_name r) (mem_next st)); [done|done|lia| |].
  - intros k p Hk.
    destruct (udf_init_row_values env st r k p Hwf Hk) as [(-> & -> & Hfree)|Hold];
      [|by right].
    left. split_and!; [done|done|].
    destruct Hcases as [Heq|[Hnone|(_ & _ & _ & _ & _ & Hname & _)]];
      [|congruence|done].
    rewrite Heq, Hfree in Hk. congruence.
  - intros k p Hk. unfold deref. rewrite Hfr; [done|].
    specialize (Hreg _ _ Hk). lia.
Qed.

Lemma udf_init_keys (env : Env) (rows : list func_row) (st : udf_state) :
  registry_inv st -> keys_inv st -> keys_inv (udf_init env rows st).
Proof.
  intros Hinv Hkeys. pose proof Hinv as [[Hnx _] _]. unfold udf_init.
  destruct (initialized st); [done|].
  destruct (thd_alloc_fails env).
  { by apply (keys_inv_ext st). }
  set (st0 := set_initialized true (set_udf_hash ∅ (set_lock 0 st))).
  assert (registry_inv st0 ∧ handles_from env st0 ∧ keys_inv st0)
    as (Hinv0 & Hfrom0 & Hkeys0).
  { split; [split; [split|]|split; [|split]]; try done.
    all: intros k; intros; simpl in *; by rewrite ?lookup_empty in *. }
  destruct (open_tables_fails env).
  { by apply (keys_inv_ext st0). }
  destruct (init_read_record_fails env); [done|].
  assert (keys_inv (fold_left (udf_init_row env) rows st0)) as Hr.
  { clearbody st0. clear Hinv Hkeys Hnx. revert st0 Hinv0 Hfrom0 Hkeys0.
    induction rows as [|r rows IH]; intros s Hs Hf Hk; simpl; [done|].
    destruct (udf_init_row_inv env s r Hs Hf) as [Hs1 Hf1].
    apply IH; [done|done|]. apply udf_init_row_keys; [by destruct Hs|done]. }
  destruct (0 <? read_record_error env)%Z; [|done].
  by eapply keys_inv_ext; [| |exact Hr].
Qed.

Lemma reachable_keys (st : udf_state) : reachable st -> keys_inv st.
Proof.
  induction 1 as [base Hb|env st o Hr IH].
  - split; intros k; intros; simpl in *; by rewrite ?lookup_empty in *.
  - pose proof (reachable_inv st Hr) as Hinv.
    destruct o as [rows|u|nm|o].
    + by apply udf_init_keys.
    + apply mysql_create_function_keys; [by destruct Hinv|done].
    + by apply mysql_drop_function_keys.
    + by apply run_client_keys.
Qed.

(** X8. In every state the server can reach, a registered descriptor
    is not null and sits under exactly one key, which is its name or the
    key [udf_hash_delete] renamed it to. *)
Theorem registry_keys (st : udf_state) :
  reachable st ->
  (∀ k p, udf_hash st !! k = Some p ->
          p ≠ 0 ∧ (k = name (deref st p) ∨ k = shadow_key p)) ∧
  (∀ k1 k2 p, udf_hash st !! k1 = Some p -> udf_hash st !! k2 = Some p ->
              k1 = k2).
Proof.
  intros Hr.
  destruct (reachable_inv st Hr) as [[_ Hreg] _].
  destruct (reachable_keys st Hr) as [Hk Hd].
  split; [|exact Hd].
  intros k p Hp. split; [|by apply Hk].
  specialize (Hreg _ _ Hp). lia.
Qed.

(** ** The rows the startup scan accepts *)

Lemma init_syms_resolves (env : Env) (tmp : N) (st : udf_state) :
  let u := deref st tmp in
  resolves env (dlhandle u) (name u) (type u) = true ->
  (init_syms env tmp st).1 = None ∧
  func (deref (init_syms env tmp st).2 tmp) = dlsym env (dlhandle u) (name u).
Proof.
  intros u. unfold init_syms, resolves. fold u.
  destruct (dlsym env (dlhandle u) (name u) =? 0) eqn:Hf; simpl; [done|].
  destruct (type u =? UDFTYPE_AGGREGATE) eqn:Ht.
  - destruct (dlsym env (dlhandle u) (name u +:+ "_clear") =? 0); simpl; [done|].
    destruct (dlsym env (dlhandle u) (name u +:+ "_add") =? 0); simpl; [done|].
    intros _. simpl_deref. rewrite Ht. rewrite !andb_false_r. by simpl_deref.
  - simpl_deref. rewrite Ht. simpl. rewrite andb_true_r.
    destruct (dlsym env (dlhandle u) (name u +:+ "_init") =? 0);
      destruct (dlsym env (dlhandle u) (name u +:+ "_deinit") =? 0); simpl;
      try (intros _; by simpl_deref).
    intros ->. simpl. by simpl_deref.
Qed.

Lemma udf_init_bind_accepts (env : Env) (tmp : N) (h : N) (new_dl : bool)
                            (st : udf_state) :
  resolves env h (name (deref st tmp)) (type (deref st tmp)) = true ->
  let st' := udf_init_bind env tmp h new_dl st in
  udf_hash st' = udf_hash st ∧ mem_next st' = mem_next st ∧
  initialized st' = initialized st ∧
  (∀ q, q ≠ tmp -> mem st' !! q = mem st !! q) ∧
  same_identity (set_dlhandle h (deref st tmp)) (deref st' tmp) ∧
  func (deref st' tmp) = dlsym env h (name (deref st tmp)).
Proof.
  intros Hres st'. subst st'. unfold udf_init_bind.
  set (s := store tmp (set_dlhandle h (deref st tmp)) st).
  assert (deref s tmp = set_dlhandle h (deref st tmp)) as Hd
    by apply deref_store_eq.
  destruct (init_syms_resolves env tmp s) as [Hnone Hfunc].
  { rewrite Hd. exact Hres. }
  destruct (init_syms_frame env tmp s) as (Hh & Hn & Hi & _ & Hfr & Hid & _).
  destruct (init_syms env tmp s) as [m s2]. simpl in *. subst m.
  rewrite Hd in Hid, Hfunc. simpl in Hfunc.
  split_and!; try done.
  intros q Hq. rewrite Hfr by done. subst s. simpl. by rewrite lookup_insert_ne.
Qed.

Lemma udf_init_row_accepts (env : Env) (st : udf_state) (r : func_row) :
  let typ := default UDFTYPE_FUNCTION (row_type r) in
  let h := dlopen env (row_dl r) in
  wf_registry st -> handles_eq env st ->
  udf_hash st !! row_name r = None ->
  check_valid_path env (row_dl r) = false ->
  check_string_char_length env (row_name r) = false ->
  typ = UDFTYPE_FUNCTION ∨ typ = UDFTYPE_AGGREGATE ->
  alloc_root_fails env = false ->
  h ≠ 0 ->
  resolves env h (row_name r) typ = true ->
  let st' := udf_init_row env st r in
  let t := deref st' (mem_next st) in
  udf_hash st' = <[row_name r := mem_next st]> (udf_hash st) ∧
  name t = row_name r ∧ returns t = row_ret r ∧ type t = typ ∧
  dl t = row_dl r ∧ dlhandle t = h ∧ usage_count t = 1 ∧
  func t = dlsym env h (row_name r).
Proof.
  intros typ h Hwf Heq Hfree Hcp Hcl Hty Ha Hh Hres st' t.
  subst st' t. pose proof Hwf as [Hnx Hreg].
  unfold udf_init_row. rewrite Hcp, Hcl. simpl. fold typ.
  destruct (add_udf_fresh env (row_name r) (row_ret r) (row_dl r) typ st)
    as (Hp & Hhash & Hd & Hfr & _); try done; [lia|].
  destruct (add_udf env (row_name r) (row_ret r) (row_dl r) typ st)
    as [tmp st1]. simpl in *. subst tmp.
  assert ((mem_next st =? 0) = false) as -> by (apply N.eqb_neq; lia).
  rewrite Hd. simpl.
  assert (∀ new_dl s,
            udf_hash s = udf_hash st1 -> mem s = mem st1 ->
            let s' := udf_init_bind env (mem_next st) h new_dl s in
            let t := deref s' (mem_next st) in
            udf_hash s' = <[row_name r := mem_next st]> (udf_hash st) ∧
            name t = row_name r ∧ returns t = row_ret r ∧ type t = typ ∧
            dl t = row_dl r ∧ dlhandle t = h ∧ usage_count t = 1 ∧
            func t = dlsym env h (row_name r)) as Hbind.
  { intros new_dl s Hsh Hsm s' t'. subst s' t'.
    assert (deref s (mem_next st) = deref st1 (mem_next st)) as Hds
      by (unfold deref; by rewrite Hsm).
    destruct (udf_init_bind_accepts env (mem_next st) h new_dl s)
      as (Hh' & _ & _ & _ & Hid & Hfunc).
    { rewrite Hds, Hd. exact Hres. }
    rewrite Hds, Hd in Hid, Hfunc. simpl in Hid, Hfunc.
    destruct Hid as (H1 & H2 & H3 & H4 & H5 & H6).
    split_and!; try done. by rewrite Hh', Hsh. }
  destruct (find_udf_dl st1 (row_dl r) =? 0) eqn:Hz.
  - fold h. assert ((h =? 0) = false) as -> by by apply N.eqb_neq.
    by apply Hbind.
  - apply N.eqb_neq in Hz.
    destruct (find_udf_dl_Some st1 (row_dl r) Hz) as (k & p & Hk & Hdl & Hhd).
    assert (p ≠ mem_next st) as Hne.
    { intros ->. rewrite Hd in Hhd. simpl in Hhd. congruence. }
    assert (udf_hash st !! k = Some p) as Hk0.
    { rewrite Hhash in Hk. apply lookup_insert_Some in Hk as [[_ E]|[_ Hk]];
        [congruence|done]. }
    assert (deref st1 p = deref st p) as Hdp
      by (unfold deref; by rewrite Hfr).
    rewrite Hdp in Hdl, Hhd.
    assert (find_udf_dl st1 (row_dl r) = h) as ->.
    { rewrite <- Hhd. subst h. rewrite <- Hdl. apply (Heq k); [done|].
      rewrite Hhd. done. }
    by apply Hbind.
Qed.

Lemma udf_init_row_handles_eq (env : Env) (st : udf_state) (r : func_row) :
  wf_registry st -> handles_eq env st -> handles_eq env (udf_init_row env st r).
Proof.
  intros Hwf Heq. pose proof Hwf as [Hnx Hreg].
  destruct (udf_init_row_outcome env st r Hwf)
    as (_ & Hle & Hfr & Hne & Hcases).
  set (st' := udf_init_row env st r) in *.
  intros k p Hk Hh.
  destruct (udf_init_row_values env st r k p Hwf Hk) as [(-> & -> & Hfree)|Hold].
  - destruct Hcases as [Heq'|[Hnone|(_ & _ & _ & _ & _ & _ & Hdl & _ & Ho)]].
    + rewrite Heq', Hfree in Hk. congruence.
    + congruence.
    + rewrite Hdl. destruct Ho as [[Hz _]|[_ Ho]]; [congruence|].
      destruct Ho as [[-> _]|(k0 & p0 & Hk0 & Hd0 & Hh0)]; [done|].
      rewrite <- Hh0, <- Hd0. apply (Heq k0); [done|]. congruence.
  - assert (deref st' p = deref st p) as Hsame.
    { unfold deref. rewrite Hfr; [done|]. specialize (Hreg _ _ Hold). lia. }
    rewrite Hsame in *. by apply (Heq k).
Qed.

Lemma handles_eq_from (env : Env) (st : udf_state) :
  handles_eq env st -> handles_from env st.
Proof. intros Heq k p Hk Hh. rewrite <- (Heq k p Hk Hh). done. Qed.

Lemma udf_init_rows_handles_eq (env : Env) (l : list func_row) (st : udf_state) :
  registry_inv st -> handles_eq env st ->
  handles_eq env (fold_left (udf_init_row env) l st).
Proof.
  revert st. induction l as [|r l IH]; intros st Hinv Heq; simpl; [done|].
  destruct (udf_init_row_inv env st r Hinv (handles_eq_from env st Heq))
    as [Hinv1 _].
  apply IH; [done|]. apply udf_init_row_handles_eq; [by destruct Hinv|done].
Qed.

(** X9. The startup scan accepts every row that can be used. A row
    with a valid path and name and a valid type, whose library opens and
    whose symbols resolve, is after [udf_init] registered under its name
    with the values of the row, the handle of its library, its main entry
    point and a [usage_count] of 1, and [find_udf] hands it out; the
    names of the rows being distinct. *)
Theorem udf_init_accepts (env : Env) (rows : list func_row) (r : func_row)
                         (st : udf_state) :
  let typ := default UDFTYPE_FUNCTION (row_type r) in
  let h := dlopen env (row_dl r) in
  initialized st = false ->
  0 < mem_next st ->
  thd_alloc_fails env = false ->
  open_tables_fails env = false ->
  init_read_record_fails env = false ->
  alloc_root_fails env = false ->
  NoDup (row_name <$> rows) ->
  r ∈ rows ->
  check_valid_path env (row_dl r) = false ->
  check_string_char_length env (row_name r) = false ->
  typ = UDFTYPE_FUNCTION ∨ typ = UDFTYPE_AGGREGATE ->
  h ≠ 0 ->
  resolves env h (row_name r) typ = true ->
  let st' := udf_init env rows st in
  ∃ p, usable st' (row_name r) p ∧ p ≠ 0 ∧
       name (deref st' p) = row_name r ∧ returns (deref st' p) = row_ret r ∧
       type (deref st' p) = typ ∧ dl (deref st' p) = row_dl r ∧
       dlhandle (deref st' p) = h ∧ usage_count (deref st' p) = 1 ∧
       func (deref st' p) = dlsym env h (row_name r) ∧
       (∀ nm len mark, find_key nm len = row_name r ->
                       (find_udf nm len mark st').1 = p).
Proof.
  intros typ h Hi Hnx Hthd Hopen Hrd Ha Hnd Hr Hcp Hcl Hty Hh Hres st'.
  set (st0 := set_initialized true (set_udf_hash ∅ (set_lock 0 st))).
  assert (registry_inv st0 ∧ handles_eq env st0) as [Hinv0 Heq0].
  { split; [split; [split|]|]; try done.
    all: intros k; intros; simpl in *; by rewrite ?lookup_empty in *. }
  pose proof (handles_eq_from env st0 Heq0) as Hfrom0.
  apply list_elem_of_split in Hr as (l1 & l2 & ->).
  rewrite fmap_app, fmap_cons in Hnd.
  apply NoDup_app in Hnd as (_ & Hn1 & Hn2).
  apply NoDup_cons in Hn2 as [Hn2 _].
  assert (row_name r ∉ row_name <$> l1) as Hn1'.
  { intros Hin. apply (Hn1 _ Hin). by left. }
  (* the rows before [r] *)
  destruct (udf_init_rows_frame env l1 st0 Hinv0 Hfrom0)
    as (HinvA & HfromA & HleA & HiA & _ & HkA).
  pose proof (udf_init_rows_handles_eq env l1 st0 Hinv0 Heq0) as HeqA.
  set (sA := fold_left (udf_init_row env) l1 st0) in *.
  pose proof HinvA as [[HnxA HregA] _].
  (* the row [r] *)
  assert (udf_hash sA !! row_name r = None) as HkA'.
  { rewrite HkA by done. subst st0. simpl. apply lookup_empty. }
  destruct (udf_init_row_accepts env sA r (proj1 HinvA) HeqA HkA' Hcp Hcl Hty Ha
              Hh Hres) as (HhB & HB1 & HB2 & HB3 & HB4 & HB5 & HB6 & HB7).
  destruct (udf_init_row_inv env sA r HinvA HfromA) as [HinvB HfromB].
  destruct (udf_init_row_outcome env sA r (proj1 HinvA)) as (HiB & HleB & _).
  set (sB := udf_init_row env sA r) in *.
  assert (mem_next sA < mem_next sB) as HltB.
  { destruct HinvB as [[_ HregB] _]. apply (HregB (row_name r)).
    rewrite HhB. by rewrite lookup_insert_eq. }
  (* the rows after [r] *)
  destruct (udf_init_rows_frame env l2 sB HinvB HfromB)
    as (_ & _ & _ & HiC & HmC & HkC).
  set (sC := fold_left (udf_init_row env) l2 sB) in *.
  set (p := mem_next sA) in *.
  assert (udf_hash sC !! row_name r = Some p) as HkC'.
  { rewrite HkC by done. rewrite HhB. by rewrite lookup_insert_eq. }
  assert (deref sC p = deref sB p) as HdC.
  { unfold deref. by rewrite HmC. }
  assert (initialized sC = true) as HiC'.
  { rewrite HiC, HiB, HiA. done. }
  (* the state [udf_init] returns *)
  assert (udf_hash st' = udf_hash sC ∧ mem st' = mem sC ∧
          initialized st' = initialized sC) as (Hh' & Hm' & Hi').
  { subst st'. unfold udf_init. rewrite Hi, Hthd, Hopen, Hrd.
    rewrite fold_left_app. simpl. fold st0. fold sA. fold sB. fold sC.
    by destruct (0 <? read_record_error env)%Z. }
  assert (deref st' p = deref sC p) as Hd' by (unfold deref; by rewrite Hm').
  exists p. unfold usable. rewrite Hh', Hd', HdC.
  split_and!; try done.
  - by rewrite HB5.
  - subst p. lia.
  - intros nm len mark Hkey. rewrite find_udf_result by (by rewrite Hi').
    rewrite Hkey, Hh', HkC', Hd', HdC, HB5.
    fold h. by destruct (N.eqb_spec h 0).
Qed.

(** ** What the startup scan does outside the registry *)

Lemma resolution_scan_event (env : Env) (evs : list event) :
  Forall resolution_event evs -> Forall (scan_event env) evs.
Proof. intros H. eapply Forall_impl; [exact H|]. by intros []. Qed.

Lemma udf_init_bind_events (env : Env) (tmp : N) (h : N) (new_dl : bool)
                           (st : udf_state) (q : N) :
  udf_hash st !! name (deref st tmp) = Some q ->
  let st' := udf_init_bind env tmp h new_dl st in
  THR_LOCK_udf st' = THR_LOCK_udf st ∧
  ∃ evs, appended st st' evs ∧ Forall (scan_event env) evs.
Proof.
  intros Hk st'. subst st'. unfold udf_init_bind, appended.
  set (st1 := store tmp (set_dlhandle h (deref st tmp)) st).
  pose proof (init_syms_frame env tmp st1)
    as (Hh & _ & _ & Hl & _ & Hid & evs & Happ & Hres).
  assert (deref st1 tmp = set_dlhandle h (deref st tmp)) as Hd1
    by (subst st1; apply deref_store_eq).
  rewrite Hd1 in Hid. destruct Hid as (Hi1 & _).
  apply (resolution_scan_event env) in Hres. unfold appended in Happ.
  destruct (init_syms env tmp st1) as [[m|] st2]; simpl in *.
  - set (st3 := log (EvLogErr ERROR_LEVEL ER_CANT_FIND_DL_ENTRY m) st2).
    assert (udf_hash st3 !! name (deref st3 tmp) = Some q) as Hk3.
    { subst st3. rewrite deref_log. simpl. by rewrite Hi1, Hh. }
    pose proof (udf_hash_delete_trace tmp st3 q Hk3) as Ht.
    pose proof (udf_hash_delete_registered tmp st3 q Hk3) as He. simpl in He.
    assert (THR_LOCK_udf (udf_hash_delete tmp st3) = THR_LOCK_udf st3) as Hl3
      by (by rewrite He).
    destruct new_dl; simpl.
    + split; [by rewrite Hl3|].
      exists (EvDlclose h :: EvLogErr ERROR_LEVEL ER_CANT_FIND_DL_ENTRY m :: evs).
      split; [by rewrite Ht; simpl; rewrite Happ|].
      by repeat constructor.
    + split; [by rewrite Hl3|].
      exists (EvLogErr ERROR_LEVEL ER_CANT_FIND_DL_ENTRY m :: evs).
      split; [by rewrite Ht; simpl; rewrite Happ|].
      by repeat constructor.
  - split; [done|]. by exists evs.
Qed.

Lemma udf_init_row_events (env : Env) (st : udf_state) (r : func_row) :
  let st' := udf_init_row env st r in
  THR_LOCK_udf st' = THR_LOCK_udf st ∧
  ∃ evs, appended st st' evs ∧ Forall (scan_event env) evs.
Proof.
  intros st'. subst st'. unfold udf_init_row, appended.
  destruct (check_valid_path env (row_dl r)) eqn:Hcp; simpl.
  { split; [done|]. eexists [_]. split; [reflexivity|]. by repeat constructor. }
  destruct (check_string_char_length env (row_name r)); simpl.
  { split; [done|]. eexists [_]. split; [reflexivity|]. by repeat constructor. }
  destruct (add_udf_cases env (row_name r) (row_ret r) (row_dl r)
              (default UDFTYPE_FUNCTION (row_type r)) st)
    as (Ht & _ & Hl & _ & Hcases).
  destruct (add_udf env (row_name r) (row_ret r) (row_dl r)
              (default UDFTYPE_FUNCTION (row_type r)) st) as [tmp st1].
  simpl in *.
  destruct Hcases as [(-> & _)|(-> & Hnz & _ & _ & Hh & Hm & _)]; simpl.
  { split; [done|]. eexists [_]. split; [by rewrite Ht|]. by repeat constructor. }
  assert ((mem_next st =? 0) = false) as -> by by apply N.eqb_neq.
  assert (deref st1 (mem_next st)
          = mk_udf_func (row_name r) (row_ret r)
              (default UDFTYPE_FUNCTION (row_type r)) (row_dl r) 0 0 0 0 0 0 1)
    as Hd by (unfold deref; by rewrite Hm, lookup_insert_eq).
  destruct (emplace_lookup_is_Some (row_name r) (mem_next st) (udf_hash st))
    as [q Hq].
  rewrite <- Hh in Hq. rewrite Hd. simpl.
  destruct (find_udf_dl st1 (row_dl r) =? 0).
  - destruct (dlopen env (row_dl r) =? 0); simpl.
    + split; [done|]. eexists [_; _]. split; [by rewrite Ht|].
      by repeat constructor.
    + destruct (udf_init_bind_events env (mem_next st) (dlopen env (row_dl r)) true
                  (log (EvDlopen (row_dl r) (dlopen env (row_dl r))) st1) q)
        as (Hl' & evs & Happ & Hev).
      { rewrite deref_log, Hd. done. }
      split; [by rewrite Hl'|].
      exists (evs ++ [EvDlopen (row_dl r) (dlopen env (row_dl r))]).
      split.
      * rewrite Happ. simpl. rewrite Ht. by rewrite <- app_assoc.
      * apply Forall_app. split; [done|]. by repeat constructor.
  - destruct (udf_init_bind_events env (mem_next st) (find_udf_dl st1 (row_dl r))
                false st1 q) as (Hl' & evs & Happ & Hev).
    { rewrite Hd. done. }
    split; [by rewrite Hl'|].
    exists evs. split; [|done]. by rewrite Happ, Ht.
Qed.

Lemma udf_init_rows_events (env : Env) (l : list func_row) (st : udf_state) :
  let st' := fold_left (udf_init_row env) l st in
  THR_LOCK_udf st' = THR_LOCK_udf st ∧
  ∃ evs, appended st st' evs ∧ Forall (scan_event env) evs.
Proof.
  revert st. induction l as [|r l IH]; intros st; simpl.
  { split; [done|]. by exists []. }
  destruct (udf_init_row_events env st r) as (Hl1 & evs1 & Happ1 & Hev1).
  destruct (IH (udf_init_row env st r)) as (Hl2 & evs2 & Happ2 & Hev2).
  split; [by rewrite Hl2|].
  exists (evs2 ++ evs1). split.
  - unfold appended in *. by rewrite Happ2, Happ1, app_assoc.
  - by apply Forall_app.
Qed.

Lemma udf_init_events (env : Env) (rows : list func_row) (st : udf_state) :
  let st' := udf_init env rows st in
  THR_LOCK_udf st' = (if initialized st then THR_LOCK_udf st else 0%nat) ∧
  ∃ evs, appended st st' evs ∧ Forall (scan_event env) evs.
Proof.
  intros st'. subst st'. unfold udf_init, appended.
  destruct (initialized st).
  { split; [done|]. by exists []. }
  destruct (thd_alloc_fails env).
  { split; [done|]. eexists [_]. split; [reflexivity|]. by repeat constructor. }
  destruct (open_tables_fails env).
  { split; [done|]. eexists [_]. split; [reflexivity|]. by repeat constructor. }
  destruct (init_read_record_fails env).
  { split; [done|]. by exists []. }
  destruct (udf_init_rows_events env rows
              (set_initialized true (set_udf_hash ∅ (set_lock 0 st))))
    as (Hl & evs & Happ & Hev).
  unfold appended in Happ. simpl in Hl, Happ.
  destruct (0 <? read_record_error env)%Z; simpl.
  - split; [done|]. eexists (_ :: evs). split; [by rewrite Happ|].
    by repeat constructor.
  - split; [done|]. by exists evs.
Qed.

(** X10. The startup scan releases the lock every time it takes it,
    never trips the assertion of [udf_hash_delete], and does nothing
    outside the registry but write to the log, look symbols up, open
    libraries under paths that [check_valid_path] accepts, and close
    libraries: it changes no row, writes no binary log and ends no
    transaction. *)
Theorem udf_init_scan (env : Env) (rows : list func_row) (st : udf_state) :
  let st' := udf_init env rows st in
  THR_LOCK_udf st' = (if initialized st then THR_LOCK_udf st else 0%nat) ∧
  ∃ evs, appended st st' evs ∧ (EvAssert ∉ evs) ∧
    ∀ e, e ∈ evs ->
      (∃ lvl c a, e = EvLogErr lvl c a) ∨ (∃ h s, e = EvDlsym h s) ∨
      (∃ path, e = EvDlopen path (dlopen env path) ∧
               check_valid_path env path = false) ∨
      (∃ h, e = EvDlclose h).
Proof.
  intros st'. destruct (udf_init_events env rows st) as (Hl & evs & Happ & Hev).
  split; [done|]. exists evs. split; [done|].
  rewrite Forall_forall in Hev. split.
  - intros Hin. by apply Hev in Hin.
  - intros e Hin. apply Hev in Hin.
    destruct e; simpl in Hin; try done.
    + destruct Hin as [Hcp ->]. right; right; left. by exists path.
    + right; right; right. by eexists.
    + right; left. by do 2 eexists.
    + left. by do 3 eexists.
Qed.

(** ** What the operations do outside the registry *)

Lemma Forall_not_elem {A} (P : A -> Prop) (l : list A) (x : A) :
  Forall P l -> ¬ P x -> x ∉ l.
Proof. intros HF HP Hin. rewrite Forall_forall in HF. by apply HP, HF. Qed.

Lemma find_udf_trace (nm : string) (len : nat) (mark : bool) (st : udf_state) :
  trace (find_udf nm len mark st).2 = trace st.
Proof.
  unfold find_udf. destruct (initialized st); simpl; [|done].
  destruct (udf_hash st !! find_key nm len); [|done]. simpl_deref.
  match goal with |- context [if ?b then _ else _] => destruct b end; [done|].
  by destruct mark.
Qed.

Lemma free_udf_events (udf : N) (st : udf_state) :
  ∃ evs, appended st (free_udf udf st) evs ∧
         Forall (λ e, e = EvAssert ∨ ∃ h, e = EvDlclose h) evs.
Proof.
  unfold free_udf, appended.
  destruct (initialized st); simpl; [|by exists []].
  destruct (ulong_dec (usage_count (deref (rwlock_lock st) udf)) =? 0);
    [|by exists []].
  simpl_deref.
  match goal with |- context [udf_hash st !! ?k] => destruct (udf_hash st !! k) end.
  - match goal with |- context [if ?b then _ else _] => destruct b end; simpl.
    + eexists [_]. split; [reflexivity|]. apply Forall_singleton. right. by eexists.
    + by exists [].
  - eexists [_]. split; [reflexivity|]. apply Forall_singleton. by left.
Qed.

Lemma trans_rollback_events (env : Env) (st : udf_state) :
  ∃ evs, appended st (trans_rollback env st).2 evs ∧
         Forall transaction_event evs ∧ (EvCommitStmt ∉ evs) ∧ EvRollbackStmt ∈ evs.
Proof.
  unfold trans_rollback, appended. destruct (trans_rollback_stmt env); simpl.
  - eexists [_]. split_and!; [reflexivity|by repeat constructor| |by left].
    intros H. by apply list_elem_of_singleton in H.
  - eexists [_; _]. split_and!; [reflexivity|by repeat constructor| |by right; left].
    intros H. apply elem_of_cons in H as [H|H]; [done|].
    by apply list_elem_of_singleton in H.
Qed.

Lemma trans_commit_events (env : Env) (st : udf_state) :
  ∃ evs, appended st (trans_commit env st).2 evs ∧
         Forall transaction_event evs ∧ (EvRollbackStmt ∉ evs) ∧ EvCommitStmt ∈ evs.
Proof.
  unfold trans_commit, appended. destruct (trans_commit_stmt env); simpl.
  - eexists [_]. split_and!; [reflexivity|by repeat constructor| |by left].
    intros H. by apply list_elem_of_singleton in H.
  - eexists [_; _]. split_and!; [reflexivity|by repeat constructor| |by right; left].
    intros H. apply elem_of_cons in H as [H|H]; [done|].
    by apply list_elem_of_singleton in H.
Qed.

(** [udf_end_transaction] ends the transaction exactly once: by a commit
    when neither the caller nor the engine asks for a rollback and the
    descriptor could be inserted, by a rollback otherwise. *)
Lemma udf_end_transaction_events (env : Env) (rb : bool) (udf : N) (ins : bool)
                                 (st : udf_state) :
  let r := udf_end_transaction env rb udf ins st in
  ∃ evs, appended st r.2 evs ∧ Forall transaction_event evs ∧
    (EvCommitStmt ∈ evs ∨ EvRollbackStmt ∈ evs) ∧
    (EvCommitStmt ∈ evs ->
     transaction_rollback_request env = false ∧ rb = false ∧
     EvRollbackStmt ∉ evs).
Proof.
  intros r. subst r. unfold udf_end_transaction, appended.
  destruct (transaction_rollback_request env || rb) eqn:Hrb; simpl.
  - (* a rollback was asked for *)
    destruct (udf_hash_delete_trace_cases udf st) as [Ht|Ht].
    + destruct (trans_rollback_events env (udf_hash_delete udf st))
        as (evs & Happ & Hcl & Hnc & Hr).
      unfold appended in Happ.
      destruct (trans_rollback env (udf_hash_delete udf st)) as [res s2].
      simpl in *. exists evs. split_and!; [by rewrite Happ, Ht|done|by right|done].
    + destruct (trans_rollback_events env (udf_hash_delete udf st))
        as (evs & Happ & Hcl & Hnc & Hr).
      unfold appended in Happ.
      destruct (trans_rollback env (udf_hash_delete udf st)) as [res s2].
      simpl in *. exists (evs ++ [EvAssert]).
      split_and!.
      * by rewrite Happ, Ht, <- app_assoc.
      * apply Forall_app. split; [done|by repeat constructor].
      * right. apply elem_of_app. by left.
      * intros Hin. apply elem_of_app in Hin as [Hin|Hin]; [done|].
        by apply list_elem_of_singleton in Hin.
  - apply orb_false_elim in Hrb as [Htrr ->].
    destruct ins; simpl.
    + destruct (add_udf_cases env (name (deref st udf)) (returns (deref st udf))
                  (dl (deref st udf)) (type (deref st udf)) st) as (Ht & _).
      destruct (add_udf env (name (deref st udf)) (returns (deref st udf))
                  (dl (deref st udf)) (type (deref st udf)) st) as [u_f st1].
      simpl in Ht. simpl.
      destruct (u_f =? 0) eqn:Eu; simpl; rewrite ?Eu; simpl.
      * destruct (trans_rollback_events env st1) as (evs & Happ & Hcl & Hnc & Hr).
        unfold appended in Happ. destruct (trans_rollback env st1) as [res s2].
        simpl in *. exists evs.
        split_and!; [by rewrite Happ, Ht|done|by right|done].
      * match goal with
        | |- context [trans_commit env ?s] =>
            destruct (trans_commit_events env s) as (evs & Happ & Hcl & Hnr & Hc);
            unfold appended in Happ; destruct (trans_commit env s) as [res s2]
        end.
        simpl in *. exists evs.
        split_and!; [by rewrite Happ, Ht|done|by left|done].
    + destruct (udf_hash_delete_trace_cases udf st) as [Ht|Ht].
      * destruct (trans_commit_events env (udf_hash_delete udf st))
          as (evs & Happ & Hcl & Hnr & Hc).
        unfold appended in Happ.
        destruct (trans_commit env (udf_hash_delete udf st)) as [res s2].
        simpl in *. exists evs.
        split_and!; [by rewrite Happ, Ht|done|by left|done].
      * destruct (trans_commit_events env (udf_hash_delete udf st))
          as (evs & Happ & Hcl & Hnr & Hc).
        unfold appended in Happ.
        destruct (trans_commit env (udf_hash_delete udf st)) as [res s2].
        simpl in *. exists (evs ++ [EvAssert]).
        split_and!.
        -- by rewrite Happ, Ht, <- app_assoc.
        -- apply Forall_app. split; [done|by repeat constructor].
        -- left. apply elem_of_app. by left.
        -- intros _. split_and!; [done|done|].
           intros Hin. apply elem_of_app in Hin as [Hin|Hin]; [done|].
           by apply list_elem_of_singleton in Hin.
Qed.

(** An event of the list [l] that the class of [l] excludes. *)
Ltac ev_contra :=
  match goal with
  | H : ?e ∈ ?l, HF : Forall _ ?l |- _ =>
      exfalso; apply (proj1 (Forall_forall _ _) HF) in H; simpl in H;
      (exact H || (destruct H as [H|[? H]]; discriminate H))
  end.

Ltac ev_cases :=
  repeat match goal with
    | H : _ ∈ _ ++ _ |- _ => apply elem_of_app in H as [H|H]
    | H : _ ∈ _ :: _ |- _ => apply elem_of_cons in H as [H|H]
    | H : _ ∈ [] |- _ => by apply elem_of_nil in H
    end;
  try discriminate; try ev_contra.

Lemma create_with_library_events (env : Env) (udf : N) (dl1 : N) (new_dl : bool)
                                 (st : udf_state) :
  let c := create_with_library env udf dl1 new_dl st in
  ∃ evs, appended st c.2 evs ∧
    (∀ path h, EvDlopen path h ∉ evs) ∧
    (∀ nm, EvDeleteRow nm ∉ evs) ∧
    (EvBinlog ∈ evs ->
     EvWriteRow (name (deref st udf)) ∈ evs ∧ ha_write_row_fails env = false) ∧
    (EvCommitStmt ∈ evs ->
     EvBinlog ∈ evs ∧ write_bin_log_fails env = false ∧
     transaction_rollback_request env = false ∧ EvRollbackStmt ∉ evs).
Proof.
  intros c. subst c. unfold create_with_library, appended.
  set (s1 := store udf (set_dlhandle dl1 (deref st udf)) st).
  pose proof (init_syms_frame env udf s1)
    as (_ & _ & _ & _ & _ & Hid & evr & Happr & Hclr).
  assert (deref s1 udf = set_dlhandle dl1 (deref st udf)) as Hd1
    by (subst s1; apply deref_store_eq).
  rewrite Hd1 in Hid. destruct Hid as (Hname & _). simpl in Hname.
  unfold appended in Happr.
  destruct (init_syms env udf s1) as [[m|] s2]; simpl in *.
  - exists ((if new_dl then [EvDlclose dl1] else [])
            ++ EvMyError ER_CANT_FIND_DL_ENTRY m :: evr).
    split; [destruct new_dl; simpl; by rewrite Happr|].
    split_and!.
    + intros path h Hin. destruct new_dl; ev_cases.
    + intros nm Hin. destruct new_dl; ev_cases.
    + intros Hin. destruct new_dl; ev_cases.
    + intros Hin. destruct new_dl; ev_cases.
  - rewrite Hname. unfold write_func_row.
    destruct (ha_write_row_fails env) eqn:Hw; simpl.
    + match goal with
      | |- context [udf_end_transaction ?e ?rb ?u ?i ?s] =>
          destruct (udf_end_transaction_events e rb u i s)
            as (evt & Happt & Hclt & _ & Hcommit);
          unfold appended in Happt;
          destruct (udf_end_transaction e rb u i s) as [err s4]
      end.
      simpl in *. rewrite orb_true_r in Hcommit.
      exists ((if err then (if new_dl then [EvDlclose dl1] else [])
                           ++ [EvMyError ER_ERROR_ON_WRITE "mysql.func"]
               else [])
              ++ evt ++ EvWriteRow (name (deref st udf)) :: evr).
      split.
      { destruct err; [destruct new_dl|]; simpl; rewrite Happt, Happr;
          by rewrite <- ?app_assoc. }
      split_and!.
      * intros path h Hin. destruct err; [destruct new_dl|]; ev_cases.
      * intros nm Hin. destruct err; [destruct new_dl|]; ev_cases.
      * intros Hin. destruct err; [destruct new_dl|]; ev_cases.
      * intros Hin.
        assert (EvCommitStmt ∈ evt) as Hc
          by (destruct err; [destruct new_dl|]; ev_cases; done).
        by destruct (Hcommit Hc) as (_ & ? & _).
    + match goal with
      | |- context [udf_end_transaction ?e ?rb ?u ?i ?s] =>
          destruct (udf_end_transaction_events e rb u i s)
            as (evt & Happt & Hclt & _ & Hcommit);
          unfold appended in Happt;
          destruct (udf_end_transaction e rb u i s) as [err s4]
      end.
      simpl in *.
      exists ((if err then (if new_dl then [EvDlclose dl1] else [])
                           ++ [EvMyError ER_ERROR_ON_WRITE "mysql.func"]
               else [])
              ++ evt ++ EvBinlog :: EvWriteRow (name (deref st udf)) :: evr).
      split.
      { destruct err; [destruct new_dl|]; simpl; rewrite Happt, Happr;
          by rewrite <- ?app_assoc. }
      assert (∀ e, e ∈ evt ->
                e ∈ (if err then (if new_dl then [EvDlclose dl1] else [])
                                 ++ [EvMyError ER_ERROR_ON_WRITE "mysql.func"]
                     else [])
                    ++ evt ++ EvBinlog :: EvWriteRow (name (deref st udf)) :: evr)
        as Hmid.
      { intros e He. apply elem_of_app. right. apply elem_of_app. by left. }
      split_and!.
      * intros path h Hin. destruct err; [destruct new_dl|]; ev_cases.
      * intros nm Hin. destruct err; [destruct new_dl|]; ev_cases.
      * intros _. split; [|done].
        apply elem_of_app. right. apply elem_of_app. right. right. by left.
      * intros Hin.
        assert (EvCommitStmt ∈ evt) as Hc
          by (destruct err; [destruct new_dl|]; ev_cases; done).
        destruct (Hcommit Hc) as (Htrr & Hrb & Hnr).
        rewrite Htrr in Hrb. simpl in Hrb.
        split_and!; try done.
        -- apply elem_of_app. right. apply elem_of_app. right. by left.
        -- intros Hr. destruct err; [destruct new_dl|]; ev_cases; done.
Qed.

Lemma quiet_events (env : Env) (evs : list event) :
  (∀ path h, EvDlopen path h ∉ evs) -> (EvBinlog ∉ evs) -> (EvCommitStmt ∉ evs) ->
  checked_opens env evs ∧ commit_discipline env evs.
Proof.
  intros H1 H2 H3. split; [|split].
  - intros path h Hin. by apply H1 in Hin.
  - intros Hin. by apply H2 in Hin.
  - intros Hin. by apply H3 in Hin.
Qed.

Lemma mysql_create_function_events (env : Env) (udf : N) (st : udf_state) :
  ∃ evs, appended st (mysql_create_function env udf st).2 evs ∧
         checked_opens env evs ∧ commit_discipline env evs.
Proof.
  unfold mysql_create_function, appended.
  destruct (initialized st); simpl.
  2:{ eexists [_]. split; [reflexivity|]. apply quiet_events.
      - intros path h Hin. destruct (opt_noacl env); ev_cases.
      - intros Hin. destruct (opt_noacl env); ev_cases.
      - intros Hin. destruct (opt_noacl env); ev_cases. }
  destruct (check_valid_path env (dl (deref st udf))) eqn:Hcp.
  { eexists [_]. split; [reflexivity|]. apply quiet_events; intros; intros Hin; ev_cases. }
  destruct (check_string_char_length env (name (deref st udf))).
  { eexists [_]. split; [reflexivity|]. apply quiet_events; intros; intros Hin; ev_cases. }
  destruct (open_tables_fails env).
  { exists []. split; [reflexivity|]. apply quiet_events; intros; intros Hin; ev_cases. }
  destruct (udf_hash st !! name (deref st udf)).
  { eexists [_]. split; [reflexivity|]. apply quiet_events; intros; intros Hin; ev_cases. }
  assert (∀ dl1 new_dl s evs0,
            trace s = evs0 ++ trace st -> deref s udf = deref st udf ->
            checked_opens env evs0 ->
            (∀ e, e ∈ evs0 -> ∃ path h, e = EvDlopen path h) ->
            ∃ evs, trace (create_with_library env udf dl1 new_dl s).2
                   = evs ++ trace st ∧
                   checked_opens env evs ∧ commit_discipline env evs) as Hlib.
  { intros dl1 new_dl s evs0 Ht Hd Hopen Hcl.
    destruct (create_with_library_events env udf dl1 new_dl s)
      as (evs & Happ & Hno & Hnd & Hbin & Hcommit).
    unfold appended in Happ. rewrite Hd in Hbin.
    assert (∀ e, (∀ path h, e ≠ EvDlopen path h) -> e ∈ evs ++ evs0 -> e ∈ evs)
      as Hin0.
    { intros e He Hin. apply elem_of_app in Hin as [Hin|Hin]; [done|].
      destruct (Hcl _ Hin) as (path & h & ->). by destruct (He path h). }
    exists (evs ++ evs0). split; [by rewrite Happ, Ht, app_assoc|].
    split; [|split].
    - intros path h Hin. apply elem_of_app in Hin as [Hin|Hin].
      + by apply Hno in Hin.
      + by apply Hopen.
    - intros Hin. apply Hin0 in Hin; [|done].
      destruct (Hbin Hin) as [Hw Hf]. left. eexists. split; [|done].
      apply elem_of_app. by left.
    - intros Hin. apply Hin0 in Hin; [|done].
      destruct (Hcommit Hin) as (Hb & Hwb & Htrr & Hnr).
      split_and!; try done.
      + apply elem_of_app. by left.
      + intros Hr. apply Hin0 in Hr; [|done]. done. }
  destruct (find_udf_dl (rwlock_lock st) (dl (deref st udf)) =? 0).
  - destruct (dlopen env (dl (deref st udf)) =? 0) eqn:Hz.
    + eexists [_; _]. split; [reflexivity|]. split; [|split].
      * intros path h Hin. ev_cases. by injection Hin as -> ->.
      * intros Hin. ev_cases.
      * intros Hin. ev_cases.
    + apply (Hlib _ _ _ [EvDlopen (dl (deref st udf))
                                  (dlopen env (dl (deref st udf)))]);
        [done|done| |].
      * intros path h Hin. ev_cases. by injection Hin as -> ->.
      * intros e Hin. ev_cases. subst e. by do 2 eexists.
  - apply (Hlib _ _ _ []); [done|done| |].
    + intros path h Hin. ev_cases.
    + intros e Hin. ev_cases.
Qed.

Lemma mysql_drop_function_events (env : Env) (nm : string) (st : udf_state) :
  ∃ evs, appended st (mysql_drop_function env nm st).2 evs ∧
         checked_opens env evs ∧ commit_discipline env evs.
Proof.
  unfold mysql_drop_function, appended.
  destruct (initialized st); simpl.
  2:{ eexists [_]. split; [reflexivity|]. apply quiet_events.
      - intros path h Hin. destruct (opt_noacl env); ev_cases.
      - intros Hin. destruct (opt_noacl env); ev_cases.
      - intros Hin. destruct (opt_noacl env); ev_cases. }
  destruct (open_tables_fails env).
  { exists []. split; [reflexivity|]. apply quiet_events; intros; intros Hin; ev_cases. }
  destruct (udf_hash st !! nm) as [p|].
  2:{ eexists [_]. split; [reflexivity|].
      apply quiet_events; intros; intros Hin; ev_cases. }
  set (s0 := rwlock_unlock (rwlock_lock st)).
  assert (∀ error s evs0,
            trace s = evs0 ++ trace st ->
            (∀ path h, EvDlopen path h ∉ evs0) ->
            (EvCommitStmt ∉ evs0) -> (EvRollbackStmt ∉ evs0) ->
            (error = false ->
             EvBinlog ∈ evs0 ∧ write_bin_log_fails env = false) ->
            (EvBinlog ∈ evs0 ->
             ∃ n, EvDeleteRow n ∈ evs0 ∧ ha_index_read_fails env = false ∧
                  ha_delete_row_fails env = false) ->
            ∃ evs, trace (let '(error, s') :=
                            udf_end_transaction env error p false s in
                          (error,
                           if negb (dlhandle (deref s' p) =? 0)
                              && (find_udf_dl s' (dl (deref s' p)) =? 0)
                           then log (EvDlclose (dlhandle (deref s' p))) s'
                           else s')).2 = evs ++ trace st ∧
                   checked_opens env evs ∧ commit_discipline env evs) as Hend.
  { intros error s evs0 Ht Hno Hnc Hnr Herr Hbin.
    destruct (udf_end_transaction_events env error p false s)
      as (evt & Happt & Hclt & _ & Hcommit).
    unfold appended in Happt.
    destruct (udf_end_transaction env error p false s) as [err s4].
    simpl in *.
    set (c := negb (dlhandle (deref s4 p) =? 0)
              && (find_udf_dl s4 (dl (deref s4 p)) =? 0)).
    exists ((if c then [EvDlclose (dlhandle (deref s4 p))] else [])
            ++ evt ++ evs0).
    split; [destruct c; simpl; by rewrite Happt, Ht, <- ?app_assoc|].
    split; [|split].
    - intros path h Hin. destruct c; ev_cases; by apply Hno in Hin.
    - intros Hin.
      assert (EvBinlog ∈ evs0) as Hb by (destruct c; ev_cases; done).
      destruct (Hbin Hb) as (n & Hn & Hi & Hd).
      right. exists n. split; [|done].
      apply elem_of_app. right. apply elem_of_app. by right.
    - intros Hin.
      assert (EvCommitStmt ∈ evt) as Hc by (destruct c; ev_cases; done).
      destruct (Hcommit Hc) as (Htrr & -> & Hnr').
      destruct (Herr eq_refl) as [Hb Hwb].
      split_and!; try done.
      + apply elem_of_app. right. apply elem_of_app. by right.
      + intros Hr. destruct c; ev_cases; done. }
  destruct (ha_index_read_fails env) eqn:Hi; simpl.
  - apply (Hend true s0 []); try done.
    + intros path h Hin. ev_cases.
    + intros Hin. ev_cases.
    + intros Hin. ev_cases.
    + intros Hin. ev_cases.
  - destruct (ha_delete_row_fails env) eqn:Hd; simpl.
    + apply (Hend true _ [EvPrintError; EvDeleteRow (name (deref s0 p))]);
        try done.
      * intros path h Hin. ev_cases.
      * intros Hin. ev_cases.
      * intros Hin. ev_cases.
      * intros Hin. ev_cases.
    + apply (Hend (write_bin_log_fails env) _
               [EvBinlog; EvDeleteRow (name (deref s0 p))]); try done.
      * intros path h Hin. ev_cases.
      * intros Hin. ev_cases.
      * intros Hin. ev_cases.
      * intros ->. split; [by left|done].
      * intros _. eexists. split; [right; by left|done].
Qed.

Lemma run_op_events (env : Env) (st : udf_state) (o : registry_op) :
  ∃ evs, appended st (run_op env st o) evs ∧
         checked_opens env evs ∧ commit_discipline env evs.
Proof.
  destruct o as [rows|u|nm|[nm len mark|udf]]; simpl.
  - destruct (udf_init_events env rows st) as (_ & evs & Happ & Hev).
    exists evs. split; [done|]. split; [|split].
    + intros path h Hin. ev_cases.
      by apply (proj1 (Forall_forall _ _) Hev) in Hin.
    + intros Hin. ev_cases.
    + intros Hin. ev_cases.
  - apply (mysql_create_function_events env (mem_next st)
             (set_mem_next (mem_next st + 1) (store (mem_next st) u st))).
  - apply mysql_drop_function_events.
  - exists []. split; [by unfold appended; rewrite find_udf_trace|].
    apply quiet_events; intros; intros Hin; ev_cases.
  - destruct (free_udf_events udf st) as (evs & Happ & Hev).
    exists evs. split; [done|].
    apply quiet_events; intros; intros Hin; ev_cases.
Qed.

(** X12. Whatever the operation (startup scan, CREATE FUNCTION, DROP
    FUNCTION, lookup or release), a library is opened only under a path
    that [check_valid_path] accepts, and the handle kept is the one
    [dlopen] answered. *)
Theorem library_paths_checked (env : Env) (st : udf_state) (o : registry_op) :
  ∃ evs, appended st (run_op env st o) evs ∧
    ∀ path h, EvDlopen path h ∈ evs ->
              check_valid_path env path = false ∧ h = dlopen env path.
Proof.
  destruct (run_op_events env st o) as (evs & Happ & Hopen & _).
  exists evs. split; [done|]. intros path h Hin. by apply Hopen.
Qed.


(** ** The statements that succeed *)

(** X15. DROP FUNCTION of a function that nobody holds, when it reports
    success and the engine asks for no rollback: the row was deleted,
    then the statement was written to the binary log, then both commits
    were made, in this order; the name is no longer a key and no other
    descriptor is touched; the lock is free; and the library is closed
    exactly when the function had a handle and no function left has one
    for that library. *)
Theorem mysql_drop_function_success (env : Env) (nm : string) (st : udf_state)
                                    (p : N) :
  udf_hash st !! nm = Some p ->
  name (deref st p) = nm ->
  usage_count (deref st p) = 1 ->
  transaction_rollback_request env = false ->
  (mysql_drop_function env nm st).1 = false ->
  let d := mysql_drop_function env nm st in
  udf_hash d.2 = delete nm (udf_hash st) ∧
  (∀ q, q ≠ p -> mem d.2 !! q = mem st !! q) ∧
  THR_LOCK_udf d.2 = THR_LOCK_udf st ∧
  ∃ closes,
    trace d.2 = closes ++ [EvCommitImplicit; EvCommitStmt; EvBinlog; EvDeleteRow nm]
                       ++ trace st ∧
    ((closes = [EvDlclose (dlhandle (deref st p))] ∧ dlhandle (deref st p) ≠ 0 ∧
      ∀ k q, udf_hash d.2 !! k = Some q -> dl (deref d.2 q) = dl (deref st p) ->
             dlhandle (deref d.2 q) = 0)
     ∨ (closes = [] ∧
        (dlhandle (deref st p) = 0
         ∨ ∃ k q, udf_hash d.2 !! k = Some q ∧ dl (deref d.2 q) = dl (deref st p) ∧
                  dlhandle (deref d.2 q) ≠ 0))).
Proof.
  intros Hk Hname Hcnt Htrr Hok d.
  assert (initialized st = true) as Hi.
  { destruct (initialized st) eqn:E; [done|].
    unfold mysql_drop_function in Hok. by rewrite E in Hok. }
  assert (open_tables_fails env = false) as Ho.
  { destruct (open_tables_fails env) eqn:E; [|done].
    unfold mysql_drop_function in Hok. by rewrite Hi, E in Hok. }
  destruct (mysql_drop_function_found env nm st p Hi Ho Hk)
    as (evs0 & st0 & -> & _ & Heq).
  simpl in Heq. rewrite udf_end_transaction_drop in Heq. simpl in Heq.
  rewrite Htrr in Heq. simpl in Heq.
  assert (ha_index_read_fails env = false ∧ ha_delete_row_fails env = false ∧
          write_bin_log_fails env = false ∧ trans_commit_stmt env = false ∧
          trans_commit_implicit env = false) as (Hir & Hdr & Hwb & Hcs & Hci).
  { rewrite Heq in Hok. simpl in Hok.
    apply orb_false_elim in Hok as [Hc Hok].
    apply orb_false_elim in Hok as [Hok Hwb].
    apply orb_false_elim in Hok as [Hir Hdr].
    rewrite Hir, Hdr, Hwb in Hc. simpl in Hc.
    destruct (trans_commit_frame env
                (udf_hash_delete p
                   (mk_state (initialized st) (mem st) (mem_next st) (udf_hash st)
                      (using_udf_functions st) (THR_LOCK_udf st)
                      (evs0 ++ trace st)))) as (_ & _ & _ & Hres & _).
    rewrite Hc in Hres. by destruct (trans_commit_stmt env). }
  clear Heq evs0.
  subst d. unfold mysql_drop_function. rewrite Hi, Ho. simpl. rewrite Hk.
  rewrite Hir, Hdr, Hwb. simpl. rewrite udf_end_transaction_drop. simpl.
  rewrite Htrr. simpl. unfold trans_commit. rewrite Hcs. simpl.
  rewrite rwlock_unlock_lock, Hname.
  set (s1 := log EvBinlog (log (EvDeleteRow nm) st)).
  assert (udf_hash s1 !! name (deref s1 p) = Some p) as Hk1
    by (subst s1; rewrite !deref_log; simpl; by rewrite Hname).
  assert (usage_count (deref s1 p) = 1) as Hc1 by done.
  pose proof (udf_hash_delete_last p s1 p Hk1 Hc1) as Hh2.
  pose proof (udf_hash_delete_trace p s1 p Hk1) as Ht2.
  pose proof (udf_hash_delete_registered p s1 p Hk1) as He2. simpl in He2.
  destruct (udf_hash_delete_frame p s1) as (_ & _ & _ & _ & Hm2 & Hid2).
  assert (THR_LOCK_udf (udf_hash_delete p s1) = THR_LOCK_udf st) as Hl2
    by (by rewrite He2).
  clear He2.
  set (s2 := udf_hash_delete p s1) in *.
  set (s3 := log EvCommitImplicit (log EvCommitStmt s2)).
  assert (∀ q, deref s3 q = deref s2 q) as Hd3 by done.
  assert (dl (deref s3 p) = dl (deref st p) ∧
          dlhandle (deref s3 p) = dlhandle (deref st p)) as [Hdl Hdh].
  { rewrite Hd3. by destruct (Hid2 p) as (_ & ? & ?). }
  assert (udf_hash s3 = delete nm (udf_hash st)) as Hh3.
  { change (udf_hash s3) with (udf_hash s2). rewrite Hh2.
    subst s1. rewrite !deref_log. simpl. by rewrite Hname. }
  rewrite Hdl, Hdh.
  destruct (dlhandle (deref st p) =? 0) eqn:Hz; simpl.
  { apply N.eqb_eq in Hz. split_and!; try done.
    exists []. split; [simpl; by rewrite Ht2|]. right. split; [done|by left]. }
  apply N.eqb_neq in Hz.
  destruct (find_udf_dl s3 (dl (deref st p)) =? 0) eqn:Hf; simpl.
  - apply N.eqb_eq in Hf. split_and!; try done.
    eexists [_]. split; [simpl; by rewrite Ht2|]. left. split_and!; try done.
    intros k q Hq Hd. by apply (find_udf_dl_None s3 (dl (deref st p)) k q).
  - apply N.eqb_neq in Hf. split_and!; try done.
    exists []. split; [simpl; by rewrite Ht2|]. right. split; [done|]. right.
    destruct (find_udf_dl_Some s3 (dl (deref st p)) Hf) as (k & q & Hq & Hd & Hh).
    exists k, q. split_and!; try done. by rewrite Hh.
Qed.

Lemma init_syms_None_iff (env : Env) (tmp : N) (st : udf_state) :
  let u := deref st tmp in
  (init_syms env tmp st).1 = None ↔
  resolves env (dlhandle u) (name u) (type u) = true.
Proof.
  intros u. split; [|by apply init_syms_resolves].
  unfold init_syms, resolves. fold u.
  destruct (dlsym env (dlhandle u) (name u) =? 0) eqn:Hf; simpl; [done|].
  destruct (type u =? UDFTYPE_AGGREGATE) eqn:Ht.
  - destruct (dlsym env (dlhandle u) (name u +:+ "_clear") =? 0); simpl; [done|].
    by destruct (dlsym env (dlhandle u) (name u +:+ "_add") =? 0).
  - simpl_deref. rewrite Ht. simpl. rewrite andb_true_r.
    destruct (dlsym env (dlhandle u) (name u +:+ "_init") =? 0);
      destruct (dlsym env (dlhandle u) (name u +:+ "_deinit") =? 0); simpl;
      try done.
    by destruct (opt_allow_suspicious_udfs env).
Qed.

(** The statement that inserts the descriptor succeeds exactly when no
    rollback is asked for, the descriptor can be added and both commits
    succeed; the trace of a success is the two commits. *)
Lemma udf_end_transaction_insert_ok (env : Env) (rb : bool) (udf : N)
                                    (st : udf_state) :
  0 < mem_next st ->
  let r := udf_end_transaction env rb udf true st in
  let typ := type (deref st udf) in
  (r.1 = false ↔
   transaction_rollback_request env = false ∧ rb = false ∧
   (typ = UDFTYPE_FUNCTION ∨ typ = UDFTYPE_AGGREGATE) ∧
   alloc_root_fails env = false ∧
   trans_commit_stmt env = false ∧ trans_commit_implicit env = false) ∧
  (r.1 = false ->
   trace r.2 = EvCommitImplicit :: EvCommitStmt :: trace st ∧
   THR_LOCK_udf r.2 = THR_LOCK_udf st).
Proof.
  intros Hnx r typ. subst r typ. unfold udf_end_transaction.
  destruct (transaction_rollback_request env) eqn:Htrr; simpl.
  { destruct (trans_rollback env (udf_hash_delete udf st)) as [res s2]. simpl.
    rewrite !orb_true_r. split; [|done]. split; [done|]. by intros (? & _). }
  destruct rb; simpl.
  { destruct (trans_rollback env (udf_hash_delete udf st)) as [res s2]. simpl.
    rewrite !orb_true_r. split; [|done]. split; [done|]. by intros (_ & ? & _). }
  unfold add_udf, alloc_root, UDFTYPE_FUNCTION, UDFTYPE_AGGREGATE.
  destruct (type (deref st udf) =? 0) eqn:Ht0; simpl.
  { apply N.eqb_eq in Ht0. destruct (trans_rollback env st) as [res s2]. simpl.
    rewrite !orb_true_r. split; [|done]. split; [done|]. intros (_ & _ & ? & _). lia. }
  destruct (2 <? type (deref st udf)) eqn:Ht2; simpl.
  { apply N.ltb_lt in Ht2. destruct (trans_rollback env st) as [res s2]. simpl.
    rewrite !orb_true_r. split; [|done]. split; [done|]. intros (_ & _ & ? & _). lia. }
  apply N.eqb_neq in Ht0. apply N.ltb_ge in Ht2.
  destruct (alloc_root_fails env); simpl.
  { destruct (trans_rollback env st) as [res s2]. simpl.
    rewrite !orb_true_r. split; [|done]. split; [done|]. by intros (_ & _ & _ & ? & _). }
  assert ((mem_next st =? 0) = false) as Hz by (apply N.eqb_neq; lia).
  repeat (rewrite Hz; simpl).
  unfold trans_commit.
  destruct (trans_commit_stmt env); simpl.
  { split; [|done]. split; [done|]. by intros (_ & _ & _ & _ & ? & _). }
  rewrite !orb_false_r.
  destruct (trans_commit_implicit env); simpl.
  { split; [|done]. split; [done|]. by intros (_ & _ & _ & _ & _ & ?). }
  split; [|done]. split; [|done]. intros _. split_and!; try done. lia.
Qed.

Lemma create_with_library_ok (env : Env) (udf : N) (dl1 : N) (new_dl : bool)
                             (st : udf_state) :
  0 < mem_next st ->
  let u := deref st udf in
  let c := create_with_library env udf dl1 new_dl st in
  (c.1 = false ↔
   resolves env dl1 (name u) (type u) = true ∧
   ha_write_row_fails env = false ∧ write_bin_log_fails env = false ∧
   transaction_rollback_request env = false ∧
   (type u = UDFTYPE_FUNCTION ∨ type u = UDFTYPE_AGGREGATE) ∧
   alloc_root_fails env = false ∧
   trans_commit_stmt env = false ∧ trans_commit_implicit env = false) ∧
  (c.1 = false ->
   THR_LOCK_udf c.2 = THR_LOCK_udf st ∧
   ∃ evr, Forall resolution_event evr ∧
     trace c.2 = [EvCommitImplicit; EvCommitStmt; EvBinlog; EvWriteRow (name u)]
                 ++ evr ++ trace st).
Proof.
  intros Hnx u c. subst c. unfold create_with_library. fold u.
  set (s1 := store udf (set_dlhandle dl1 u) st).
  assert (deref s1 udf = set_dlhandle dl1 u) as Hd1
    by (subst s1; apply deref_store_eq).
  pose proof (init_syms_None_iff env udf s1) as Hres.
  rewrite Hd1 in Hres. simpl in Hres.
  pose proof (init_syms_frame env udf s1)
    as (_ & Hn & _ & Hl & _ & Hid & evr & Happr & Hclr).
  rewrite Hd1 in Hid. destruct Hid as (Hname & _ & Htype & _).
  simpl in Hname, Htype. unfold appended in Happr.
  destruct (init_syms env udf s1) as [[m|] s2]; simpl in *.
  { split; [|by destruct new_dl]. split; [by destruct new_dl|].
    intros (Hr & _). apply Hres in Hr. done. }
  assert (resolves env dl1 (name u) (type u) = true) as Hr by by apply Hres.
  rewrite Hname. unfold write_func_row.
  destruct (ha_write_row_fails env); simpl.
  { match goal with
    | |- context [udf_end_transaction ?e ?rb ?u ?i ?s] =>
        destruct (udf_end_transaction_insert_ok e rb u s) as [Hiff _]; [simpl; lia|];
        destruct (udf_end_transaction e rb u i s) as [err s4]
    end.
    simpl in *. rewrite orb_true_r in Hiff.
    destruct err; simpl.
    - split; [|done]. split; [done|]. by intros (_ & ? & _).
    - by destruct (proj1 Hiff eq_refl) as (_ & ? & _). }
  destruct (write_bin_log_fails env) eqn:Hwb; simpl.
  { match goal with
    | |- context [udf_end_transaction ?e ?rb ?u ?i ?s] =>
        destruct (udf_end_transaction_insert_ok e rb u s) as [Hiff _]; [simpl; lia|];
        destruct (udf_end_transaction e rb u i s) as [err s4]
    end.
    simpl in *. rewrite orb_true_r in Hiff.
    destruct err; simpl.
    - split; [|done]. split; [done|]. by intros (_ & _ & ? & _).
    - by destruct (proj1 Hiff eq_refl) as (_ & ? & _). }
  match goal with
  | |- context [udf_end_transaction ?e ?rb ?u ?i ?s] =>
      destruct (udf_end_transaction_insert_ok e rb u s) as [Hiff Htr]; [simpl; lia|];
      destruct (udf_end_transaction e rb u i s) as [err s4]
  end.
  simpl in *. rewrite orb_false_r in Hiff. rewrite !deref_log, Htype in Hiff.
  destruct err; simpl.
  - split; [|done]. split; [done|].
    intros (_ & _ & _ & Htrr & Hty & Ha & Hcs & Hci).
    apply Hiff. by rewrite Htrr.
  - destruct (proj1 Hiff eq_refl) as (Htrr & _ & Hty & Ha & Hcs & Hci).
    destruct (Htr eq_refl) as [Ht4 Hl4].
    split; [done|]. intros _. split; [by rewrite Hl4, <- Hl|].
    exists evr. split; [done|]. rewrite Ht4. simpl. by rewrite Happr.
Qed.

(** X14. CREATE FUNCTION succeeds exactly when the registry is
    initialised, the library path and the name pass their checks, the
    tables open, the name is not a key, the library has or gets a handle,
    the symbols resolve, the row and the binary log are written, no
    rollback is asked for, the descriptor can be added and both commits
    succeed. A success leaves the lock free and has, in this order,
    opened the library if no registered function had it open, resolved
    the symbols, written the row, written the binary log and
    committed. *)
Theorem mysql_create_function_succeeds (env : Env) (udf : N) (st : udf_state) :
  0 < mem_next st ->
  let u := deref st udf in
  let h := create_handle env st (dl u) in
  let c := mysql_create_function env udf st in
  (c.1 = false ↔
   initialized st = true ∧
   check_valid_path env (dl u) = false ∧
   check_string_char_length env (name u) = false ∧
   open_tables_fails env = false ∧
   udf_hash st !! name u = None ∧
   h ≠ 0 ∧ resolves env h (name u) (type u) = true ∧
   ha_write_row_fails env = false ∧ write_bin_log_fails env = false ∧
   transaction_rollback_request env = false ∧
   (type u = UDFTYPE_FUNCTION ∨ type u = UDFTYPE_AGGREGATE) ∧
   alloc_root_fails env = false ∧
   trans_commit_stmt env = false ∧ trans_commit_implicit env = false) ∧
  (c.1 = false ->
   THR_LOCK_udf c.2 = THR_LOCK_udf st ∧
   ∃ evr, Forall resolution_event evr ∧
     trace c.2 = [EvCommitImplicit; EvCommitStmt; EvBinlog; EvWriteRow (name u)]
                 ++ evr
                 ++ (if find_udf_dl st (dl u) =? 0 then [EvDlopen (dl u) h] else [])
                 ++ trace st).
Proof.
  intros Hnx u h c. subst c. unfold mysql_create_function. fold u.
  destruct (initialized st); simpl.
  2:{ split; [|done]. split; [done|]. by intros (? & _). }
  destruct (check_valid_path env (dl u)).
  { split; [|done]. split; [done|]. by intros (_ & ? & _). }
  destruct (check_string_char_length env (name u)).
  { split; [|done]. split; [done|]. by intros (_ & _ & ? & _). }
  destruct (open_tables_fails env).
  { split; [|done]. split; [done|]. by intros (_ & _ & _ & ? & _). }
  destruct (udf_hash st !! name u) eqn:Hk.
  { split; [|done]. split; [done|]. by intros (_ & _ & _ & _ & ? & _). }
  change (find_udf_dl (rwlock_lock st) (dl u)) with (find_udf_dl st (dl u)).
  rewrite rwlock_unlock_lock.
  subst h. unfold create_handle.
  destruct (find_udf_dl st (dl u) =? 0) eqn:Hf.
  - destruct (dlopen env (dl u) =? 0) eqn:Hz.
    { apply N.eqb_eq in Hz. split; [|done]. split; [done|].
      by intros (_ & _ & _ & _ & _ & ? & _). }
    apply N.eqb_neq in Hz.
    destruct (create_with_library_ok env udf (dlopen env (dl u)) true
                (log (EvDlopen (dl u) (dlopen env (dl u))) st) Hnx)
      as [Hiff Htr].
    rewrite deref_log in Hiff, Htr. fold u in Hiff, Htr. split.
    + rewrite Hiff. split.
      * intros (? & ? & ? & ? & ? & ? & ? & ?). by split_and!.
      * intros (_ & _ & _ & _ & _ & _ & ? & ? & ? & ? & ? & ? & ? & ?).
        by split_and!.
    + intros Hok. destruct (Htr Hok) as (Hl & evr & Hcl & Ht).
      split; [done|]. exists evr. split; [done|]. by rewrite Ht.
  - apply N.eqb_neq in Hf.
    destruct (create_with_library_ok env udf (find_udf_dl st (dl u)) false st Hnx)
      as [Hiff Htr].
    fold u in Hiff, Htr. split.
    + rewrite Hiff. split.
      * intros (? & ? & ? & ? & ? & ? & ? & ?). by split_and!.
      * intros (_ & _ & _ & _ & _ & _ & ? & ? & ? & ? & ? & ? & ? & ?).
        by split_and!.
    + intros Hok. destruct (Htr Hok) as (Hl & evr & Hcl & Ht).
      split; [done|]. exists evr. split; [done|]. by rewrite Ht.
Qed.

Lemma find_ext_In {A} (f g : A -> bool) (l : list A) :
  (∀ x, In x l -> f x = g x) -> List.find f l = List.find g l.
Proof.
  induction l as [|a l IH]; intros H; simpl; [done|].
  rewrite <- (H a) by (by left). destruct (f a); [done|].
  apply IH. intros x Hx. apply H. by right.
Qed.

(** [find_udf_dl] reads the hash and the registered descriptors only. *)
Lemma find_udf_dl_registered (st st' : udf_state) (path : string) :
  udf_hash st' = udf_hash st ->
  (∀ k p, udf_hash st !! k = Some p -> deref st' p = deref st p) ->
  find_udf_dl st' path = find_udf_dl st path.
Proof.
  intros Hh Hd. unfold find_udf_dl. rewrite Hh.
  assert (∀ kv, In kv (map_to_list (udf_hash st)) ->
                deref st' kv.2 = deref st kv.2) as Hin.
  { intros [k p] Hkv. apply list_elem_of_In, elem_of_map_to_list in Hkv.
    by apply (Hd k). }
  rewrite (find_ext_In (dl_matches st' path) (dl_matches st path)).
  - destruct (List.find _ _) as [kv|] eqn:Hf; [|done].
    apply List.find_some in Hf as [Hkv _]. by rewrite (Hin _ Hkv).
  - intros kv Hkv. unfold dl_matches. by rewrite (Hin _ Hkv).
Qed.

(** What a successful CREATE FUNCTION has passed before it reaches the
    library. *)
Lemma mysql_create_function_ok_pre (env : Env) (udf : N) (st : udf_state) :
  let u := deref st udf in
  (mysql_create_function env udf st).1 = false ->
  initialized st = true ∧ check_valid_path env (dl u) = false ∧
  check_string_char_length env (name u) = false ∧
  open_tables_fails env = false ∧ udf_hash st !! name u = None ∧
  create_handle env st (dl u) ≠ 0.
Proof.
  intros u. unfold mysql_create_function, create_handle. fold u.
  destruct (initialized st); simpl; [|done].
  destruct (check_valid_path env (dl u)); [done|].
  destruct (check_string_char_length env (name u)); [done|].
  destruct (open_tables_fails env); [done|].
  destruct (udf_hash st !! name u); [done|].
  change (find_udf_dl (rwlock_lock st) (dl u)) with (find_udf_dl st (dl u)).
  destruct (find_udf_dl st (dl u) =? 0) eqn:Hf.
  - destruct (dlopen env (dl u) =? 0) eqn:Hz; [done|].
    apply N.eqb_neq in Hz. done.
  - apply N.eqb_neq in Hf. done.
Qed.

Lemma udf_end_transaction_initialized (env : Env) (rb : bool) (udf : N)
                                      (ins : bool) (st : udf_state) :
  initialized (udf_end_transaction env rb udf ins st).2 = initialized st.
Proof.
  unfold udf_end_transaction.
  assert (∀ s, initialized (trans_rollback env s).2 = initialized s) as Hrb
    by (intros s; unfold trans_rollback; by destruct (trans_rollback_stmt env)).
  assert (∀ s, initialized (trans_commit env s).2 = initialized s) as Hcm
    by (intros s; unfold trans_commit; by destruct (trans_commit_stmt env)).
  destruct (negb (transaction_rollback_request env || rb) && ins).
  - destruct (add_udf_cases env (name (deref st udf)) (returns (deref st udf))
                (dl (deref st udf)) (type (deref st udf)) st) as (_ & Hi & _).
    destruct (add_udf env (name (deref st udf)) (returns (deref st udf))
                (dl (deref st udf)) (type (deref st udf)) st) as [u_f st1].
    simpl in Hi.
    destruct (negb (u_f =? 0));
      match goal with |- context [if ?b then _ else _] => destruct b end;
      match goal with
      | |- context [trans_rollback env ?s] =>
          specialize (Hrb s); destruct (trans_rollback env s)
      | |- context [trans_commit env ?s] =>
          specialize (Hcm s); destruct (trans_commit env s)
      end; simpl in *; congruence.
  - destruct (udf_hash_delete_frame udf st) as (_ & Hi & _).
    match goal with |- context [if ?b then _ else _] => destruct b end;
      match goal with
      | |- context [trans_rollback env ?s] =>
          specialize (Hrb s); destruct (trans_rollback env s)
      | |- context [trans_commit env ?s] =>
          specialize (Hcm s); destruct (trans_commit env s)
      end; simpl in *; congruence.
Qed.

Lemma mysql_create_function_initialized (env : Env) (udf : N) (st : udf_state) :
  initialized (mysql_create_function env udf st).2 = initialized st.
Proof.
  assert (∀ dl1 new_dl s,
            initialized (create_with_library env udf dl1 new_dl s).2
            = initialized s) as Hlib.
  { intros dl1 new_dl s. unfold create_with_library.
    pose proof (init_syms_frame env udf
                  (store udf (set_dlhandle dl1 (deref s udf)) s))
      as (_ & _ & Hi & _).
    destruct (init_syms env udf (store udf (set_dlhandle dl1 (deref s udf)) s))
      as [[m|] s2]; simpl in *; [by destruct new_dl|].
    unfold write_func_row.
    destruct (negb (ha_write_row_fails env)); simpl;
      match goal with
      | |- context [udf_end_transaction ?e ?rb ?u ?i ?s] =>
          pose proof (udf_end_transaction_initialized e rb u i s) as Ht;
          destruct (udf_end_transaction e rb u i s) as [err s4]
      end; simpl in *; destruct err; [destruct new_dl| |destruct new_dl|];
      simpl; congruence. }
  unfold mysql_create_function.
  destruct (initialized st) eqn:Hi; simpl; [|done].
  destruct (check_valid_path env (dl (deref st udf))); [done|].
  destruct (check_string_char_length env (name (deref st udf))); [done|].
  destruct (open_tables_fails env); [done|].
  destruct (udf_hash st !! name (deref st udf)); [done|].
  match goal with |- context [if ?b then _ else _] => destruct b end.
  - match goal with |- context [if ?b then _ else _] => destruct b end; [done|].
    by rewrite Hlib.
  - by rewrite Hlib.
Qed.

(** X16. A successful CREATE FUNCTION followed by DROP FUNCTION of the
    same name leaves the hash as it was before the two statements; the
    descriptors registered before are untouched and every lookup answers
    as before; and the DROP closes a library exactly when the CREATE had
    opened it. *)
Theorem create_then_drop (env env' : Env) (udf : N) (st : udf_state) :
  let u := deref st udf in
  let c := mysql_create_function env udf st in
  let d := mysql_drop_function env' (name u) c.2 in
  (∀ k p, udf_hash st !! k = Some p -> p < udf) ->
  udf < mem_next st ->
  c.1 = false ->
  open_tables_fails env' = false ->
  udf_hash d.2 = udf_hash st ∧
  (∀ k p, udf_hash st !! k = Some p -> deref d.2 p = deref st p) ∧
  (∀ nm len mark, (find_udf nm len mark d.2).1 = (find_udf nm len mark st).1) ∧
  ∃ evs1 evs2, appended st c.2 evs1 ∧ appended c.2 d.2 evs2 ∧
    ∀ h, EvDlclose h ∈ evs2 ↔ EvDlopen (dl u) h ∈ evs1.
Proof.
  intros u c d Hreg Hudf Hok Hopen'.
  assert (0 < mem_next st) as Hnx by lia.
  destruct (mysql_create_function_ok_pre env udf st Hok)
    as (Hi & Hcp & Hcl & Ho & Hfree & Hh).
  fold u in Hcp, Hcl, Hfree, Hh.
  (* the create *)
  destruct (mysql_create_function_outcome env udf st)
    as (evs0 & _ & [(Hc & _)|(_ & _ & _ & Hhc & _ & _ & Hid & Hfr & Hn & _)]).
  { fold c in Hc. congruence. }
  fold c u in Hhc, Hid, Hfr, Hn.
  set (pn := mem_next st) in *.
  destruct Hid as (Hname & _ & _ & Hdl & Hdh & Hcnt). simpl in *.
  assert (∀ k p, udf_hash st !! k = Some p -> deref c.2 p = deref st p) as Hsame.
  { intros k p Hk. specialize (Hreg _ _ Hk). unfold deref.
    rewrite Hfr; [done|lia|lia]. }
  (* its trace *)
  pose proof (mysql_create_function_opened env udf st Hi Hcp Hcl Ho Hfree Hh)
    as Hstep.
  fold c u in Hstep.
  assert (∃ evr, Forall resolution_event evr ∧
            trace c.2 = [EvCommitImplicit; EvCommitStmt; EvBinlog;
                         EvWriteRow (name u)]
                        ++ evr
                        ++ (if find_udf_dl st (dl u) =? 0
                            then [EvDlopen (dl u) (dlopen env (dl u))] else [])
                        ++ trace st) as (evr & Hclr & Htc).
  { destruct (find_udf_dl st (dl u) =? 0).
    - destruct (create_with_library_ok env udf (dlopen env (dl u)) true
                  (log (EvDlopen (dl u) (dlopen env (dl u))) st) Hnx)
        as [_ Htr].
      rewrite <- Hstep in Htr. destruct (Htr Hok) as (_ & evr & Hclr & Ht).
      exists evr. split; [done|]. rewrite Ht. by rewrite deref_log.
    - destruct (create_with_library_ok env udf (find_udf_dl st (dl u)) false
                  st Hnx) as [_ Htr].
      rewrite <- Hstep in Htr. destruct (Htr Hok) as (_ & evr & Hclr & Ht).
      exists evr. split; [done|]. by rewrite Ht. }
  (* the drop *)
  assert (initialized c.2 = true) as Hic
    by (subst c; by rewrite mysql_create_function_initialized).
  assert (udf_hash c.2 !! name u = Some pn) as Hkc
    by (rewrite Hhc; apply lookup_insert_eq).
  destruct (mysql_drop_function_outcome env' (name u) c.2 pn Hic Hopen' Hkc)
    as (Hhd & Hmd & _ & Hid & evs2 & Happ2 & _ & _ & Hclose).
  fold d in Hhd, Hmd, Hid, Happ2, Hclose.
  assert (udf_hash c.2 !! name (deref c.2 pn) = Some pn) as Hkn
    by (by rewrite Hname).
  rewrite (udf_hash_delete_last _ _ _ Hkn Hcnt) in Hhd.
  rewrite Hname, Hhc in Hhd. rewrite delete_insert_eq in Hhd.
  rewrite delete_id in Hhd by done.
  destruct (udf_hash_delete_frame pn c.2) as (_ & _ & _ & _ & Hmdel & _).
  assert (∀ k p, udf_hash st !! k = Some p -> deref d.2 p = deref st p) as Hsd.
  { intros k p Hk. rewrite <- (Hsame k p Hk). unfold deref.
    rewrite Hmd, Hmdel; [done|]. specialize (Hreg _ _ Hk). lia. }
  assert (find_udf_dl d.2 (dl u) = find_udf_dl st (dl u)) as Hfd
    by (by apply find_udf_dl_registered).
  split_and!; try done.
  - intros nm len mark.
    rewrite !find_udf_result by congruence. rewrite Hhd.
    destruct (udf_hash st !! find_key nm len) as [p|] eqn:Hk; [|done].
    by rewrite (Hsd _ _ Hk).
  - exists ([EvCommitImplicit; EvCommitStmt; EvBinlog; EvWriteRow (name u)]
             ++ evr
             ++ (if find_udf_dl st (dl u) =? 0
                 then [EvDlopen (dl u) (dlopen env (dl u))] else [])), evs2.
    split; [unfold appended; rewrite Htc; by rewrite <- !app_assoc|].
    split; [done|].
    rewrite Hdl, Hdh in Hclose. simpl in Hclose. rewrite Hfd in Hclose.
    unfold create_handle in *.
    intros h. destruct (find_udf_dl st (dl u) =? 0) eqn:Hf.
    + apply N.eqb_eq in Hf.
      destruct Hclose as [(_ & [Hz|Hz])|(evs' & -> & Hno & _)]; [done|done|].
      split.
      * intros Hin. apply elem_of_cons in Hin as [Hin|Hin];
          [|by apply Hno in Hin].
        injection Hin as ->.
        apply elem_of_app. right. apply elem_of_app. right. by left.
      * intros Hin. ev_cases. injection Hin as ->. by left.
    + apply N.eqb_neq in Hf.
      destruct Hclose as [(Hno & _)|(evs' & _ & _ & _ & Hz)]; [|done].
      split; [intros Hin; by apply Hno in Hin|].
      intros Hin. ev_cases.
Qed.

(** ** The registry after shutdown *)

Lemma udf_deinit_off (st : udf_state) : registry_off (udf_deinit st).
Proof.
  unfold udf_deinit, registry_off. simpl.
  by destruct (initialized (udf_deinit_close (map_to_list (udf_hash st)) st)) eqn:E.
Qed.

Lemma run_op_off (env : Env) (st : udf_state) (o : registry_op) :
  registry_off st -> (∀ rows, o ≠ OpInit rows) ->
  registry_off (run_op env st o) ∧
  ∃ evs, appended st (run_op env st o) evs ∧
         Forall (λ e, ∃ c a, e = EvMyError c a) evs.
Proof.
  intros [Hi Hh] Hno. unfold registry_off, appended.
  destruct o as [rows|u|nm|[nm len mark|udf]]; simpl.
  - by destruct (Hno rows).
  - unfold mysql_create_function. simpl. rewrite Hi. simpl.
    split; [done|]. eexists [_]. split; [reflexivity|].
    apply Forall_singleton. destruct (opt_noacl env); by do 2 eexists.
  - unfold mysql_drop_function. rewrite Hi. simpl.
    split; [done|]. eexists [_]. split; [reflexivity|].
    apply Forall_singleton. destruct (opt_noacl env); by do 2 eexists.
  - unfold find_udf. rewrite Hi. simpl. split; [done|]. by exists [].
  - unfold free_udf. rewrite Hi. simpl. split; [done|]. by exists [].
Qed.

(** X6. After [udf_deinit] the registry is off until the next
    [udf_init]: whatever is asked of it, it stays empty, lookups find
    nothing, releases do nothing, CREATE and DROP FUNCTION only report an
    error, and a second [udf_deinit] changes nothing. *)
Theorem udf_deinit_shuts_down (env : Env) (st : udf_state)
                              (ops : list registry_op) :
  Forall (λ o, ∀ rows, o ≠ OpInit rows) ops ->
  let st' := fold_left (run_op env) ops (udf_deinit st) in
  initialized st' = false ∧ udf_hash st' = ∅ ∧
  (∀ nm len mark, find_udf nm len mark st' = (0, st')) ∧
  (∀ p, free_udf p st' = st') ∧
  udf_deinit st' = st' ∧
  ∃ evs, appended (udf_deinit st) st' evs ∧
         Forall (λ e, ∃ c a, e = EvMyError c a) evs.
Proof.
  intros Hops st'.
  assert (registry_off st' ∧
          ∃ evs, appended (udf_deinit st) st' evs ∧
                 Forall (λ e, ∃ c a, e = EvMyError c a) evs) as [[Hi Hh] Hev].
  { subst st'. pose proof (udf_deinit_off st) as Hoff.
    generalize dependent (udf_deinit st). clear st.
    induction ops as [|o ops IH]; intros s Hoff; simpl.
    { split; [done|]. by exists []. }
    apply Forall_cons in Hops as [Ho Hops].
    destruct (run_op_off env s o Hoff Ho) as (Hoff1 & evs1 & Happ1 & Hev1).
    destruct (IH Hops _ Hoff1) as (Hoff2 & evs2 & Happ2 & Hev2).
    split; [done|]. exists (evs2 ++ evs1). split.
    - unfold appended in *. by rewrite Happ2, Happ1, app_assoc.
    - by apply Forall_app. }
  split_and!; try done.
  - intros nm len mark. unfold find_udf. by rewrite Hi.
  - intros p. unfold free_udf. by rewrite Hi.
  - unfold udf_deinit. rewrite Hh, map_to_list_empty. simpl. rewrite Hi.
    destruct st'. simpl in *. by subst.
Qed.

(** ** Libraries in use, and rows with the name of a registered function *)

(** X17. [find_udf_dl] answers null exactly when no registered
    descriptor of the library has a handle, and otherwise the handle of
    a registered descriptor of that library. *)
Theorem find_udf_dl_spec (st : udf_state) (path : string) :
  (find_udf_dl st path = 0 ↔
   ∀ k p, udf_hash st !! k = Some p -> dl (deref st p) = path ->
          dlhandle (deref st p) = 0) ∧
  (find_udf_dl st path ≠ 0 ->
   ∃ k p, udf_hash st !! k = Some p ∧ dl (deref st p) = path ∧
          dlhandle (deref st p) = find_udf_dl st path).
Proof.
  split; [split|].
  - intros Hz k p. by apply find_udf_dl_None.
  - apply find_udf_dl_zero.
  - apply find_udf_dl_Some.
Qed.

(** X11. A row of [mysql.func] whose name is already a key never
    replaces the registered function, and no registered descriptor is
    written. The function stays registered when the symbols of the row
    resolve; when they do not, [udf_hash_delete] of the descriptor of the
    row finds the key by its name and the registered function is
    unregistered. *)
Theorem udf_init_row_duplicate (env : Env) (st : udf_state) (r : func_row)
                               (q : N) :
  let typ := default UDFTYPE_FUNCTION (row_type r) in
  let h := create_handle env st (row_dl r) in
  wf_registry st ->
  udf_hash st !! row_name r = Some q ->
  check_valid_path env (row_dl r) = false ->
  check_string_char_length env (row_name r) = false ->
  typ = UDFTYPE_FUNCTION ∨ typ = UDFTYPE_AGGREGATE ->
  alloc_root_fails env = false ->
  h ≠ 0 ->
  let st' := udf_init_row env st r in
  udf_hash st' = (if resolves env h (row_name r) typ then udf_hash st
                  else delete (row_name r) (udf_hash st)) ∧
  (∀ k p, udf_hash st !! k = Some p -> deref st' p = deref st p).
Proof.
  intros typ h [Hnx Hreg] Hk Hcp Hcl Hty Ha Hh st'.
  destruct (udf_init_row_outcome env st r (conj Hnx Hreg))
    as (_ & _ & Hfr & _).
  fold st' in Hfr.
  assert (∀ k p, udf_hash st !! k = Some p -> deref st' p = deref st p) as Hsame.
  { intros k p Hp. unfold deref. rewrite Hfr; [done|].
    specialize (Hreg _ _ Hp). lia. }
  split; [|done].
  subst st'. unfold udf_init_row. rewrite Hcp, Hcl. simpl. fold typ.
  destruct (add_udf_cases env (row_name r) (row_ret r) (row_dl r) typ st)
    as (_ & _ & _ & _ & [(Hz & _)|(Hp & Hnz & _ & _ & Hhash & Hm & _)]).
  { exfalso. revert Hz. unfold add_udf, alloc_root. rewrite Ha.
    destruct Hty as [-> | ->]; simpl;
      (destruct (mem_next st =? 0) eqn:E; [apply N.eqb_eq in E; lia|]);
      simpl; apply N.eqb_neq in E; done. }
  destruct (add_udf env (row_name r) (row_ret r) (row_dl r) typ st)
    as [tmp st1]. simpl in *. subst tmp.
  assert ((mem_next st =? 0) = false) as -> by by apply N.eqb_neq.
  assert (udf_hash st1 = udf_hash st) as Hh1.
  { rewrite Hhash. unfold emplace. by rewrite Hk. }
  assert (deref st1 (mem_next st)
          = mk_udf_func (row_name r) (row_ret r) typ (row_dl r) 0 0 0 0 0 0 1)
    as Hd by (unfold deref; by rewrite Hm, lookup_insert_eq).
  assert (find_udf_dl st1 (row_dl r) = find_udf_dl st (row_dl r)) as Hf.
  { apply find_udf_dl_registered; [done|].
    intros k p Hp. unfold deref. rewrite Hm, lookup_insert_ne; [done|].
    specialize (Hreg _ _ Hp). lia. }
  rewrite Hd. simpl. rewrite Hf.
  assert (∀ new_dl s,
            udf_hash s = udf_hash st -> mem s = mem st1 ->
            udf_hash (udf_init_bind env (mem_next st) h new_dl s)
            = (if resolves env h (row_name r) typ then udf_hash st
               else delete (row_name r) (udf_hash st))) as Hbind.
  { intros new_dl s Hsh Hsm.
    assert (deref s (mem_next st) = deref st1 (mem_next st)) as Hds
      by (unfold deref; by rewrite Hsm).
    destruct (resolves env h (row_name r) typ) eqn:Hres.
    - destruct (udf_init_bind_accepts env (mem_next st) h new_dl s) as (-> & _);
        [|done].
      by rewrite Hds, Hd.
    - unfold udf_init_bind.
      set (s1 := store (mem_next st) (set_dlhandle h (deref s (mem_next st))) s).
      assert (deref s1 (mem_next st) = set_dlhandle h (deref s (mem_next st)))
        as Hd1 by (subst s1; apply deref_store_eq).
      pose proof (init_syms_None_iff env (mem_next st) s1) as Hiff.
      rewrite Hd1, Hds, Hd in Hiff. simpl in Hiff.
      pose proof (init_syms_frame env (mem_next st) s1)
        as (Hhs & _ & _ & _ & _ & Hid & _).
      rewrite Hd1, Hds, Hd in Hid. destruct Hid as (Hname & _ & _ & _ & _ & Hcnt).
      simpl in Hname, Hcnt.
      destruct (init_syms env (mem_next st) s1) as [[m|] s2]; simpl in *.
      2:{ rewrite (proj1 Hiff eq_refl) in Hres. done. }
      set (s3 := log (EvLogErr ERROR_LEVEL ER_CANT_FIND_DL_ENTRY m) s2).
      assert (udf_hash s3 !! name (deref s3 (mem_next st)) = Some q) as Hk3.
      { subst s3. rewrite deref_log. simpl. by rewrite Hname, Hhs, Hsh. }
      assert (usage_count (deref s3 (mem_next st)) = 1) as Hc3 by done.
      pose proof (udf_hash_delete_last _ _ _ Hk3 Hc3) as Hdel.
      assert (udf_hash (udf_hash_delete (mem_next st) s3)
              = delete (row_name r) (udf_hash st)) as Hdel'.
      { rewrite Hdel. subst s3. rewrite deref_log. simpl.
        by rewrite Hname, Hhs, Hsh. }
      by destruct new_dl. }
  subst h. unfold create_handle in *.
  destruct (find_udf_dl st (row_dl r) =? 0) eqn:Hz.
  - assert ((dlopen env (row_dl r) =? 0) = false) as -> by by apply N.eqb_neq.
    by apply Hbind.
  - by apply Hbind.
Qed.

(** ** DROP FUNCTION of a function in use *)

(** X18. DROP FUNCTION of a function that callers hold, its renamed key
    being free and the tables opening: whatever the other collaborators
    answer, the descriptor stays in the hash under the renamed key with
    one reference less, it keeps its handle, and its library is not
    closed. *)
Theorem mysql_drop_function_in_use (env : Env) (nm : string) (st : udf_state)
                                   (p : N) :
  initialized st = true ->
  open_tables_fails env = false ->
  udf_hash st !! nm = Some p ->
  name (deref st p) = nm ->
  1 < usage_count (deref st p) < ULONG_MOD ->
  udf_hash st !! shadow_key p = None ->
  dlhandle (deref st p) ≠ 0 ->
  let d := mysql_drop_function env nm st in
  udf_hash d.2 = <[shadow_key p := p]> (delete nm (udf_hash st)) ∧
  deref d.2 p = set_usage_count (usage_count (deref st p) - 1) (deref st p) ∧
  (∀ q, q ≠ p -> mem d.2 !! q = mem st !! q) ∧
  ∃ evs, appended st d.2 evs ∧ ∀ h, EvDlclose h ∉ evs.
Proof.
  intros Hi Ho Hk Hname Hc Hs Hh d.
  destruct (mysql_drop_function_outcome env nm st p Hi Ho Hk)
    as (Hhd & Hmd & _ & _ & evs & Happ & _ & _ & Hclose).
  fold d in Hhd, Hmd, Happ, Hclose.
  assert (udf_hash st !! name (deref st p) = Some p) as Hkn by (by rewrite Hname).
  destruct (udf_hash_delete_renamed st p p Hkn Hc) as (Hd1 & _ & _ & _ & Hh1).
  destruct (udf_hash_delete_frame p st) as (_ & _ & _ & _ & Hm1 & _).
  rewrite Hname in Hh1.
  assert (udf_hash d.2 = <[shadow_key p := p]> (delete nm (udf_hash st))) as Hhash.
  { rewrite Hhd, Hh1. unfold emplace.
    rewrite lookup_delete_ne by congruence. by rewrite Hs. }
  assert (deref d.2 p
          = set_usage_count (usage_count (deref st p) - 1) (deref st p)) as Hdp.
  { rewrite <- Hd1. unfold deref. by rewrite Hmd. }
  split_and!; try done.
  - intros q Hq. rewrite Hmd. by apply Hm1.
  - exists evs. split; [done|].
    destruct Hclose as [[Hno _]|(evs' & _ & _ & _ & Hf)]; [done|].
    exfalso. apply Hh.
    assert (dlhandle (deref d.2 p) = 0) as Hz.
    { apply (find_udf_dl_None d.2 (dl (deref st p)) (shadow_key p) p Hf).
      - rewrite Hhash. apply lookup_insert_eq.
      - by rewrite Hdp. }
    by rewrite Hdp in Hz.
Qed.

(** ** What CREATE FUNCTION reports and registers *)

Lemma create_with_library_reports (env : Env) (udf : N) (dl1 : N) (new_dl : bool)
                                  (st : udf_state) :
  let c := create_with_library env udf dl1 new_dl st in
  ∃ evs, appended st c.2 evs ∧
    (c.1 = false -> ∀ code arg, EvMyError code arg ∉ evs) ∧
    (c.1 = true -> ∃ code arg, EvMyError code arg ∈ evs).
Proof.
  intros c. subst c. unfold create_with_library, appended.
  set (s1 := store udf (set_dlhandle dl1 (deref st udf)) st).
  pose proof (init_syms_frame env udf s1)
    as (_ & _ & _ & _ & _ & _ & evr & Happr & Hclr).
  unfold appended in Happr.
  destruct (init_syms env udf s1) as [[m|] s2]; simpl in *.
  - exists ((if new_dl then [EvDlclose dl1] else [])
            ++ EvMyError ER_CANT_FIND_DL_ENTRY m :: evr).
    split; [destruct new_dl; simpl; by rewrite Happr|].
    split; [done|]. intros _. exists ER_CANT_FIND_DL_ENTRY, m.
    apply elem_of_app. right. by left.
  - unfold write_func_row.
    set (evw := if negb (ha_write_row_fails env)
                then [EvBinlog; EvWriteRow (name (deref s2 udf))]
                else [EvWriteRow (name (deref s2 udf))]).
    assert (Forall (λ e, e = EvBinlog ∨ ∃ n, e = EvWriteRow n) evw) as Hclw.
    { subst evw. destruct (negb (ha_write_row_fails env)).
      - apply Forall_cons. split; [by left|].
        apply Forall_singleton. right. by eexists.
      - apply Forall_singleton. right. by eexists. }
    destruct (negb (ha_write_row_fails env)); simpl;
      match goal with
      | |- context [udf_end_transaction ?e ?rb ?u ?i ?s] =>
          destruct (udf_end_transaction_events e rb u i s)
            as (evt & Happt & Hclt & _);
          unfold appended in Happt;
          destruct (udf_end_transaction e rb u i s) as [err s4]
      end; simpl in *;
      (exists ((if err then (if new_dl then [EvDlclose dl1] else [])
                            ++ [EvMyError ER_ERROR_ON_WRITE "mysql.func"]
                else [])
               ++ evt ++ evw ++ evr));
      (split; [destruct err; [destruct new_dl|]; simpl; rewrite Happt, Happr;
               by rewrite <- ?app_assoc|]);
      (destruct err; simpl;
       [split; [done|]; intros _; exists ER_ERROR_ON_WRITE, "mysql.func";
        destruct new_dl; simpl; [right; by left|by left]
       |split; [intros _ code arg Hin; ev_cases|done]]).
Qed.

(** X20. CREATE FUNCTION reports an error through [my_error] when it
    fails, unless it fails because the tables did not open, which is for
    the callee to report; and it reports none when it succeeds. *)
Theorem mysql_create_function_reports (env : Env) (udf : N) (st : udf_state) :
  let c := mysql_create_function env udf st in
  ∃ evs, appended st c.2 evs ∧
    (c.1 = false -> ∀ code arg, EvMyError code arg ∉ evs) ∧
    (c.1 = true ->
     (∃ code arg, EvMyError code arg ∈ evs)
     ∨ (evs = [] ∧ open_tables_fails env = true)).
Proof.
  intros c. subst c. unfold mysql_create_function, appended.
  destruct (initialized st); simpl.
  2:{ eexists [_]. split; [reflexivity|]. split; [done|]. intros _. left.
      destruct (opt_noacl env); do 2 eexists; by left. }
  destruct (check_valid_path env (dl (deref st udf))).
  { eexists [_]. split; [reflexivity|]. split; [done|]. intros _. left.
    do 2 eexists; by left. }
  destruct (check_string_char_length env (name (deref st udf))).
  { eexists [_]. split; [reflexivity|]. split; [done|]. intros _. left.
    do 2 eexists; by left. }
  destruct (open_tables_fails env).
  { exists []. split; [reflexivity|]. split; [done|]. intros _. by right. }
  destruct (udf_hash st !! name (deref st udf)).
  { eexists [_]. split; [reflexivity|]. split; [done|]. intros _. left.
    do 2 eexists; by left. }
  assert (∀ dl1 new_dl s evs0,
            trace s = evs0 ++ trace st ->
            (∀ code arg, EvMyError code arg ∉ evs0) ->
            let c := create_with_library env udf dl1 new_dl s in
            ∃ evs, trace c.2 = evs ++ trace st ∧
              (c.1 = false -> ∀ code arg, EvMyError code arg ∉ evs) ∧
              (c.1 = true ->
               (∃ code arg, EvMyError code arg ∈ evs) ∨ (evs = [] ∧ false = true)))
    as Hlib.
  { intros dl1 new_dl s evs0 Ht Hno c.
    destruct (create_with_library_reports env udf dl1 new_dl s)
      as (evs & Happ & Hok & Hfail).
    fold c in Happ, Hok, Hfail. unfold appended in Happ.
    exists (evs ++ evs0). split; [by rewrite Happ, Ht, app_assoc|]. split.
    - intros Hc code arg Hin. apply elem_of_app in Hin as [Hin|Hin].
      + by apply (Hok Hc) in Hin.
      + by apply Hno in Hin.
    - intros Hc. left. destruct (Hfail Hc) as (code & arg & Hin).
      exists code, arg. apply elem_of_app. by left. }
  destruct (find_udf_dl (rwlock_lock st) (dl (deref st udf)) =? 0).
  - destruct (dlopen env (dl (deref st udf)) =? 0).
    + eexists [_; _]. split; [reflexivity|]. split; [done|]. intros _. left.
      do 2 eexists; by left.
    + apply (Hlib _ _ _ [EvDlopen (dl (deref st udf))
                                  (dlopen env (dl (deref st udf)))]); [done|].
      intros code arg Hin. ev_cases.
  - apply (Hlib _ _ _ []); [done|]. intros code arg Hin. ev_cases.
Qed.

(** X21. After a successful CREATE FUNCTION the function can be called:
    [find_udf] of its name hands out the new descriptor, which has the
    return type, type and library of the statement, the handle of the
    library and a [usage_count] of 1; the other keys of the hash are as
    they were. *)
Theorem mysql_create_function_usable (env : Env) (udf : N) (st : udf_state) :
  let u := deref st udf in
  let c := mysql_create_function env udf st in
  let p := mem_next st in
  c.1 = false ->
  usable c.2 (name u) p ∧
  (∀ nm len mark, find_key nm len = name u -> (find_udf nm len mark c.2).1 = p) ∧
  returns (deref c.2 p) = returns u ∧ type (deref c.2 p) = type u ∧
  dl (deref c.2 p) = dl u ∧
  dlhandle (deref c.2 p) = create_handle env st (dl u) ∧
  usage_count (deref c.2 p) = 1 ∧
  (∀ k, k ≠ name u -> udf_hash c.2 !! k = udf_hash st !! k).
Proof.
  intros u c p Hok.
  destruct (mysql_create_function_outcome env udf st)
    as (evs & _ & [(Hc & _)|(Hi & _ & _ & Hh & _ & Hnz & Hid & _)]).
  { fold c in Hc. congruence. }
  fold c u p in Hh, Hid, Hnz.
  destruct Hid as (Hname & Hret & Htype & Hdl & Hdh & Hcnt). simpl in *.
  assert (udf_hash c.2 !! name u = Some p) as Hk
    by (rewrite Hh; apply lookup_insert_eq).
  assert (dlhandle (deref c.2 p) ≠ 0) as Hnz' by (by rewrite Hdh).
  split_and!; try done.
  - intros nm len mark Hkey.
    rewrite find_udf_result
      by (subst c; by rewrite mysql_create_function_initialized).
    rewrite Hkey, Hk. by destruct (N.eqb_spec (dlhandle (deref c.2 p)) 0).
  - intros k Hne. rewrite Hh. by apply lookup_insert_ne.
Qed.

(** ** The rows the startup scan rejects *)

(** The loop body of [udf_init] on a descriptor whose symbols do not
    resolve: the missing symbol is logged and the descriptor's name is
    erased from the hash. *)
Lemma udf_init_bind_rejects (env : Env) (tmp : N) (h : N) (new_dl : bool)
                            (st : udf_state) (q : N) :
  udf_hash st !! name (deref st tmp) = Some q ->
  usage_count (deref st tmp) = 1 ->
  resolves env h (name (deref st tmp)) (type (deref st tmp)) = false ->
  let st' := udf_init_bind env tmp h new_dl st in
  udf_hash st' = delete (name (deref st tmp)) (udf_hash st) ∧
  ∃ m evs, EvLogErr ERROR_LEVEL ER_CANT_FIND_DL_ENTRY m ∈ evs ∧
           appended st st' evs.
Proof.
  intros Hk Hc Hres st'. subst st'. unfold udf_init_bind, appended.
  set (s1 := store tmp (set_dlhandle h (deref st tmp)) st).
  assert (deref s1 tmp = set_dlhandle h (deref st tmp)) as Hd1
    by (subst s1; apply deref_store_eq).
  pose proof (init_syms_None_iff env tmp s1) as Hiff.
  rewrite Hd1 in Hiff. simpl in Hiff.
  pose proof (init_syms_frame env tmp s1)
    as (Hhs & _ & _ & _ & _ & Hid & evr & Happr & _).
  rewrite Hd1 in Hid. destruct Hid as (Hname & _ & _ & _ & _ & Hcnt).
  simpl in Hname, Hcnt. unfold appended in Happr.
  destruct (init_syms env tmp s1) as [[m|] s2]; simpl in *.
  2:{ rewrite (proj1 Hiff eq_refl) in Hres. done. }
  set (s3 := log (EvLogErr ERROR_LEVEL ER_CANT_FIND_DL_ENTRY m) s2).
  assert (udf_hash s3 !! name (deref s3 tmp) = Some q) as Hk3.
  { subst s3. rewrite deref_log. simpl. by rewrite Hname, Hhs. }
  assert (usage_count (deref s3 tmp) = 1) as Hc3
    by (subst s3; rewrite deref_log; congruence).
  pose proof (udf_hash_delete_last _ _ _ Hk3 Hc3) as Hdel.
  pose proof (udf_hash_delete_trace _ _ _ Hk3) as Htr.
  assert (udf_hash (udf_hash_delete tmp s3)
          = delete (name (deref st tmp)) (udf_hash st)) as Hdel'.
  { rewrite Hdel. subst s3. rewrite deref_log. simpl. by rewrite Hname, Hhs. }
  destruct new_dl; simpl.
  - split; [done|]. exists m, (EvDlclose h :: EvLogErr ERROR_LEVEL
                                 ER_CANT_FIND_DL_ENTRY m :: evr).
    split; [right; by left|]. rewrite Htr. simpl. by rewrite Happr.
  - split; [done|]. exists m, (EvLogErr ERROR_LEVEL ER_CANT_FIND_DL_ENTRY m :: evr).
    split; [by left|]. rewrite Htr. simpl. by rewrite Happr.
Qed.

Lemma udf_init_row_rejects (env : Env) (st : udf_state) (r : func_row) :
  let typ := default UDFTYPE_FUNCTION (row_type r) in
  let h := dlopen env (row_dl r) in
  wf_registry st -> handles_eq env st ->
  udf_hash st !! row_name r = None ->
  check_valid_path env (row_dl r) = false ->
  check_string_char_length env (row_name r) = false ->
  typ = UDFTYPE_FUNCTION ∨ typ = UDFTYPE_AGGREGATE ->
  alloc_root_fails env = false ->
  h ≠ 0 ->
  resolves env h (row_name r) typ = false ->
  let st' := udf_init_row env st r in
  udf_hash st' = udf_hash st ∧
  ∃ m evs, EvLogErr ERROR_LEVEL ER_CANT_FIND_DL_ENTRY m ∈ evs ∧
           appended st st' evs.
Proof.
  intros typ h Hwf Heq Hfree Hcp Hcl Hty Ha Hh Hres st'.
  subst st'. pose proof Hwf as [Hnx Hreg].
  unfold udf_init_row. rewrite Hcp, Hcl. simpl. fold typ.
  destruct (add_udf_fresh env (row_name r) (row_ret r) (row_dl r) typ st)
    as (Hp & Hhash & Hd & Hfr & Htr); try done; [lia|].
  destruct (add_udf env (row_name r) (row_ret r) (row_dl r) typ st)
    as [tmp st1]. simpl in *. subst tmp.
  assert ((mem_next st =? 0) = false) as -> by (apply N.eqb_neq; lia).
  rewrite Hd. simpl.
  assert (∀ new_dl s evs0,
            udf_hash s = udf_hash st1 -> mem s = mem st1 ->
            trace s = evs0 ++ trace st ->
            let s' := udf_init_bind env (mem_next st) h new_dl s in
            udf_hash s' = udf_hash st ∧
            ∃ m evs, EvLogErr ERROR_LEVEL ER_CANT_FIND_DL_ENTRY m ∈ evs ∧
                     appended st s' evs) as Hbind.
  { intros new_dl s evs0 Hsh Hsm Hst s'. subst s'.
    assert (deref s (mem_next st) = deref st1 (mem_next st)) as Hds
      by (unfold deref; by rewrite Hsm).
    destruct (udf_init_bind_rejects env (mem_next st) h new_dl s (mem_next st))
      as (Hh' & m & evs & Hin & Happ).
    { rewrite Hds, Hd. simpl. rewrite Hsh, Hhash. apply lookup_insert_eq. }
    { by rewrite Hds, Hd. }
    { rewrite Hds, Hd. exact Hres. }
    rewrite Hds, Hd in Hh'. simpl in Hh'. split.
    - rewrite Hh', Hsh, Hhash. rewrite delete_insert_eq. by apply delete_id.
    - exists m, (evs ++ evs0). split; [apply elem_of_app; by left|].
      unfold appended in *. by rewrite Happ, Hst, app_assoc. }
  destruct (find_udf_dl st1 (row_dl r) =? 0) eqn:Hz.
  - fold h. assert ((h =? 0) = false) as -> by by apply N.eqb_neq.
    by apply (Hbind true _ [EvDlopen (row_dl r) h]); [| |simpl; rewrite Htr].
  - apply N.eqb_neq in Hz.
    destruct (find_udf_dl_Some st1 (row_dl r) Hz) as (k & p & Hk & Hdl & Hhd).
    assert (p ≠ mem_next st) as Hne.
    { intros ->. rewrite Hd in Hhd. simpl in Hhd. congruence. }
    assert (udf_hash st !! k = Some p) as Hk0.
    { rewrite Hhash in Hk. apply lookup_insert_Some in Hk as [[_ E]|[_ Hk]];
        [congruence|done]. }
    assert (deref st1 p = deref st p) as Hdp
      by (unfold deref; by rewrite Hfr).
    rewrite Hdp in Hdl, Hhd.
    assert (find_udf_dl st1 (row_dl r) = h) as ->.
    { rewrite <- Hhd. subst h. rewrite <- Hdl. apply (Heq k); [done|].
      rewrite Hhd. done. }
    by apply (Hbind false _ []).
Qed.

(** X19. The startup scan rejects a row whose symbols do not resolve:
    the names of the rows being distinct, a row with a valid path, name
    and type whose library opens but does not have the symbols is not
    registered after [udf_init], [find_udf] of its name returns null,
    and the missing symbol is in the error log. *)
Theorem udf_init_rejects (env : Env) (rows : list func_row) (r : func_row)
                         (st : udf_state) :
  let typ := default UDFTYPE_FUNCTION (row_type r) in
  let h := dlopen env (row_dl r) in
  initialized st = false ->
  0 < mem_next st ->
  thd_alloc_fails env = false ->
  open_tables_fails env = false ->
  init_read_record_fails env = false ->
  alloc_root_fails env = false ->
  NoDup (row_name <$> rows) ->
  r ∈ rows ->
  check_valid_path env (row_dl r) = false ->
  check_string_char_length env (row_name r) = false ->
  typ = UDFTYPE_FUNCTION ∨ typ = UDFTYPE_AGGREGATE ->
  h ≠ 0 ->
  resolves env h (row_name r) typ = false ->
  let st' := udf_init env rows st in
  udf_hash st' !! row_name r = None ∧
  (∀ nm len mark, find_key nm len = row_name r ->
                  (find_udf nm len mark st').1 = 0) ∧
  ∃ m, EvLogErr ERROR_LEVEL ER_CANT_FIND_DL_ENTRY m ∈ trace st'.
Proof.
  intros typ h Hi Hnx Hthd Hopen Hrd Ha Hnd Hr Hcp Hcl Hty Hh Hres st'.
  set (st0 := set_initialized true (set_udf_hash ∅ (set_lock 0 st))).
  assert (registry_inv st0 ∧ handles_eq env st0) as [Hinv0 Heq0].
  { split; [split; [split|]|]; try done.
    all: intros k; intros; simpl in *; by rewrite ?lookup_empty in *. }
  pose proof (handles_eq_from env st0 Heq0) as Hfrom0.
  apply list_elem_of_split in Hr as (l1 & l2 & ->).
  rewrite fmap_app, fmap_cons in Hnd.
  apply NoDup_app in Hnd as (_ & Hn1 & Hn2).
  apply NoDup_cons in Hn2 as [Hn2 _].
  assert (row_name r ∉ row_name <$> l1) as Hn1'.
  { intros Hin. apply (Hn1 _ Hin). by left. }
  destruct (udf_init_rows_frame env l1 st0 Hinv0 Hfrom0)
    as (HinvA & HfromA & _ & _ & _ & HkA).
  pose proof (udf_init_rows_handles_eq env l1 st0 Hinv0 Heq0) as HeqA.
  set (sA := fold_left (udf_init_row env) l1 st0) in *.
  assert (udf_hash sA !! row_name r = None) as HkA'.
  { rewrite HkA by done. subst st0. simpl. apply lookup_empty. }
  destruct (udf_init_row_rejects env sA r (proj1 HinvA) HeqA HkA' Hcp Hcl Hty Ha
              Hh Hres) as (HhB & m & evsB & HinB & HappB).
  destruct (udf_init_row_inv env sA r HinvA HfromA) as [HinvB HfromB].
  set (sB := udf_init_row env sA r) in *.
  destruct (udf_init_rows_frame env l2 sB HinvB HfromB)
    as (_ & _ & _ & _ & _ & HkC).
  destruct (udf_init_rows_events env l2 sB) as (_ & evsC & HappC & _).
  set (sC := fold_left (udf_init_row env) l2 sB) in *.
  assert (udf_hash sC !! row_name r = None) as HkC'.
  { rewrite HkC by done. by rewrite HhB. }
  assert (EvLogErr ERROR_LEVEL ER_CANT_FIND_DL_ENTRY m ∈ trace sC) as HinC.
  { unfold appended in *. rewrite HappC, HappB.
    apply elem_of_app. right. apply elem_of_app. by left. }
  assert (udf_hash st' = udf_hash sC ∧
          EvLogErr ERROR_LEVEL ER_CANT_FIND_DL_ENTRY m ∈ trace st')
    as (Hh' & Hin').
  { subst st'. unfold udf_init. rewrite Hi, Hthd, Hopen, Hrd.
    rewrite fold_left_app. simpl. fold st0. fold sA. fold sB. fold sC.
    destruct (0 <? read_record_error env)%Z; [|done].
    split; [done|]. by right. }
  split_and!.
  - by rewrite Hh'.
  - intros nm len mark Hkey. apply find_udf_None. by rewrite Hkey, Hh'.
  - by exists m.
Qed.

(** ** The further properties at concrete inputs *)

(** X2 at [myfunc]: one caller acquires it and gives it back. *)
Lemma find_udf_free_udf_witness :
  (initialized st_myfunc = true ∧
   usable st_myfunc (find_key "myfunc" 0) base ∧
   0 < usage_count (deref st_myfunc base) < ULONG_MOD - 1) ∧
  (find_udf "myfunc" 0 true st_myfunc).1 = base ∧
  free_udf base (find_udf "myfunc" 0 true st_myfunc).2 = st_myfunc.
Proof.
  assert (initialized st_myfunc = true) as H1 by by_compute.
  assert (usable st_myfunc (find_key "myfunc" 0) base) as H2.
  { split; [by_compute|]. intros H. vm_compute in H. discriminate H. }
  assert (0 < usage_count (deref st_myfunc base) < ULONG_MOD - 1) as H3
    by (split; by_compute).
  split; [split; [exact H1|split; [exact H2|exact H3]]|].
  exact (find_udf_free_udf "myfunc" 0 st_myfunc base H1 H2 H3).
Defined.

(** X4 at two neighbouring addresses. *)
Lemma shadow_key_injective_witness :
  (0 < base < 2 ^ 64 ∧ 0 < base + 1 < 2 ^ 64) ∧
  shadow_key base = "*<0x" +:+ hex_of_N base +:+ ">" ∧
  (shadow_key base = shadow_key (base + 1) -> base = base + 1).
Proof.
  assert (0 < base < 2 ^ 64) as H1 by (split; by_compute).
  assert (0 < base + 1 < 2 ^ 64) as H2 by (split; by_compute).
  split; [split; [exact H1|exact H2]|].
  exact (shadow_key_injective base (base + 1) H1 H2).
Defined.

(** X5 at the registry of two functions of one library: the library is
    closed once. *)
Lemma udf_deinit_closes_once_witness :
  distinct_descriptors st_shared ∧
  initialized (udf_deinit st_shared) = false ∧
  udf_hash (udf_deinit st_shared) = ∅ ∧
  ∃ hs, trace (udf_deinit st_shared) = (EvDlclose <$> hs) ++ trace st_shared ∧
        NoDup hs ∧
        ∀ h, h ∈ hs ↔
             h ≠ 0 ∧ ∃ k p, udf_hash st_shared !! k = Some p ∧
                            dlhandle (deref st_shared p) = h.
Proof.
  assert (reachable st_shared) as Hr.
  { unfold st_shared. do 2 apply reachable_step. apply reachable_boot.
    by_compute. }
  assert (distinct_descriptors st_shared) as Hd
    by exact (proj2 (reachable_keys st_shared Hr)).
  split; [exact Hd|]. exact (udf_deinit_closes_once st_shared Hd).
Defined.

(** X6 at the same registry: after the shutdown a CREATE, a DROP and a
    lookup find the registry off. *)
Lemma udf_deinit_shuts_down_witness :
  Forall (λ o, ∀ rows, o ≠ OpInit rows)
         [OpCreate (parsed "myagg" 2); OpDrop "myfunc";
          OpClient (Lookup "myfunc" 0 true)] ∧
  initialized (fold_left (run_op env_ok)
                 [OpCreate (parsed "myagg" 2); OpDrop "myfunc";
                  OpClient (Lookup "myfunc" 0 true)] (udf_deinit st_shared))
  = false ∧
  udf_hash (fold_left (run_op env_ok)
              [OpCreate (parsed "myagg" 2); OpDrop "myfunc";
               OpClient (Lookup "myfunc" 0 true)] (udf_deinit st_shared))
  = ∅.
Proof.
  assert (Forall (λ o, ∀ rows, o ≠ OpInit rows)
                 [OpCreate (parsed "myagg" 2); OpDrop "myfunc";
                  OpClient (Lookup "myfunc" 0 true)]) as H1
    by (repeat constructor; intros rows H; discriminate H).
  split; [exact H1|].
  destruct (udf_deinit_shuts_down env_ok st_shared _ H1) as (Hi & Hh & _).
  split; [exact Hi|exact Hh].
Defined.

(** X7 at the registry of two functions. *)
Lemma using_udf_functions_set_witness :
  (reachable st_shared ∧ udf_hash st_shared !! "myfunc" = Some base) ∧
  using_udf_functions st_shared = true.
Proof.
  assert (reachable st_shared) as Hr.
  { unfold st_shared. do 2 apply reachable_step. apply reachable_boot.
    by_compute. }
  assert (udf_hash st_shared !! "myfunc" = Some base) as Hk by by_compute.
  split; [split; [exact Hr|exact Hk]|].
  exact (using_udf_functions_set st_shared "myfunc" base Hr Hk).
Defined.

(** X8 at the registry of two functions. *)
Lemma registry_keys_witness :
  reachable st_shared ∧
  (∀ k p, udf_hash st_shared !! k = Some p ->
          p ≠ 0 ∧ (k = name (deref st_shared p) ∨ k = shadow_key p)) ∧
  (∀ k1 k2 p, udf_hash st_shared !! k1 = Some p ->
              udf_hash st_shared !! k2 = Some p -> k1 = k2).
Proof.
  assert (reachable st_shared) as Hr.
  { unfold st_shared. do 2 apply reachable_step. apply reachable_boot.
    by_compute. }
  split; [exact Hr|]. exact (registry_keys st_shared Hr).
Defined.

(** X9 at the row of [myfunc]. *)
Lemma udf_init_accepts_witness :
  (NoDup (row_name <$> [row_myfunc]) ∧ dlopen env_ok (row_dl row_myfunc) ≠ 0 ∧
   resolves env_ok (dlopen env_ok (row_dl row_myfunc)) (row_name row_myfunc)
            (default UDFTYPE_FUNCTION (row_type row_myfunc)) = true) ∧
  ∃ p, usable (udf_init env_ok [row_myfunc] (boot_state base))
              (row_name row_myfunc) p ∧
       usage_count (deref (udf_init env_ok [row_myfunc] (boot_state base)) p) = 1 ∧
       (find_udf "myfunc" 0 false
          (udf_init env_ok [row_myfunc] (boot_state base))).1 = p.
Proof.
  assert (initialized (boot_state base) = false) as H1 by by_compute.
  assert (0 < mem_next (boot_state base)) as H2 by by_compute.
  assert (thd_alloc_fails env_ok = false) as H3 by by_compute.
  assert (open_tables_fails env_ok = false) as H4 by by_compute.
  assert (init_read_record_fails env_ok = false) as H5 by by_compute.
  assert (alloc_root_fails env_ok = false) as H6 by by_compute.
  assert (NoDup (row_name <$> [row_myfunc])) as H7
    by (apply NoDup_singleton).
  assert (row_myfunc ∈ [row_myfunc]) as H8 by (apply list_elem_of_here).
  assert (check_valid_path env_ok (row_dl row_myfunc) = false) as H9
    by by_compute.
  assert (check_string_char_length env_ok (row_name row_myfunc) = false) as H10
    by by_compute.
  assert (default UDFTYPE_FUNCTION (row_type row_myfunc) = UDFTYPE_FUNCTION
          ∨ default UDFTYPE_FUNCTION (row_type row_myfunc) = UDFTYPE_AGGREGATE)
    as H11 by (left; by_compute).
  assert (dlopen env_ok (row_dl row_myfunc) ≠ 0) as H12
    by (intros H; vm_compute in H; discriminate H).
  assert (resolves env_ok (dlopen env_ok (row_dl row_myfunc))
            (row_name row_myfunc)
            (default UDFTYPE_FUNCTION (row_type row_myfunc)) = true) as H13
    by by_compute.
  split; [split; [exact H7|split; [exact H12|exact H13]]|].
  destruct (udf_init_accepts env_ok [row_myfunc] row_myfunc (boot_state base)
              H1 H2 H3 H4 H5 H6 H7 H8 H9 H10 H11 H12 H13)
    as (p & Hu & _ & _ & _ & _ & _ & _ & Hc & _ & Hf).
  exists p. split; [exact Hu|]. split; [exact Hc|].
  apply Hf. by_compute.
Defined.

(** X14 at CREATE FUNCTION of the aggregate [myagg] on the empty
    registry: every condition holds and the statement succeeds. *)
Lemma mysql_create_function_succeeds_witness :
  0 < mem_next create_myagg.2 ∧
  (mysql_create_function env_ok create_myagg.1 create_myagg.2).1 = false ∧
  THR_LOCK_udf (mysql_create_function env_ok create_myagg.1 create_myagg.2).2
  = THR_LOCK_udf create_myagg.2.
Proof.
  assert (0 < mem_next create_myagg.2) as H1 by by_compute.
  split; [exact H1|].
  destruct (mysql_create_function_succeeds env_ok create_myagg.1 create_myagg.2
              H1) as [Hiff Htr].
  assert ((mysql_create_function env_ok create_myagg.1 create_myagg.2).1 = false)
    as Hok.
  { apply Hiff. split_and!; try by_compute.
    - intros H. vm_compute in H. discriminate H.
    - right. by_compute. }
  split; [exact Hok|]. exact (proj1 (Htr Hok)).
Defined.

(** X15 at DROP FUNCTION of [myfunc], the only function of its library:
    the library is closed after the commits. *)
Lemma mysql_drop_function_success_witness :
  (udf_hash st_myfunc !! "myfunc" = Some base ∧
   usage_count (deref st_myfunc base) = 1 ∧
   (mysql_drop_function env_ok "myfunc" st_myfunc).1 = false) ∧
  udf_hash (mysql_drop_function env_ok "myfunc" st_myfunc).2
  = delete "myfunc" (udf_hash st_myfunc) ∧
  THR_LOCK_udf (mysql_drop_function env_ok "myfunc" st_myfunc).2
  = THR_LOCK_udf st_myfunc.
Proof.
  assert (udf_hash st_myfunc !! "myfunc" = Some base) as H1 by by_compute.
  assert (name (deref st_myfunc base) = "myfunc") as H2 by by_compute.
  assert (usage_count (deref st_myfunc base) = 1) as H3 by by_compute.
  assert (transaction_rollback_request env_ok = false) as H4 by by_compute.
  assert ((mysql_drop_function env_ok "myfunc" st_myfunc).1 = false) as H5
    by by_compute.
  split; [split; [exact H1|split; [exact H3|exact H5]]|].
  destruct (mysql_drop_function_success env_ok "myfunc" st_myfunc base
              H1 H2 H3 H4 H5) as (Hh & _ & Hl & _).
  split; [exact Hh|exact Hl].
Defined.

(** X16 at CREATE FUNCTION of [myagg] on the empty registry followed by
    its DROP: the registry is empty again. *)
Lemma create_then_drop_witness :
  (create_myagg.1 < mem_next create_myagg.2 ∧
   (mysql_create_function env_ok create_myagg.1 create_myagg.2).1 = false) ∧
  udf_hash (mysql_drop_function env_ok (name (deref create_myagg.2 create_myagg.1))
              (mysql_create_function env_ok create_myagg.1 create_myagg.2).2).2
  = udf_hash create_myagg.2.
Proof.
  assert (∀ k p, udf_hash create_myagg.2 !! k = Some p -> p < create_myagg.1)
    as H1.
  { intros k p H.
    assert (udf_hash create_myagg.2 = ∅) as He by by_compute.
    rewrite He, lookup_empty in H. discriminate H. }
  assert (create_myagg.1 < mem_next create_myagg.2) as H2 by by_compute.
  assert ((mysql_create_function env_ok create_myagg.1 create_myagg.2).1 = false)
    as H3 by by_compute.
  assert (open_tables_fails env_ok = false) as H4 by by_compute.
  split; [split; [exact H2|exact H3]|].
  exact (proj1 (create_then_drop env_ok env_ok create_myagg.1 create_myagg.2
                  H1 H2 H3 H4)).
Defined.

(** X11 at a second row named [myfunc], of type aggregate, whose
    [_clear] the library does not have: [myfunc] is unregistered. *)
Lemma udf_init_row_duplicate_witness :
  (udf_hash st_myfunc !! "myfunc" = Some base ∧
   resolves env_ok (create_handle env_ok st_myfunc "libdemo.so") "myfunc" 2
   = false) ∧
  udf_hash (udf_init_row env_ok st_myfunc (mk_row "myfunc" 0 "libdemo.so" (Some 2)))
           !! "myfunc" = None.
Proof.
  assert (reachable st_myfunc) as Hr.
  { unfold st_myfunc.
    apply (reachable_step env_ok (boot_state base)
             (OpInit [mk_row "myfunc" 0 "libdemo.so" (Some 1)])).
    apply reachable_boot. by_compute. }
  assert (wf_registry st_myfunc) as H1 by exact (proj1 (reachable_inv _ Hr)).
  assert (udf_hash st_myfunc !! "myfunc" = Some base) as H2 by by_compute.
  assert (check_valid_path env_ok "libdemo.so" = false) as H3 by by_compute.
  assert (check_string_char_length env_ok "myfunc" = false) as H4 by by_compute.
  assert (2 = UDFTYPE_FUNCTION ∨ 2 = UDFTYPE_AGGREGATE) as H5
    by (right; by_compute).
  assert (alloc_root_fails env_ok = false) as H6 by by_compute.
  assert (create_handle env_ok st_myfunc "libdemo.so" ≠ 0) as H7
    by (intros H; vm_compute in H; discriminate H).
  assert (resolves env_ok (create_handle env_ok st_myfunc "libdemo.so")
            "myfunc" 2 = false) as H8 by by_compute.
  split; [split; [exact H2|exact H8]|].
  destruct (udf_init_row_duplicate env_ok st_myfunc
              (mk_row "myfunc" 0 "libdemo.so" (Some 2)) base
              H1 H2 H3 H4 H5 H6 H7) as [Hh _].
  rewrite Hh. simpl row_name. simpl row_type. simpl row_dl.
  change (default UDFTYPE_FUNCTION (Some 2)) with 2.
  rewrite H8. apply lookup_delete_eq.
Defined.

(** X18 at DROP FUNCTION of [myfunc] held by one caller: the library
    stays open. *)
Lemma mysql_drop_function_in_use_witness :
  (udf_hash st_held !! "myfunc" = Some base ∧
   1 < usage_count (deref st_held base) < ULONG_MOD ∧
   dlhandle (deref st_held base) ≠ 0) ∧
  udf_hash (mysql_drop_function env_ok "myfunc" st_held).2
  = <[shadow_key base := base]> (delete "myfunc" (udf_hash st_held)) ∧
  ∃ evs, appended st_held (mysql_drop_function env_ok "myfunc" st_held).2 evs ∧
         ∀ h, EvDlclose h ∉ evs.
Proof.
  assert (initialized st_held = true) as H1 by by_compute.
  assert (open_tables_fails env_ok = false) as H2 by by_compute.
  assert (udf_hash st_held !! "myfunc" = Some base) as H3 by by_compute.
  assert (name (deref st_held base) = "myfunc") as H4 by by_compute.
  assert (1 < usage_count (deref st_held base) < ULONG_MOD) as H5
    by (split; by_compute).
  assert (udf_hash st_held !! shadow_key base = None) as H6 by by_compute.
  assert (dlhandle (deref st_held base) ≠ 0) as H7
    by (intros H; vm_compute in H; discriminate H).
  split; [split; [exact H3|split; [exact H5|exact H7]]|].
  destruct (mysql_drop_function_in_use env_ok "myfunc" st_held base
              H1 H2 H3 H4 H5 H6 H7) as (Hh & _ & _ & Hev).
  split; [exact Hh|exact Hev].
Defined.

(** X19 at the row of the aggregate [badagg], whose [_add] the library
    does not have. *)
Lemma udf_init_rejects_witness :
  (dlopen env_ok "libdemo.so" ≠ 0 ∧
   resolves env_ok (dlopen env_ok "libdemo.so") "badagg" 2 = false) ∧
  udf_hash (udf_init env_ok [mk_row "badagg" 0 "libdemo.so" (Some 2)]
              (boot_state base)) !! "badagg" = None ∧
  ∃ m, EvLogErr ERROR_LEVEL ER_CANT_FIND_DL_ENTRY m
       ∈ trace (udf_init env_ok [mk_row "badagg" 0 "libdemo.so" (Some 2)]
                  (boot_state base)).
Proof.
  assert (initialized (boot_state base) = false) as H1 by by_compute.
  assert (0 < mem_next (boot_state base)) as H2 by by_compute.
  assert (thd_alloc_fails env_ok = false) as H3 by by_compute.
  assert (open_tables_fails env_ok = false) as H4 by by_compute.
  assert (init_read_record_fails env_ok = false) as H5 by by_compute.
  assert (alloc_root_fails env_ok = false) as H6 by by_compute.
  assert (NoDup (row_name <$> [mk_row "badagg" 0 "libdemo.so" (Some 2)])) as H7
    by (apply NoDup_singleton).
  assert (mk_row "badagg" 0 "libdemo.so" (Some 2)
          ∈ [mk_row "badagg" 0 "libdemo.so" (Some 2)]) as H8
    by (apply list_elem_of_here).
  assert (check_valid_path env_ok "libdemo.so" = false) as H9 by by_compute.
  assert (check_string_char_length env_ok "badagg" = false) as H10
    by by_compute.
  assert (2 = UDFTYPE_FUNCTION ∨ 2 = UDFTYPE_AGGREGATE) as H11
    by (right; by_compute).
  assert (dlopen env_ok "libdemo.so" ≠ 0) as H12
    by (intros H; vm_compute in H; discriminate H).
  assert (resolves env_ok (dlopen env_ok "libdemo.so") "badagg" 2 = false)
    as H13 by by_compute.
  split; [split; [exact H12|exact H13]|].
  destruct (udf_init_rejects env_ok [mk_row "badagg" 0 "libdemo.so" (Some 2)]
              (mk_row "badagg" 0 "libdemo.so" (Some 2)) (boot_state base)
              H1 H2 H3 H4 H5 H6 H7 H8 H9 H10 H11 H12 H13) as (Hh & _ & Hm).
  split; [exact Hh|exact Hm].
Defined.

(** X21 at CREATE FUNCTION of [myagg]. *)
Lemma mysql_create_function_usable_witness :
  (mysql_create_function env_ok create_myagg.1 create_myagg.2).1 = false ∧
  (find_udf "myagg" 0 true
     (mysql_create_function env_ok create_myagg.1 create_myagg.2).2).1
  = mem_next create_myagg.2.
Proof.
  assert ((mysql_create_function env_ok create_myagg.1 create_myagg.2).1 = false)
    as H1 by by_compute.
  split; [exact H1|].
  destruct (mysql_create_function_usable env_ok create_myagg.1 create_myagg.2 H1)
    as (_ & Hf & _).
  apply Hf. by_compute.
Defined.
